(** * Gitea client for Raycast: repository / pull-request aggregation and caching

    A shallow embedding of the aggregation core of the extension
    ([lib/gitea.ts], [lib/gitea-api.ts], [lib/gitea-settings.ts],
    [gitea-pull-requests.tsx] and the cache, usage record and sections of the
    repository command), the vocabulary in which its properties are stated,
    an example server, and then the properties: first those that the
    specification states, then further ones that the code shows, each
    instantiated on the example.

    Conventions of the embedding.
    - An [async] function is a state-passing computation [M S A] over the part
      of the world it can touch; [await] is sequencing.  A rejected promise is
      the outcome [Thrown]; [try]/[catch] is [try_catch].
    - The remote server is a deterministic oracle from requests to responses,
      one per response shape; every request issued is appended to a log.
    - Overlapping requests ([Promise.allSettled], [Promise.all], the worker
      pool of [mapWithConcurrency]) are run one after the other in index
      order.  With a deterministic oracle the values computed are those of
      every interleaving; only the order of the log is specific to this
      choice.
    - [while (true)] loops take a fuel argument; running out of fuel is the
      third outcome [OutOfFuel], which no handler catches.
    - JavaScript numbers that hold ids, HTTP status codes and epoch
      milliseconds are integers ([Z]); counters are [nat].
    - [console.log] output is not modelled, so [debugEnabled] is dropped. *)

From stdpp Require Import base strings list gmap pretty sorting.
From Stdlib Require Import ZArith Lia Ascii.

#[local] Set Warnings "-clear-no-such-hyp".

(** ** JavaScript values and string helpers *)

Module Js.

(** Truthiness of a string: only the empty string is falsy. *)
Definition truthy (s : string) : bool :=
  match s with
  | EmptyString => false
  | String _ _ => true
  end.

(** Truthiness of [string | undefined | null]. *)
Definition truthy_opt (o : option string) : bool :=
  match o with
  | Some s => truthy s
  | None => false
  end.

(** Truthiness of [number | null]: [null], [0] (and NaN, which has no
    counterpart in [Z]) are falsy. *)
Definition truthy_num (o : option Z) : bool :=
  match o with
  | Some n => negb (n =? 0)%Z
  | None => false
  end.

(** [a || b] on [string | undefined]. *)
Definition or_else (a b : option string) : option string :=
  if truthy_opt a then a else b.

(** [s.split(sep)] for a one-character separator; the result is never
    empty. *)
Fixpoint split (sep : ascii) (s : string) : list string :=
  match s with
  | EmptyString => [EmptyString]
  | String c rest =>
      if Ascii.eqb c sep then EmptyString :: split sep rest
      else match split sep rest with
           | [] => [String c EmptyString]
           | hd :: tl => String c hd :: tl
           end
  end.

(** [parts.filter(Boolean)] on an array of strings. *)
Definition filter_Boolean (parts : list string) : list string :=
  List.filter truthy parts.

(** [parts.join(sep)]. *)
Fixpoint join (sep : string) (parts : list string) : string :=
  match parts with
  | [] => ""
  | [p] => p
  | p :: rest => p +:+ sep +:+ join sep rest
  end.

(** The first piece of [s] before [sep] and, when [sep] occurs, the rest
    after its first occurrence. *)
Fixpoint cut (sep : ascii) (s : string) : string * option string :=
  match s with
  | EmptyString => (EmptyString, None)
  | String c rest =>
      if Ascii.eqb c sep then (EmptyString, Some rest)
      else let '(hd, tl) := cut sep rest in (String c hd, tl)
  end.

End Js.

(** ** URLs

    A [URL] object keeps the part of the href before the query and the list of
    query parameters.  Percent-encoding, fragments and the validation done by
    [new URL] are not modelled. *)

Record URL := mkURL {
  url_base : string;
  url_searchParams : list (string * string);
}.

Definition parse_param (kv : string) : string * string :=
  let '(k, v) := Js.cut "="%char kv in (k, default "" v).

(** [new URL(href)] *)
Definition URL_new (href : string) : URL :=
  let '(base, query) := Js.cut "?"%char href in
  {| url_base := base;
     url_searchParams :=
       match query with
       | None => []
       | Some q => parse_param <$> Js.filter_Boolean (Js.split "&"%char q)
       end |}.

(** [URLSearchParams.prototype.set]: the first pair named [k] takes the value
    [v] and the other pairs named [k] are removed; without such a pair,
    [(k, v)] is appended. *)
Fixpoint searchParams_set_list (k v : string) (ps : list (string * string))
  : list (string * string) :=
  match ps with
  | [] => [(k, v)]
  | (k', v') :: rest =>
      if String.eqb k' k
      then (k, v) :: List.filter (fun p => negb (String.eqb (fst p) k)) rest
      else (k', v') :: searchParams_set_list k v rest
  end.

Definition searchParams_set (k v : string) (u : URL) : URL :=
  {| url_base := url_base u;
     url_searchParams := searchParams_set_list k v (url_searchParams u) |}.

(** [url.toString()] *)
Definition URL_toString (u : URL) : string :=
  match url_searchParams u with
  | [] => url_base u
  | ps => url_base u +:+ "?" +:+ Js.join "&" ((fun p => fst p +:+ "=" +:+ snd p) <$> ps)
  end.

(** ** lib/gitea.ts: entities *)

Record GiteaUser := mkUser {
  login : string;
  avatar_url : option string;
}.

Record GiteaRepo := mkRepo {
  repo_id : Z;
  full_name : string;
  repo_description : option string;
  repo_html_url : string;
  repo_owner : option GiteaUser;
}.

(** [GiteaPullRequest], with the two optional repository references of
    [GiteaPullRequestWithRepo].  [pr_head_sha] is [pull.head?.sha],
    [pr_repository_full_name] is [pull.repository?.full_name] and
    [pr_base_repo_full_name] is [pull.base?.repo?.full_name]: [None] stands
    for [undefined] or [null] anywhere along the optional chain.  [pr_user] is
    optional because the code reads it as [pr.user?.login]. *)
Record GiteaPullRequest := mkPull {
  pr_id : Z;
  pr_number : Z;
  pr_title : string;
  pr_html_url : string;
  pr_user : option GiteaUser;
  pr_updated_at : string;
  pr_state : string;
  pr_draft : option bool;
  pr_head_sha : option string;
  pr_requested_reviewers : option (list GiteaUser);
  pr_repository_full_name : option string;
  pr_base_repo_full_name : option string;
}.

Record GiteaAuthenticatedUser := mkAuthUser {
  user_id : Z;
  user_login : string;
}.

(** An entry of [GET /orgs]. *)
Record GiteaOrg := mkOrg {
  org_username : option string;
  org_name : option string;
}.

(** [normalizeBaseUrl]: [url.replace(/\/+$/, "")]. *)
Fixpoint normalizeBaseUrl (url : string) : string :=
  match url with
  | EmptyString => EmptyString
  | String c rest =>
      match normalizeBaseUrl rest with
      | EmptyString => if Ascii.eqb c "/"%char then EmptyString else String c EmptyString
      | r => String c r
      end
  end.

(** [String.prototype.toLowerCase], on ASCII letters. *)
Definition toLowerCase_ascii (c : ascii) : ascii :=
  let n := nat_of_ascii c in
  if (65 <=? n)%nat && (n <=? 90)%nat then ascii_of_nat (n + 32) else c.

Fixpoint toLowerCase (s : string) : string :=
  match s with
  | EmptyString => EmptyString
  | String c rest => String (toLowerCase_ascii c) (toLowerCase rest)
  end.

(** [formatStatus] *)
Definition formatStatus (state : option string) : string :=
  let normalized := toLowerCase (default "" state) in
  if String.eqb normalized "success" then "✅ passed"
  else if String.eqb normalized "failure" then "❌ failed"
  else if String.eqb normalized "pending" then "⏳ pending"
  else if String.eqb normalized "error" then "⚠️ error"
  else "⚪ unknown".

(** ** lib/gitea-api.ts: errors *)

Definition PER_PAGE : nat := 100.

(** What the code throws: a [GiteaApiError] (status, message, url) or any
    other [Error] (its [name] and [message]). *)
Inductive JsError :=
| GiteaApiError (status : Z) (message : string) (url : option string)
| OtherError (name : string) (message : string).

Definition error_message (e : JsError) : string :=
  match e with
  | GiteaApiError _ m _ => m
  | OtherError _ m => m
  end.

(** [toDebugError] *)
Record DebugError := mkDebugError {
  de_type : string;
  de_status : option Z;
  de_message : string;
  de_url : option string;
}.

Definition toDebugError (err : JsError) : DebugError :=
  match err with
  | GiteaApiError st m u =>
      {| de_type := "GiteaApiError"; de_status := Some st; de_message := m; de_url := u |}
  | OtherError n m =>
      {| de_type := if Js.truthy n then n else "Error";
         de_status := None; de_message := m; de_url := None |}
  end.

(** [PullInboxDebug].  [startedAt] and [finishedAt] hold the clock reading
    itself instead of its ISO rendering. *)
Record PullInboxDebug := mkDebug {
  startedAt : Z;
  finishedAt : option Z;
  dbg_baseUrl : string;
  usedGlobalEndpoints : option bool;
  fallbackUsed : option bool;
  dbg_createdUrl : string;
  dbg_reviewRequestedUrl : string;
  createdCount : option nat;
  reviewRequestedCount : option nat;
  dbg_currentUser : option string;
  repoCount : option nat;
  dbg_perRepoFailures : option nat;
  errors : list (string * DebugError);
}.

(** A thrown value: the error and the [__debug] record that
    [Object.assign(err, { __debug: dbg })] may have attached to it. *)
Record Exn := mkExn {
  exn_error : JsError;
  exn_debug : option PullInboxDebug;
}.

Definition plain (e : JsError) : Exn := {| exn_error := e; exn_debug := None |}.

(** ** Computations *)

Inductive Outcome (A : Type) :=
| Returned (a : A)
| Thrown (e : Exn)
| OutOfFuel.
Arguments Returned {A} a.
Arguments Thrown {A} e.
Arguments OutOfFuel {A}.

Definition M (S A : Type) : Type := S -> Outcome A * S.

Definition ret {S A} (a : A) : M S A := fun s => (Returned a, s).
Definition throw {S A} (e : Exn) : M S A := fun s => (Thrown e, s).
Definition out_of_fuel {S A} : M S A := fun s => (OutOfFuel, s).

Definition bind {S A B} (m : M S A) (k : A -> M S B) : M S B :=
  fun s =>
    match m s with
    | (Returned a, s') => k a s'
    | (Thrown e, s') => (Thrown e, s')
    | (OutOfFuel, s') => (OutOfFuel, s')
    end.

(** [try { m } catch (e) { h e }] *)
Definition try_catch {S A} (m : M S A) (h : Exn -> M S A) : M S A :=
  fun s =>
    match m s with
    | (Thrown e, s') => h e s'
    | r => r
    end.

(** [try { m } finally { f }] for a finaliser that cannot throw. *)
Definition try_finally {S A} (m : M S A) (f : S -> S) : M S A :=
  fun s =>
    match m s with
    | (OutOfFuel, s') => (OutOfFuel, s')
    | (r, s') => (r, f s')
    end.

Definition get {S} : M S S := fun s => (Returned s, s).
Definition modify {S} (f : S -> S) : M S unit := fun s => (Returned tt, f s).

(** Running a computation over a component [S] of a larger state [T]. *)
Definition lift {S T A} (proj : T -> S) (upd : S -> T -> T) (m : M S A) : M T A :=
  fun t => let '(r, s') := m (proj t) in (r, upd s' t).

Declare Scope comp_scope.
Delimit Scope comp_scope with comp.
Notation "x <- m ;; k" := (bind m (fun x => k))
  (at level 100, m at next level, right associativity) : comp_scope.
Notation "m ;;; k" := (bind m (fun _ => k))
  (at level 100, right associativity) : comp_scope.
Local Open Scope comp_scope.

(** ** The network *)

Record Request := mkRequest {
  req_url : string;
  req_authorization : option string;
}.

Record Response (B : Type) := mkResponse {
  status : Z;
  statusText : string;
  (** [await response.text()] *)
  text : string;
  (** [await response.json()]; [None] when the body is not JSON and the
      promise rejects. *)
  json : option B;
}.
Arguments mkResponse {B}.
Arguments status {B}.
Arguments statusText {B}.
Arguments text {B}.
Arguments json {B}.

(** [response.ok]: the status is in the range 200-299. *)
Definition ok {B} (r : Response B) : bool :=
  (200 <=? status r)%Z && (status r <=? 299)%Z.

Inductive FetchResult (B : Type) :=
| FetchRejected (e : JsError)
| FetchResolved (r : Response B).
Arguments FetchRejected {B} e.
Arguments FetchResolved {B} r.

(** The value of a body that the code casts to [T[]] and then tests with
    [Array.isArray]. *)
Inductive JsonArray (T : Type) :=
| NotArray
| IsArray (items : list T).
Arguments NotArray {T}.
Arguments IsArray {T} items.

(** Body of [GET /repos/search]: [json.data] and [json.total_count] when it is
    a number. *)
Record SearchJson := mkSearchJson {
  search_data : JsonArray GiteaRepo;
  total_count : option Z;
}.

(** Body of [GET .../commits/{sha}/status]. *)
Record StatusJson := mkStatusJson {
  state : option string;
}.

Inductive Endpoint := EpUser | EpPulls | EpSearch | EpRepos | EpOrgs | EpStatus.

(** The remote API, one oracle per response shape. *)
Class Server := mkServer {
  srv_user : Request -> FetchResult GiteaAuthenticatedUser;
  srv_pulls : Request -> FetchResult (JsonArray GiteaPullRequest);
  srv_search : Request -> FetchResult SearchJson;
  srv_repos : Request -> FetchResult (JsonArray GiteaRepo);
  srv_orgs : Request -> FetchResult (JsonArray GiteaOrg);
  srv_status : Request -> FetchResult StatusJson;
}.

(** What the network functions can touch: the log of requests issued so far
    and the number of clock readings taken so far. *)
Record Net := mkNet {
  requests : list (Endpoint * Request);
  ticks : nat;
}.

Definition log_request (ep : Endpoint) (req : Request) (w : Net) : Net :=
  {| requests := requests w ++ [(ep, req)]; ticks := ticks w |}.

(** [await fetch(url, { headers })] *)
Definition fetch {B} (ep : Endpoint) (oracle : Request -> FetchResult B)
    (req : Request) : M Net (Response B) :=
  fun w =>
    match oracle req with
    | FetchRejected e => (Thrown (plain e), log_request ep req w)
    | FetchResolved r => (Returned r, log_request ep req w)
    end.

Definition json_rejects : JsError := OtherError "SyntaxError" "Unexpected token".

(** [await response.json()] *)
Definition response_json {S B} (r : Response B) : M S B :=
  match json r with
  | Some b => ret b
  | None => throw (plain json_rejects)
  end.

Definition authorization (accessToken : option string) : option string :=
  match accessToken with
  | Some t => if Js.truthy t then Some ("token " +:+ t) else None
  | None => None
  end.

(** ** lib/gitea-api.ts: fetchPaged *)

(** The URL object built at the top of each iteration of [fetchPaged]. *)
Definition pagedUrl (url : string) (accessToken : option string) (page : nat) : URL :=
  let apiUrl := URL_new url in
  let apiUrl := searchParams_set "limit" (pretty PER_PAGE) apiUrl in
  let apiUrl := searchParams_set "page" (pretty page) apiUrl in
  match accessToken with
  | Some t => if Js.truthy t then searchParams_set "token" t apiUrl else apiUrl
  | None => apiUrl
  end.

Definition pagedRequest (url : string) (accessToken : option string) (page : nat) : Request :=
  {| req_url := URL_toString (pagedUrl url accessToken page);
     req_authorization := authorization accessToken |}.

Definition apiErrorMessage {B} (response : Response B) : string :=
  let message := text response in
  "Gitea API error (" +:+ pretty (status response) +:+ "): "
    +:+ (if Js.truthy message then message else statusText response).

Fixpoint fetchPaged_loop {T} (ep : Endpoint) (oracle : Request -> FetchResult (JsonArray T))
    (fuel : nat) (url : string) (accessToken : option string)
    (items : list T) (page : nat) : M Net (list T) :=
  match fuel with
  | O => out_of_fuel
  | S fuel' =>
      let apiUrl := pagedUrl url accessToken page in
      response <- fetch ep oracle (pagedRequest url accessToken page) ;;
      if negb (ok response) then
        throw (plain (GiteaApiError (status response) (apiErrorMessage response)
                        (Some (URL_toString apiUrl))))
      else
        data <- response_json response ;;
        match data with
        | NotArray => ret items
        | IsArray [] => ret items
        | IsArray d =>
            let items := items ++ d in
            if (length d <? PER_PAGE)%nat then ret items
            else fetchPaged_loop ep oracle fuel' url accessToken items (page + 1)
        end
  end.

Definition fetchPaged {T} (ep : Endpoint) (oracle : Request -> FetchResult (JsonArray T))
    (fuel : nat) (url : string) (accessToken : option string) : M Net (list T) :=
  fetchPaged_loop ep oracle fuel url accessToken [] 1.

(** ** The platform

    What the JavaScript runtime provides and the code only calls:
    [new URL(s).pathname], the clock, [encodeURIComponent], [Number] on a
    stored string, and JSON serialisation of the two cached payloads. *)

(** [PullInboxCachePayload] *)
Record PullInboxCachePayload := mkPayload {
  payload_created : list GiteaPullRequest;
  payload_reviewRequested : list GiteaPullRequest;
  payload_statusById : option (gmap Z string);
}.

Class Platform := mkPlatform {
  (** [new URL(href).pathname] and [new URL(href).protocol]; [None] when
      [new URL] throws. *)
  URL_pathname : string -> option string;
  URL_protocol : string -> option string;
  (** The value of the n-th reading of the clock ([Date.now()],
      [new Date()]), in epoch milliseconds. *)
  clock : nat -> Z;
  encodeURIComponent : string -> string;
  (** [Number(s)]; [None] is NaN. *)
  Number_of_string : string -> option Z;
  (** [JSON.stringify] and [JSON.parse] followed by the shape test the
      loaders make on the result; [None] when parsing throws or the shape
      test fails. *)
  stringify_inbox : PullInboxCachePayload -> string;
  parse_inbox : string -> option PullInboxCachePayload;
  stringify_repos : list GiteaRepo -> string;
  parse_repos : string -> option (list GiteaRepo);
}.

(** [isValidBaseUrl] of lib/gitea.ts *)
Definition isValidBaseUrl `{Platform} (baseUrl : option string) : bool :=
  match baseUrl with
  | Some baseUrl =>
      if Js.truthy baseUrl then
        match URL_protocol baseUrl with
        | Some protocol => String.eqb protocol "http:" || String.eqb protocol "https:"
        | None => false
        end
      else false
  | None => false
  end.

(** [Date.now()] *)
Definition Date_now `{Platform} : M Net Z :=
  fun w => (Returned (clock (ticks w)), {| requests := requests w; ticks := S (ticks w) |}).

Section Api.
Context `{server : Server}.

(** *** fetchCurrentUser *)

Definition fetchCurrentUser (baseUrl accessToken : string)
  : M Net (option GiteaAuthenticatedUser) :=
  try_catch
    (response <- fetch EpUser srv_user
                   {| req_url := normalizeBaseUrl baseUrl +:+ "/api/v1/user";
                      req_authorization := Some ("token " +:+ accessToken) |} ;;
     if negb (ok response) then ret None
     else
       data <- response_json response ;;
       ret (Some data))
    (fun _ => ret None).

(** *** fetchAllRepos

    The two locals the loops mutate, [repos] and [seenIds], are part of the
    state, so that what was pushed before an exception is still there in
    the [catch]. *)

Record ReposState := mkReposState {
  repos : list GiteaRepo;
  seenIds : gset Z;
  repos_net : Net;
}.

Definition net_call {A} (m : M Net A) : M ReposState A :=
  lift repos_net
       (fun w st => {| repos := repos st; seenIds := seenIds st; repos_net := w |}) m.

(** [if (!seenIds.has(repo.id)) { seenIds.add(repo.id); repos.push(repo); }] *)
Definition pushRepo (st : ReposState) (repo : GiteaRepo) : ReposState :=
  if decide (repo_id repo ∈ seenIds st) then st
  else {| repos := repos st ++ [repo];
          seenIds := {[repo_id repo]} ∪ seenIds st;
          repos_net := repos_net st |}.

(** [for (const repo of data) { ... }] *)
Definition pushRepos (data : list GiteaRepo) : M ReposState unit :=
  modify (fun st => foldl pushRepo st data).

Definition reposLength : M ReposState nat :=
  st <- get ;; ret (length (repos st)).

Definition listUrl (endpoint : string) (page : nat) : URL :=
  searchParams_set "page" (pretty page)
    (searchParams_set "limit" (pretty PER_PAGE) (URL_new endpoint)).

Definition array_or_empty {T} (a : JsonArray T) : list T :=
  match a with
  | IsArray d => d
  | NotArray => []
  end.

(** The first loop: [GET /repos/search]. *)
Fixpoint searchLoop (fuel : nat) (baseUrl : string) (accessToken : option string)
    (page prevCount : nat) : M ReposState unit :=
  match fuel with
  | O => out_of_fuel
  | S fuel' =>
      let url := listUrl (normalizeBaseUrl baseUrl +:+ "/api/v1/repos/search") page in
      response <- net_call (fetch EpSearch srv_search
                              {| req_url := URL_toString url;
                                 req_authorization := authorization accessToken |}) ;;
      if negb (ok response) then
        throw (plain (OtherError "Error" (apiErrorMessage response)))
      else
        json <- response_json response ;;
        let data := array_or_empty (search_data json) in
        let totalCount := total_count json in
        pushRepos data ;;;
        count <- reposLength ;;
        if (length data =? 0)%nat then ret tt
        else if match totalCount with
                | Some t => (t <=? Z.of_nat count)%Z
                | None => false
                end then ret tt
        else if (count =? prevCount)%nat then ret tt
        else searchLoop fuel' baseUrl accessToken (page + 1) count
  end.

(** The loop shared, up to the URL, by [GET /user/repos] and
    [GET /orgs/{org}/repos]. *)
Fixpoint reposLoop (fuel : nat) (endpoint accessToken : string) (page : nat)
  : M ReposState unit :=
  match fuel with
  | O => out_of_fuel
  | S fuel' =>
      let url := listUrl endpoint page in
      response <- net_call (fetch EpRepos srv_repos
                              {| req_url := URL_toString url;
                                 req_authorization := Some ("token " +:+ accessToken) |}) ;;
      if negb (ok response) then ret tt
      else
        data <- response_json response ;;
        match data with
        | NotArray => ret tt
        | IsArray [] => ret tt
        | IsArray d =>
            beforeCount <- reposLength ;;
            pushRepos d ;;;
            count <- reposLength ;;
            if (count =? beforeCount)%nat then ret tt
            else reposLoop fuel' endpoint accessToken (page + 1)
        end
  end.

(** The loop over [GET /orgs]. *)
Fixpoint orgsLoop (fuel : nat) (baseUrl accessToken : string)
    (allOrgs : list GiteaOrg) (orgPage : nat) : M ReposState (list GiteaOrg) :=
  match fuel with
  | O => out_of_fuel
  | S fuel' =>
      orgsResponse <-
        net_call (fetch EpOrgs srv_orgs
                    {| req_url := normalizeBaseUrl baseUrl +:+ "/api/v1/orgs?limit="
                                    +:+ pretty PER_PAGE +:+ "&page=" +:+ pretty orgPage;
                       req_authorization := Some ("token " +:+ accessToken) |}) ;;
      if negb (ok orgsResponse) then ret allOrgs
      else
        orgs <- response_json orgsResponse ;;
        match orgs with
        | NotArray => ret allOrgs
        | IsArray [] => ret allOrgs
        | IsArray os =>
            let allOrgs := allOrgs ++ os in
            if (length os <? PER_PAGE)%nat then ret allOrgs
            else orgsLoop fuel' baseUrl accessToken allOrgs (orgPage + 1)
        end
  end.

(** [for (const org of allOrgs) { ... }] *)
Fixpoint orgReposLoops (fuel : nat) (baseUrl accessToken : string)
    (allOrgs : list GiteaOrg) : M ReposState unit :=
  match allOrgs with
  | [] => ret tt
  | org :: rest =>
      match Js.or_else (org_username org) (org_name org) with
      | Some orgName =>
          if Js.truthy orgName then
            reposLoop fuel
              (normalizeBaseUrl baseUrl +:+ "/api/v1/orgs/" +:+ orgName +:+ "/repos")
              accessToken 1 ;;;
            orgReposLoops fuel baseUrl accessToken rest
          else orgReposLoops fuel baseUrl accessToken rest
      | None => orgReposLoops fuel baseUrl accessToken rest
      end
  end.

Definition fetchAllRepos_body (fuel : nat) (baseUrl : string)
    (accessToken : option string) : M ReposState (list GiteaRepo) :=
  searchLoop fuel baseUrl accessToken 1 0 ;;;
  match accessToken with
  | Some token =>
      if Js.truthy token then
        reposLoop fuel (normalizeBaseUrl baseUrl +:+ "/api/v1/user/repos") token 1 ;;;
        try_catch
          (allOrgs <- orgsLoop fuel baseUrl token [] 1 ;;
           orgReposLoops fuel baseUrl token allOrgs)
          (fun _ => ret tt) ;;;
        st <- get ;; ret (repos st)
      else st <- get ;; ret (repos st)
  | None => st <- get ;; ret (repos st)
  end.

Definition fetchAllRepos (fuel : nat) (baseUrl : string)
    (accessToken : option string) : M Net (list GiteaRepo) :=
  fun w =>
    let '(r, st) :=
      fetchAllRepos_body fuel baseUrl accessToken
        {| repos := []; seenIds := ∅; repos_net := w |} in
    (r, repos_net st).

(** *** fetchCommitStatus *)

Definition fetchCommitStatus (baseUrl owner name sha : string)
    (accessToken : option string) : M Net (option string) :=
  let statusUrl := normalizeBaseUrl baseUrl +:+ "/api/v1/repos/" +:+ owner +:+ "/"
                     +:+ name +:+ "/commits/" +:+ sha +:+ "/status" in
  response <- fetch EpStatus srv_status
                {| req_url := statusUrl; req_authorization := authorization accessToken |} ;;
  if negb (ok response) then
    throw (plain (GiteaApiError (status response) (apiErrorMessage response)
                    (Some statusUrl)))
  else
    payload <- response_json response ;;
    ret (state payload).

End Api.

(** ** gitea-pull-requests.tsx: the pull-request inbox *)

(** A result of [Promise.allSettled]. *)
Inductive Settled (A : Type) :=
| Fulfilled (value : A)
| Rejected (reason : Exn).
Arguments Fulfilled {A} value.
Arguments Rejected {A} reason.

Definition settle {S A} (m : M S A) : M S (Settled A) :=
  fun s =>
    match m s with
    | (Returned a, s') => (Returned (Fulfilled a), s')
    | (Thrown e, s') => (Returned (Rejected e), s')
    | (OutOfFuel, s') => (OutOfFuel, s')
    end.

(** [await Promise.allSettled([m1, m2])] *)
Definition allSettled2 {S A B} (m1 : M S A) (m2 : M S B) : M S (Settled A * Settled B) :=
  a <- settle m1 ;;
  b <- settle m2 ;;
  ret (a, b).

(** [mapWithConcurrency]: [results[idx] = await fn(items[idx], idx)] for every
    index.  The workers are run as one, which takes the indices in order;
    [concurrency] then plays no role. *)
Fixpoint mapWithConcurrency_from {S T R} (items : list T) (fn : T -> nat -> M S R)
    (idx : nat) : M S (list R) :=
  match items with
  | [] => ret []
  | item :: rest =>
      r <- fn item idx ;;
      rs <- mapWithConcurrency_from rest fn (idx + 1) ;;
      ret (r :: rs)
  end.

Definition mapWithConcurrency {S T R} (items : list T) (concurrency : nat)
    (fn : T -> nat -> M S R) : M S (list R) :=
  mapWithConcurrency_from items fn 0.

(** [const [owner, name] = full.split("/"); if (!owner || !name) ...]:
    the two names when both are non-empty. *)
Definition ownerAndName (full : string) : option (string * string) :=
  let parts := Js.split "/"%char full in
  match parts !! 0%nat, parts !! 1%nat with
  | Some owner, Some name =>
      if Js.truthy owner && Js.truthy name then Some (owner, name) else None
  | _, _ => None
  end.

(** [pr.user?.login === login] *)
Definition authoredBy (userLogin : string) (pr : GiteaPullRequest) : bool :=
  match pr_user pr with
  | Some u => String.eqb (login u) userLogin
  | None => false
  end.

(** [pr.requested_reviewers?.some((r) => r.login === login)] *)
Definition reviewRequestedFrom (userLogin : string) (pr : GiteaPullRequest) : bool :=
  match pr_requested_reviewers pr with
  | Some rs => existsb (fun r => String.eqb (login r) userLogin) rs
  | None => false
  end.

Record Partition := mkPartition {
  part_created : list GiteaPullRequest;
  part_reviewRequested : list GiteaPullRequest;
}.

Definition emptyPartition : Partition :=
  {| part_created := []; part_reviewRequested := [] |}.

Record InboxResult := mkInboxResult {
  created : list GiteaPullRequest;
  reviewRequested : list GiteaPullRequest;
  debug : PullInboxDebug;
}.

(** Assignments to the fields of [dbg]. *)
Definition dbg_mode (used fallback : bool) (d : PullInboxDebug) : PullInboxDebug :=
  mkDebug (startedAt d) (finishedAt d) (dbg_baseUrl d) (Some used) (Some fallback)
    (dbg_createdUrl d) (dbg_reviewRequestedUrl d) (createdCount d)
    (reviewRequestedCount d) (dbg_currentUser d) (repoCount d) (dbg_perRepoFailures d)
    (errors d).

Definition dbg_push_error (stage : string) (e : DebugError) (d : PullInboxDebug)
  : PullInboxDebug :=
  mkDebug (startedAt d) (finishedAt d) (dbg_baseUrl d) (usedGlobalEndpoints d)
    (fallbackUsed d) (dbg_createdUrl d) (dbg_reviewRequestedUrl d) (createdCount d)
    (reviewRequestedCount d) (dbg_currentUser d) (repoCount d) (dbg_perRepoFailures d)
    (errors d ++ [(stage, e)]).

Definition dbg_counts (c r : nat) (d : PullInboxDebug) : PullInboxDebug :=
  mkDebug (startedAt d) (finishedAt d) (dbg_baseUrl d) (usedGlobalEndpoints d)
    (fallbackUsed d) (dbg_createdUrl d) (dbg_reviewRequestedUrl d) (Some c) (Some r)
    (dbg_currentUser d) (repoCount d) (dbg_perRepoFailures d) (errors d).

Definition dbg_finished (t : Z) (d : PullInboxDebug) : PullInboxDebug :=
  mkDebug (startedAt d) (Some t) (dbg_baseUrl d) (usedGlobalEndpoints d)
    (fallbackUsed d) (dbg_createdUrl d) (dbg_reviewRequestedUrl d) (createdCount d)
    (reviewRequestedCount d) (dbg_currentUser d) (repoCount d) (dbg_perRepoFailures d)
    (errors d).

Definition dbg_user (l : string) (d : PullInboxDebug) : PullInboxDebug :=
  mkDebug (startedAt d) (finishedAt d) (dbg_baseUrl d) (usedGlobalEndpoints d)
    (fallbackUsed d) (dbg_createdUrl d) (dbg_reviewRequestedUrl d) (createdCount d)
    (reviewRequestedCount d) (Some l) (repoCount d) (dbg_perRepoFailures d) (errors d).

Definition dbg_repoCount (n : nat) (d : PullInboxDebug) : PullInboxDebug :=
  mkDebug (startedAt d) (finishedAt d) (dbg_baseUrl d) (usedGlobalEndpoints d)
    (fallbackUsed d) (dbg_createdUrl d) (dbg_reviewRequestedUrl d) (createdCount d)
    (reviewRequestedCount d) (dbg_currentUser d) (Some n) (dbg_perRepoFailures d)
    (errors d).

Definition dbg_failures (n : nat) (d : PullInboxDebug) : PullInboxDebug :=
  mkDebug (startedAt d) (finishedAt d) (dbg_baseUrl d) (usedGlobalEndpoints d)
    (fallbackUsed d) (dbg_createdUrl d) (dbg_reviewRequestedUrl d) (createdCount d)
    (reviewRequestedCount d) (dbg_currentUser d) (repoCount d) (Some n) (errors d).

(** [dbg.errors.push({ stage, ...toDebugError(result.reason) })] when the
    result is rejected. *)
Definition dbg_push_rejected {A} (stage : string) (r : Settled A) (d : PullInboxDebug)
  : PullInboxDebug :=
  match r with
  | Rejected reason => dbg_push_error stage (toDebugError (exn_error reason)) d
  | Fulfilled _ => d
  end.

(** [Object.assign(err, { __debug: dbg })] *)
Definition with_debug (e : Exn) (d : PullInboxDebug) : Exn :=
  {| exn_error := exn_error e; exn_debug := Some d |}.

(** [result.status === "rejected" && result.reason instanceof GiteaApiError
     && result.reason.status === 404] *)
Definition is404 {A} (r : Settled A) : bool :=
  match r with
  | Rejected reason =>
      match exn_error reason with
      | GiteaApiError st _ _ => (st =? 404)%Z
      | OtherError _ _ => false
      end
  | Fulfilled _ => false
  end.

Definition any404 {A B} (createdResult : Settled A) (reviewResult : Settled B) : bool :=
  is404 createdResult || is404 reviewResult.

Section Inbox.
Context `{P : Platform} `{server : Server}.

(** The state of the repository scan: the closure variable
    [perRepoFailures] and the network. *)
Record ScanState := mkScanState {
  perRepoFailures : nat;
  scan_net : Net;
}.

Definition scan_call {A} (m : M Net A) : M ScanState A :=
  lift scan_net
       (fun w st => {| perRepoFailures := perRepoFailures st; scan_net := w |}) m.

Definition pullsUrl (apiBase owner name : string) : string :=
  apiBase +:+ "/api/v1/repos/" +:+ owner +:+ "/" +:+ name +:+ "/pulls?state=open".

(** The function handed to [mapWithConcurrency]. *)
Definition scanRepo (fuel : nat) (apiBase accessToken : string)
    (currentUser : GiteaAuthenticatedUser) (repo : GiteaRepo) (idx : nat)
  : M ScanState Partition :=
  match ownerAndName (full_name repo) with
  | None => ret emptyPartition
  | Some (owner, name) =>
      try_catch
        (pulls <- scan_call (fetchPaged EpPulls srv_pulls fuel
                               (pullsUrl apiBase owner name) (Some accessToken)) ;;
         ret {| part_created := List.filter (authoredBy (user_login currentUser)) pulls;
                part_reviewRequested :=
                  List.filter (reviewRequestedFrom (user_login currentUser)) pulls |})
        (fun err =>
           modify (fun st => {| perRepoFailures := perRepoFailures st + 1;
                                scan_net := scan_net st |}) ;;;
           ret emptyPartition)
  end.

(** [mapWithConcurrency(repos, 6, ...)] together with the final value of
    [perRepoFailures], which starts at 0. *)
Definition scanRepos (fuel : nat) (apiBase accessToken : string)
    (currentUser : GiteaAuthenticatedUser) (repos : list GiteaRepo)
  : M Net (list Partition * nat) :=
  fun w =>
    let '(r, st) :=
      mapWithConcurrency repos 6 (scanRepo fuel apiBase accessToken currentUser)
        {| perRepoFailures := 0; scan_net := w |} in
    (match r with
     | Returned perRepo => Returned (perRepo, perRepoFailures st)
     | Thrown e => Thrown e
     | OutOfFuel => OutOfFuel
     end, scan_net st).

(** The part of [fetchPullRequestInbox] under the comment
    "Prefer global endpoints when supported": the body of [if (!any404)]. *)
Definition globalInbox (dbg : PullInboxDebug)
    (createdResult reviewResult : Settled (list GiteaPullRequest)) : M Net InboxResult :=
  let dbg := dbg_mode true false dbg in
  match createdResult with
  | Rejected reason =>
      let dbg := dbg_push_error "global_created" (toDebugError (exn_error reason)) dbg in
      throw (with_debug reason dbg)
  | Fulfilled createdValue =>
      match reviewResult with
      | Rejected reason =>
          let dbg := dbg_push_error "global_review_requested"
                       (toDebugError (exn_error reason)) dbg in
          throw (with_debug reason dbg)
      | Fulfilled reviewValue =>
          let dbg := dbg_counts (length createdValue) (length reviewValue) dbg in
          finished <- Date_now ;;
          let dbg := dbg_finished finished dbg in
          ret {| created := createdValue; reviewRequested := reviewValue; debug := dbg |}
      end
  end.

Definition current_user_error : DebugError :=
  {| de_type := "Error"; de_status := None;
     de_message := "Could not determine current user."; de_url := None |}.

(** The part of [fetchPullRequestInbox] under the comment
    "Fallback: scan visible repos and split by author / requested
    reviewers". *)
Definition fallbackInbox (fuel : nat) (baseUrl accessToken : string)
    (dbg : PullInboxDebug)
    (createdResult reviewResult : Settled (list GiteaPullRequest)) : M Net InboxResult :=
  let apiBase := normalizeBaseUrl baseUrl in
  let dbg := dbg_mode false true dbg in
  let dbg := dbg_push_rejected "global_created" createdResult dbg in
  let dbg := dbg_push_rejected "global_review_requested" reviewResult dbg in
  currentUser <- fetchCurrentUser baseUrl accessToken ;;
  match currentUser with
  | None =>
      let dbg := dbg_push_error "current_user" current_user_error dbg in
      throw (with_debug
               (plain (OtherError "Error"
                         "Could not determine current user. Check your access token."))
               dbg)
  | Some currentUser =>
      let dbg := dbg_user (user_login currentUser) dbg in
      repos <- fetchAllRepos fuel baseUrl (Some accessToken) ;;
      let dbg := dbg_repoCount (length repos) dbg in
      scanned <- scanRepos fuel apiBase accessToken currentUser repos ;;
      let '(perRepo, failures) := scanned in
      let created := flat_map part_created perRepo in
      let reviewRequested := flat_map part_reviewRequested perRepo in
      let dbg := dbg_failures failures dbg in
      let dbg := dbg_counts (length created) (length reviewRequested) dbg in
      finished <- Date_now ;;
      let dbg := dbg_finished finished dbg in
      ret {| created := created; reviewRequested := reviewRequested; debug := dbg |}
  end.

(** What [fetchPullRequestInbox] does once [Promise.allSettled] has
    resolved. *)
Definition inboxFromSettled (fuel : nat) (baseUrl accessToken : string)
    (dbg : PullInboxDebug)
    (createdResult reviewResult : Settled (list GiteaPullRequest)) : M Net InboxResult :=
  if negb (any404 createdResult reviewResult)
  then globalInbox dbg createdResult reviewResult
  else fallbackInbox fuel baseUrl accessToken dbg createdResult reviewResult.

Definition createdUrl (apiBase : string) : string :=
  apiBase +:+ "/api/v1/pulls/created?state=open".

Definition reviewRequestedUrl (apiBase : string) : string :=
  apiBase +:+ "/api/v1/pulls/requested_review?state=open".

Definition initialDebug (started : Z) (apiBase : string) : PullInboxDebug :=
  {| startedAt := started; finishedAt := None; dbg_baseUrl := apiBase;
     usedGlobalEndpoints := None; fallbackUsed := None;
     dbg_createdUrl := createdUrl apiBase;
     dbg_reviewRequestedUrl := reviewRequestedUrl apiBase;
     createdCount := None; reviewRequestedCount := None; dbg_currentUser := None;
     repoCount := None; dbg_perRepoFailures := None; errors := [] |}.

(** The two global fetches, settled. *)
Definition globalFetches (fuel : nat) (apiBase accessToken : string)
  : M Net (Settled (list GiteaPullRequest) * Settled (list GiteaPullRequest)) :=
  allSettled2
    (fetchPaged EpPulls srv_pulls fuel (createdUrl apiBase) (Some accessToken))
    (fetchPaged EpPulls srv_pulls fuel (reviewRequestedUrl apiBase) (Some accessToken)).

Definition fetchPullRequestInbox (fuel : nat) (baseUrl accessToken : string)
  : M Net InboxResult :=
  let apiBase := normalizeBaseUrl baseUrl in
  started <- Date_now ;;
  let dbg := initialDebug started apiBase in
  settled <- globalFetches fuel apiBase accessToken ;;
  inboxFromSettled fuel baseUrl accessToken dbg (fst settled) (snd settled).

End Inbox.

(** ** gitea-pull-requests.tsx: check-status enrichment *)

Section Status.
Context `{P : Platform} `{server : Server}.

Definition inferRepoFullNameFromPullUrl (url : string) : option string :=
  match URL_pathname url with
  | Some pathname =>
      let parts := Js.filter_Boolean (Js.split "/"%char pathname) in
      match parts !! 0%nat, parts !! 1%nat, parts !! 2%nat with
      | Some p0, Some p1, Some p2 =>
          if (4 <=? length parts)%nat
             && (String.eqb p2 "pulls" || String.eqb p2 "pull")
          then Some (p0 +:+ "/" +:+ p1)
          else None
      | _, _, _ => None
      end
  | None => None
  end.

Definition getPullRepoFullName (pull : GiteaPullRequest) : option string :=
  Js.or_else (pr_repository_full_name pull)
    (Js.or_else (pr_base_repo_full_name pull)
       (inferRepoFullNameFromPullUrl (pr_html_url pull))).

Definition getRepoOwnerAndName (pull : GiteaPullRequest) : option (string * string) :=
  match getPullRepoFullName pull with
  | Some full => if Js.truthy full then ownerAndName full else None
  | None => None
  end.

(** The function mapped over [all] in the status effect of [Command]. *)
Definition enrichPull (baseUrl : string) (accessToken : option string)
    (pull : GiteaPullRequest) : M Net (Z * string) :=
  let sha := pr_head_sha pull in
  let repo := getRepoOwnerAndName pull in
  match sha, repo with
  | Some sha, Some (owner, name) =>
      if Js.truthy sha then
        try_catch
          (state <- fetchCommitStatus baseUrl owner name sha accessToken ;;
           ret (pr_id pull, default "unknown" state))
          (fun _ => ret (pr_id pull, "unknown"))
      else ret (pr_id pull, "unknown")
  | _, _ => ret (pr_id pull, "unknown")
  end.

(** [Promise.all(all.map(async (pull) => ...))] *)
Fixpoint enrichAll (baseUrl : string) (accessToken : option string)
    (all : list GiteaPullRequest) : M Net (list (Z * string)) :=
  match all with
  | [] => ret []
  | pull :: rest =>
      r <- enrichPull baseUrl accessToken pull ;;
      rs <- enrichAll baseUrl accessToken rest ;;
      ret (r :: rs)
  end.

(** [const next = {}; for (const r of results) next[r.id] = r.state;] *)
Definition statusMap (results : list (Z * string)) : gmap Z string :=
  foldl (fun next r => <[fst r := snd r]> next) ∅ results.

(** The value that the status effect of a mounted, configured [Command]
    hands to [setStatusById]: [{}] for an empty list, and the mapping built
    from the results otherwise.  The write of that mapping into the cached
    payload, which follows, is not modelled. *)
Definition computeStatusById (baseUrl : string) (accessToken : option string)
    (createdPulls reviewRequestedPulls : list GiteaPullRequest)
  : M Net (gmap Z string) :=
  let all := createdPulls ++ reviewRequestedPulls in
  if (length all =? 0)%nat then ret ∅
  else
    results <- enrichAll baseUrl accessToken all ;;
    ret (statusMap results).

End Status.

(** ** gitea-pull-requests.tsx: the inbox cache and its refresh *)

(** The React state of the pull-request [Command]. *)
Record View := mkView {
  createdPulls : list GiteaPullRequest;
  reviewRequestedPulls : list GiteaPullRequest;
  statusById : gmap Z string;
  isLoading : bool;
  errorMessage : option string;
  debugInfo : option PullInboxDebug;
  lastError : option Exn;
}.

(** The React state of the repository [Command] that [refreshRepos]
    touches. *)
Record RepoView := mkRepoView {
  rv_repos : list GiteaRepo;
  rv_isLoading : bool;
  rv_errorMessage : option string;
}.

Record Toast := mkToast {
  toast_title : string;
  toast_message : string;
}.

(** What a command can touch: the network, [LocalStorage] (with the keys it
    has read so far), its own state [V] and the toasts shown. *)
Record App (V : Type) := mkApp {
  app_net : Net;
  storage : gmap string string;
  storage_reads : list string;
  view : V;
  toasts : list Toast;
}.
Arguments mkApp {V}.
Arguments app_net {V}.
Arguments storage {V}.
Arguments storage_reads {V}.
Arguments view {V}.
Arguments toasts {V}.

Definition app_call {V A} (m : M Net A) : M (App V) A :=
  lift app_net (fun w a => mkApp w (storage a) (storage_reads a) (view a) (toasts a)) m.

Definition set_view {V} (f : V -> V) : M (App V) unit :=
  modify (fun a => mkApp (app_net a) (storage a) (storage_reads a) (f (view a)) (toasts a)).

Definition set_storage {V} (f : gmap string string -> gmap string string)
  : M (App V) unit :=
  modify (fun a => mkApp (app_net a) (f (storage a)) (storage_reads a) (view a) (toasts a)).

(** [LocalStorage.getItem], [setItem], [removeItem] *)
Definition getItem {V} (key : string) : M (App V) (option string) :=
  fun a =>
    (Returned (storage a !! key),
     mkApp (app_net a) (storage a) (storage_reads a ++ [key]) (view a) (toasts a)).

Definition setItem {V} (key value : string) : M (App V) unit :=
  set_storage (fun m => <[key := value]> m).

Definition removeItem {V} (key : string) : M (App V) unit :=
  set_storage (fun m => delete key m).

Definition showToast {V} (title message : string) : M (App V) unit :=
  modify (fun a => mkApp (app_net a) (storage a) (storage_reads a) (view a)
                     (toasts a ++ [{| toast_title := title; toast_message := message |}])).

(** The state setters of the pull-request command. *)
Definition setCreatedPulls (v : list GiteaPullRequest) : M (App View) unit :=
  set_view (fun s => mkView v (reviewRequestedPulls s) (statusById s) (isLoading s)
                       (errorMessage s) (debugInfo s) (lastError s)).

Definition setReviewRequestedPulls (v : list GiteaPullRequest) : M (App View) unit :=
  set_view (fun s => mkView (createdPulls s) v (statusById s) (isLoading s)
                       (errorMessage s) (debugInfo s) (lastError s)).

Definition setStatusById (v : gmap Z string) : M (App View) unit :=
  set_view (fun s => mkView (createdPulls s) (reviewRequestedPulls s) v (isLoading s)
                       (errorMessage s) (debugInfo s) (lastError s)).

Definition with_isLoading (v : bool) (s : View) : View :=
  mkView (createdPulls s) (reviewRequestedPulls s) (statusById s) v
    (errorMessage s) (debugInfo s) (lastError s).

Definition setIsLoading (v : bool) : M (App View) unit := set_view (with_isLoading v).

Definition setErrorMessage (v : option string) : M (App View) unit :=
  set_view (fun s => mkView (createdPulls s) (reviewRequestedPulls s) (statusById s)
                       (isLoading s) v (debugInfo s) (lastError s)).

Definition setDebugInfo (v : option PullInboxDebug) : M (App View) unit :=
  set_view (fun s => mkView (createdPulls s) (reviewRequestedPulls s) (statusById s)
                       (isLoading s) (errorMessage s) v (lastError s)).

Definition setLastError (v : option Exn) : M (App View) unit :=
  set_view (fun s => mkView (createdPulls s) (reviewRequestedPulls s) (statusById s)
                       (isLoading s) (errorMessage s) (debugInfo s) v).

(** The state setters of the repository command. *)
Definition setRepos (v : list GiteaRepo) : M (App RepoView) unit :=
  set_view (fun s => mkRepoView v (rv_isLoading s) (rv_errorMessage s)).

Definition rv_with_isLoading (v : bool) (s : RepoView) : RepoView :=
  mkRepoView (rv_repos s) v (rv_errorMessage s).

Definition rv_setIsLoading (v : bool) : M (App RepoView) unit :=
  set_view (rv_with_isLoading v).

Definition rv_setErrorMessage (v : option string) : M (App RepoView) unit :=
  set_view (fun s => mkRepoView (rv_repos s) (rv_isLoading s) v).

(** The expression that [refreshInbox] and [refreshRepos] both evaluate,
    [cached.timestamp && Date.now() - cached.timestamp < cacheTtlMinutes * 60_000],
    as the condition of [if (isFresh)]; [now] is the value of [Date.now()]. *)
Definition isFresh (timestamp : option Z) (now cacheTtlMinutes : Z) : bool :=
  match timestamp with
  | Some t => Js.truthy_num (Some t) && (now - t <? cacheTtlMinutes * 60000)%Z
  | None => false
  end.

Section Cache.
Context `{P : Platform} `{server : Server}.

(** The clock is read only when [cached.timestamp] is truthy. *)
Definition checkFresh {V} (timestamp : option Z) (cacheTtlMinutes : Z)
  : M (App V) bool :=
  if Js.truthy_num timestamp then
    now <- app_call Date_now ;;
    ret (isFresh timestamp now cacheTtlMinutes)
  else ret false.

Definition prCacheKey (baseUrl : string) : string :=
  "gitea-pr-inbox-cache:" +:+ encodeURIComponent baseUrl.

Definition prCacheTimeKey (baseUrl : string) : string :=
  "gitea-pr-inbox-cache-time:" +:+ encodeURIComponent baseUrl.

Record CachedInbox := mkCachedInbox {
  cached_payload : option PullInboxCachePayload;
  cached_timestamp : option Z;
}.

Definition noCachedInbox : CachedInbox :=
  {| cached_payload := None; cached_timestamp := None |}.

Definition loadCachedInbox (baseUrl : string) : M (App View) CachedInbox :=
  raw <- getItem (prCacheKey baseUrl) ;;
  rawTime <- getItem (prCacheTimeKey baseUrl) ;;
  match raw, rawTime with
  | Some raw, Some rawTime =>
      if negb (Js.truthy raw) || negb (Js.truthy rawTime) then ret noCachedInbox
      else
        match Number_of_string rawTime with
        | None => ret noCachedInbox
        | Some timestamp =>
            match parse_inbox raw with
            | Some payload =>
                ret {| cached_payload := Some payload;
                       cached_timestamp := Some timestamp |}
            | None => ret noCachedInbox
            end
        end
  | _, _ => ret noCachedInbox
  end.

Definition saveCachedInbox (baseUrl : string) (payload : PullInboxCachePayload)
  : M (App View) unit :=
  setItem (prCacheKey baseUrl) (stringify_inbox payload) ;;;
  now <- app_call Date_now ;;
  setItem (prCacheTimeKey baseUrl) (pretty now).

Definition clearCachedInbox (baseUrl : string) : M (App View) unit :=
  removeItem (prCacheKey baseUrl) ;;;
  removeItem (prCacheTimeKey baseUrl).

(** The [try] block of [refreshInbox]. *)
Definition liveFetch (fuel : nat) (baseUrl accessToken : string) : M (App View) unit :=
  result <- app_call (fetchPullRequestInbox fuel baseUrl accessToken) ;;
  setCreatedPulls (created result) ;;;
  setReviewRequestedPulls (reviewRequested result) ;;;
  setDebugInfo (Some (debug result)) ;;;
  saveCachedInbox baseUrl
    {| payload_created := created result;
       payload_reviewRequested := reviewRequested result;
       payload_statusById := None |}.

(** The [catch] block of [refreshInbox]. *)
Definition liveFetchFailed (error : Exn) : M (App View) unit :=
  let message := error_message (exn_error error) in
  setErrorMessage (Some message) ;;;
  setLastError (Some error) ;;;
  match exn_debug error with
  | Some maybeDebug => setDebugInfo (Some maybeDebug)
  | None => ret tt
  end ;;;
  showToast "Gitea error" message.

(** The [if (!force) { ... }] block of [refreshInbox]: whether a cached
    payload was shown ([hasCached]) and whether it is fresh. *)
Definition showCachedInbox (baseUrl : string) (cacheTtlMinutes : Z)
  : M (App View) (bool * bool) :=
  cached <- loadCachedInbox baseUrl ;;
  match cached_payload cached with
  | Some payload =>
      setCreatedPulls (payload_created payload) ;;;
      setReviewRequestedPulls (payload_reviewRequested payload) ;;;
      match payload_statusById payload with
      | Some m => setStatusById m
      | None => ret tt
      end ;;;
      fresh <- checkFresh (cached_timestamp cached) cacheTtlMinutes ;;
      ret (true, fresh)
  | None => ret (false, false)
  end.

Definition refreshInbox (fuel : nat) (baseUrl accessToken : option string)
    (cacheTtlMinutes : Z) (force : bool) : M (App View) unit :=
  match baseUrl, accessToken with
  | Some baseUrl, Some accessToken =>
      if negb (Js.truthy baseUrl) || negb (Js.truthy accessToken)
      then setIsLoading false
      else
        setErrorMessage None ;;;
        setDebugInfo None ;;;
        setLastError None ;;;
        cacheStep <-
          (if negb force then showCachedInbox baseUrl cacheTtlMinutes
           else ret (false, false)) ;;
        let '(hasCached, fresh) := cacheStep in
        if fresh then setIsLoading false
        else
          setIsLoading (negb hasCached) ;;;
          try_finally
            (try_catch (liveFetch fuel baseUrl accessToken) liveFetchFailed)
            (fun a => mkApp (app_net a) (storage a) (storage_reads a)
                        (with_isLoading false (view a)) (toasts a))
  | _, _ => setIsLoading false
  end.

(** [Command] renders the list, whose items carry the action
    [Refresh Pull Requests] that calls [refreshInbox(true)], only past
    [if (!hasValidBaseUrl || !hasAccessToken) return <GiteaSetupForm ... />]. *)
Definition rendersList (baseUrl accessToken : option string) : bool :=
  let hasValidBaseUrl := isValidBaseUrl baseUrl in
  let hasAccessToken := Js.truthy_opt accessToken in
  negb (negb hasValidBaseUrl || negb hasAccessToken).

(** *** The repository command: [loadCachedRepos], [saveCachedRepos],
    [refreshRepos] *)

Definition CACHE_KEY : string := "gitea-repos-cache".
Definition CACHE_TIME_KEY : string := "gitea-repos-cache-time".

Definition loadCachedRepos : M (App RepoView) (option (list GiteaRepo) * option Z) :=
  rawRepos <- getItem CACHE_KEY ;;
  rawTime <- getItem CACHE_TIME_KEY ;;
  match rawRepos, rawTime with
  | Some rawRepos, Some rawTime =>
      if negb (Js.truthy rawRepos) || negb (Js.truthy rawTime) then ret (None, None)
      else
        match parse_repos rawRepos, Number_of_string rawTime with
        | Some rs, Some timestamp => ret (Some rs, Some timestamp)
        | _, _ => ret (None, None)
        end
  | _, _ => ret (None, None)
  end.

Definition saveCachedRepos (rs : list GiteaRepo) : M (App RepoView) unit :=
  setItem CACHE_KEY (stringify_repos rs) ;;;
  now <- app_call Date_now ;;
  setItem CACHE_TIME_KEY (pretty now).

Definition refreshRepos (fuel : nat) (baseUrl accessToken : option string)
    (cacheTtlMinutes : Z) (force : bool) : M (App RepoView) unit :=
  match baseUrl with
  | Some baseUrl =>
      if negb (Js.truthy baseUrl) then rv_setIsLoading false
      else
        rv_setIsLoading true ;;;
        rv_setErrorMessage None ;;;
        fresh <-
          (if negb force then
             cached <- loadCachedRepos ;;
             match fst cached with
             | Some rs =>
                 setRepos rs ;;;
                 checkFresh (snd cached) cacheTtlMinutes
             | None => ret false
             end
           else ret false) ;;
        if fresh then rv_setIsLoading false
        else
          try_finally
            (try_catch
               (fetched <- app_call (fetchAllRepos fuel baseUrl accessToken) ;;
                setRepos fetched ;;;
                saveCachedRepos fetched)
               (fun error =>
                  let message := error_message (exn_error error) in
                  rv_setErrorMessage (Some message) ;;;
                  showToast "Gitea error" message))
            (fun a => mkApp (app_net a) (storage a) (storage_reads a)
                        (rv_with_isLoading false (view a)) (toasts a))
  | None => rv_setIsLoading false
  end.

End Cache.

(** * More of the code

    The helpers of [lib/gitea.ts] that are not modelled above, the stored
    settings of [lib/gitea-settings.ts], and what the two commands compute for
    display. *)

(** ** Strings whose length matters

    [truncate] and [redactToken] compare and cut by [length], which counts
    UTF-16 code units, and append the one-unit string ["…"]; for them a string
    is the list of its code units. *)

Definition JsString : Type := list N.

(** The code units of an ASCII literal. *)
Definition units (s : string) : JsString :=
  (fun c => N_of_ascii c) <$> String.list_ascii_of_string s.

Definition ellipsis : JsString := [8230%N].

(** The position that [slice] makes of an integer argument: counted from the
    end when negative, and clamped to the string. *)
Definition slice_index (len : nat) (i : Z) : nat :=
  if (i <? 0)%Z then Z.to_nat (Z.max (Z.of_nat len + i) 0)
  else Nat.min (Z.to_nat i) len.

(** [s.slice(start, end)] and, with [None], [s.slice(start)] *)
Definition slice (s : JsString) (start : Z) (end_ : option Z) : JsString :=
  let from := slice_index (length s) start in
  let to := match end_ with
            | Some e => slice_index (length s) e
            | None => length s
            end in
  take (to - from) (drop from s).

(** [truncate] of lib/gitea.ts; the callers that leave [maxLength] out get
    120. *)
Definition truncate (text : JsString) (maxLength : Z) : JsString :=
  if (Z.of_nat (length text) <=? maxLength)%Z then text
  else slice text 0 (Some (maxLength - 1)%Z) ++ ellipsis.

(** [redactToken] of gitea-pull-requests.tsx *)
Definition redactToken (token : option JsString) : JsString :=
  match token with
  | None => units "(empty)"
  | Some [] => units "(empty)"
  | Some token =>
      if (length token <=? 8)%nat then units "********"
      else slice token 0 (Some 4%Z) ++ ellipsis ++ slice token (-4) None
  end.

(** ** lib/gitea.ts: buildRepoUrl *)

(** [suffix.replace(/^\/+/, "")] *)
Fixpoint stripLeadingSlashes (s : string) : string :=
  match s with
  | EmptyString => EmptyString
  | String c rest => if Ascii.eqb c "/"%char then stripLeadingSlashes rest else s
  end.

(** [buildRepoUrl]; [repoUrl.replace(/\/+$/, "")] is the replacement that
    [normalizeBaseUrl] makes. *)
Definition buildRepoUrl (baseUrl : string) (repo : GiteaRepo) (suffix : option string)
  : string :=
  let repoUrl := if Js.truthy (repo_html_url repo) then repo_html_url repo
                 else baseUrl +:+ "/" +:+ full_name repo in
  match suffix with
  | Some suffix =>
      if Js.truthy suffix
      then normalizeBaseUrl repoUrl +:+ "/" +:+ stripLeadingSlashes suffix
      else repoUrl
  | None => repoUrl
  end.

(** ** What else the runtime provides *)

Class Runtime := mkRuntime {
  (** [String.prototype.trim] *)
  trim : string -> string;
  (** [Date.parse]; [None] is NaN. *)
  Date_parse : string -> option Z;
  (** [a.localeCompare(b)] *)
  localeCompare : string -> string -> Z;
  (** [JSON.stringify] of the usage record *)
  stringify_usage : gmap string Z -> string;
}.

(** [haystack.includes(needle)] *)
Definition includes (haystack needle : string) : bool :=
  match String.index 0 needle haystack with
  | Some _ => true
  | None => false
  end.

(** [Array.prototype.sort(cmp)]: the sort is stable, so for a comparator that
    orders consistently the result is the one of this insertion sort, which
    puts an element before the elements it does not compare greater than. *)
Fixpoint sort_insert {A} (cmp : A -> A -> Z) (x : A) (l : list A) : list A :=
  match l with
  | [] => [x]
  | y :: rest =>
      if (cmp x y <=? 0)%Z then x :: y :: rest else y :: sort_insert cmp x rest
  end.

Definition Array_sort {A} (cmp : A -> A -> Z) (l : list A) : list A :=
  foldr (sort_insert cmp) [] l.

(** ** lib/gitea-settings.ts *)

Definition BASE_URL_KEY : string := "gitea-base-url".
Definition ACCESS_TOKEN_KEY : string := "gitea-access-token".

(** [StoredGiteaSettings] *)
Record StoredGiteaSettings := mkStoredSettings {
  stored_baseUrl : option string;
  stored_accessToken : option string;
}.

Section Settings.
Context `{R : Runtime}.

(** The stored values are strings, so [typeof value === "string"] holds of
    every value found. *)
Definition loadStoredGiteaSettings {V} : M (App V) StoredGiteaSettings :=
  baseUrl <- getItem BASE_URL_KEY ;;
  accessToken <- getItem ACCESS_TOKEN_KEY ;;
  ret {| stored_baseUrl := baseUrl; stored_accessToken := accessToken |}.

Definition saveStoredGiteaSettings {V} (next : StoredGiteaSettings) : M (App V) unit :=
  let baseUrl := default "" (trim <$> stored_baseUrl next) in
  let accessToken := default "" (trim <$> stored_accessToken next) in
  setItem BASE_URL_KEY baseUrl ;;;
  setItem ACCESS_TOKEN_KEY accessToken.

Definition clearStoredGiteaSettings {V} : M (App V) unit :=
  removeItem BASE_URL_KEY ;;;
  removeItem ACCESS_TOKEN_KEY.

End Settings.

(** ** gitea-pull-requests.tsx: the two lists on display *)

Section Display.
Context `{P : Platform} `{R : Runtime}.

Definition sortByUpdatedAtDesc (a b : GiteaPullRequest) : Z :=
  match Date_parse (pr_updated_at a), Date_parse (pr_updated_at b) with
  | None, None => 0
  | None, Some _ => 1
  | Some _, None => (-1)
  | Some at_, Some bt => bt - at_
  end%Z.

(** [matches] of the [useMemo] of [Command], for the search text on
    display. *)
Definition matches (searchText : string) (pr : GiteaPullRequest) : bool :=
  let query := toLowerCase (trim searchText) in
  if negb (Js.truthy query) then true
  else
    let repoFullName := default "" (getPullRepoFullName pr) in
    let haystack :=
      toLowerCase (repoFullName +:+ " " +:+ pr_title pr +:+ " " +:+ pretty (pr_number pr)
                     +:+ " " +:+ match pr_user pr with
                                 | Some u => login u
                                 | None => ""
                                 end) in
    includes haystack query.

(** [createdFiltered] and [reviewRequestedFiltered]: the same expression on
    each of the two lists. *)
Definition filteredPulls (searchText : string) (pulls : list GiteaPullRequest)
  : list GiteaPullRequest :=
  Array_sort sortByUpdatedAtDesc (List.filter (matches searchText) pulls).

End Display.

(** ** The repository command: the two sections on display *)

Section RepoDisplay.
Context `{R : Runtime}.

(** [usage[String(repo.id)]] *)
Definition usageOf (usage : gmap string Z) (repo : GiteaRepo) : option Z :=
  usage !! pretty (repo_id repo).

Definition filteredRepos (searchText : string) (rs : list GiteaRepo) : list GiteaRepo :=
  let query := toLowerCase (trim searchText) in
  if Js.truthy query then
    List.filter
      (fun repo =>
         includes (toLowerCase (full_name repo +:+ " "
                                  +:+ default "" (repo_description repo))) query)
      rs
  else rs.

Definition reposWithUsage (usage : gmap string Z) (filtered : list GiteaRepo)
  : list GiteaRepo :=
  Array_sort
    (fun a b => (default 0 (usageOf usage b) - default 0 (usageOf usage a))%Z)
    (List.filter (fun repo => Js.truthy_num (usageOf usage repo)) filtered).

(** [reposWithUsage.slice(0, 4)] *)
Definition recentRepos (usage : gmap string Z) (filtered : list GiteaRepo)
  : list GiteaRepo :=
  take 4 (reposWithUsage usage filtered).

Definition otherRepos (usage : gmap string Z) (filtered : list GiteaRepo)
  : list GiteaRepo :=
  let recentIds : gset Z := list_to_set (repo_id <$> recentRepos usage filtered) in
  Array_sort (fun a b => localeCompare (full_name a) (full_name b))
    (List.filter (fun repo => negb (bool_decide (repo_id repo ∈ recentIds))) filtered).

End RepoDisplay.

(** ** The repository command: clearing the cache, recording usage *)

Definition USAGE_KEY : string := "gitea-repos-usage".

Section RepoCommand.
Context `{P : Platform} `{R : Runtime} `{server : Server}.

Definition clearCache : M (App RepoView) unit :=
  removeItem CACHE_KEY ;;;
  removeItem CACHE_TIME_KEY.

Definition saveUsage (usage : gmap string Z) : M (App RepoView) unit :=
  setItem USAGE_KEY (stringify_usage usage).

(** [handleClearCache]; its toast has a title only, which the record of a
    toast holds with the empty message.  The refresh it starts is run to its
    end. *)
Definition handleClearCache (fuel : nat) (baseUrl accessToken : option string)
    (cacheTtlMinutes : Z) : M (App RepoView) unit :=
  clearCache ;;;
  showToast "Cache cleared" "" ;;;
  refreshRepos fuel baseUrl accessToken cacheTtlMinutes true.

(** [handleRecordUsage], for the [usage] of the render that made the
    handler; the result is the record handed to [setUsage]. *)
Definition handleRecordUsage (usage : gmap string Z) (repoId : Z)
  : M (App RepoView) (gmap string Z) :=
  let key := pretty repoId in
  now <- app_call Date_now ;;
  let next := <[key := now]> usage in
  saveUsage next ;;;
  ret next.

End RepoCommand.

(** * The vocabulary of the properties *)

(** ** Pages of a paginated collection *)

Section PagedVocabulary.
Context {T : Type} (ep : Endpoint) (oracle : Request -> FetchResult (JsonArray T)).
Context (url : string) (accessToken : option string).

(** The request for [page] is answered with a success status and the JSON
    value [body]. *)
Definition page_succeeds (page : nat) (body : JsonArray T) : Prop :=
  exists r, oracle (pagedRequest url accessToken page) = FetchResolved r
            /\ ok r = true /\ json r = Some body.

(** A page that ends the walk: not an array, or fewer than [PER_PAGE]
    items (zero included). *)
Definition last_page (body : JsonArray T) : Prop :=
  match body with
  | NotArray => True
  | IsArray d => length d < PER_PAGE
  end.

(** The log entries of the requests for [n] consecutive pages from
    [first]. *)
Definition pageRequests (first n : nat) : list (Endpoint * Request) :=
  (fun page => (ep, pagedRequest url accessToken page)) <$> seq first n.

End PagedVocabulary.

Definition logged (entries : list (Endpoint * Request)) (w : Net) : Net :=
  {| requests := requests w ++ entries; ticks := ticks w |}.

Definition emptyNet : Net := {| requests := []; ticks := 0 |}.

(** ** Repository discovery *)

(** Keeping, of every repository id, the first element that carries it and
    whose id is not in [seen]. *)
Fixpoint keepFirst (seen : gset Z) (l : list GiteaRepo) : list GiteaRepo :=
  match l with
  | [] => []
  | r :: l =>
      if decide (repo_id r ∈ seen) then keepFirst seen l
      else r :: keepFirst ({[repo_id r]} ∪ seen) l
  end.

Definition ids (l : list GiteaRepo) : list Z := repo_id <$> l.

Section DiscoveryVocabulary.
Context `{server : Server}.

(** The repositories carried by the answer to a logged request: the [data]
    of a successful search page, the array of a successful repository page,
    and nothing otherwise. *)
Definition yield (entry : Endpoint * Request) : list GiteaRepo :=
  match entry with
  | (EpSearch, req) =>
      match srv_search req with
      | FetchResolved r =>
          if ok r then
            match json r with
            | Some j => array_or_empty (search_data j)
            | None => []
            end
          else []
      | FetchRejected _ => []
      end
  | (EpRepos, req) =>
      match srv_repos req with
      | FetchResolved r =>
          if ok r then
            match json r with
            | Some a => array_or_empty a
            | None => []
            end
          else []
      | FetchRejected _ => []
      end
  | _ => []
  end.

(** All the repositories the server handed out for a log, in request
    order. *)
Definition yielded (log : list (Endpoint * Request)) : list GiteaRepo :=
  flat_map yield log.

(** The state of [fetchAllRepos] agrees with what was handed out since the
    log had [n0] entries. *)
Definition discovered (n0 : nat) (st : ReposState) : Prop :=
  n0 <= length (requests (repos_net st))
  /\ repos st = keepFirst ∅ (yielded (drop n0 (requests (repos_net st))))
  /\ seenIds st = list_to_set (ids (yielded (drop n0 (requests (repos_net st))))).

Definition with_net (w : Net) (st : ReposState) : ReposState :=
  {| repos := repos st; seenIds := seenIds st; repos_net := w |}.

End DiscoveryVocabulary.

(** ** The request log *)

(** Whatever its outcome, [m] leaves the requests logged so far in place and
    appends to them. *)
Definition grows {S A} (net : S -> Net) (m : M S A) : Prop :=
  forall s, exists l, requests (net (snd (m s))) = requests (net s) ++ l.

(** ** The pull-request inbox *)

(** The fetch failed with a [GiteaApiError] whose status is 404. *)
Definition rejected404 {A} (r : Settled A) : Prop :=
  exists message url dbg,
    r = Rejected {| exn_error := GiteaApiError 404 message url; exn_debug := dbg |}.

(** The request that [fetchCurrentUser] issues. *)
Definition userRequest (baseUrl accessToken : string) : Endpoint * Request :=
  (EpUser, {| req_url := normalizeBaseUrl baseUrl +:+ "/api/v1/user";
              req_authorization := Some ("token " +:+ accessToken) |}).

(** The two global fetches of [fetchPullRequestInbox], as they run from the
    network [w] once the clock has been read for [startedAt]: the one for
    the pull requests created by the user, and after it the one for those
    that request the user's review. *)
Section GlobalFetchVocabulary.
Context `{server : Server}.
Context (fuel : nat) (baseUrl accessToken : string).

Definition afterStart (w : Net) : Net :=
  {| requests := requests w; ticks := S (ticks w) |}.

Definition createdFetch (w : Net) : Outcome (list GiteaPullRequest) * Net :=
  fetchPaged EpPulls srv_pulls fuel
    (normalizeBaseUrl baseUrl +:+ "/api/v1/pulls/created?state=open")
    (Some accessToken) (afterStart w).

Definition reviewFetch (w : Net) : Outcome (list GiteaPullRequest) * Net :=
  fetchPaged EpPulls srv_pulls fuel
    (normalizeBaseUrl baseUrl +:+ "/api/v1/pulls/requested_review?state=open")
    (Some accessToken) (snd (createdFetch w)).

End GlobalFetchVocabulary.

(** The run ended, with the result that [Promise.allSettled] reports as
    [result]. *)
Definition settlesTo {A} (run : Outcome A * Net) (result : Settled A) : Prop :=
  match fst run with
  | Returned value => result = Fulfilled value
  | Thrown reason => result = Rejected reason
  | OutOfFuel => False
  end.

Section ScanVocabulary.
Context `{P : Platform} `{server : Server}.
Context (fuel : nat) (apiBase accessToken : string) (currentUser : GiteaAuthenticatedUser).

(** The outcome of the open-pull-request fetch of a repository, when its
    full name gives an owner and a name to fetch with. *)
Definition repoFetch (repo : GiteaRepo) : option (Outcome (list GiteaPullRequest)) :=
  match ownerAndName (full_name repo) with
  | Some (owner, name) =>
      Some (fst (fetchPaged EpPulls srv_pulls fuel (pullsUrl apiBase owner name)
                   (Some accessToken) emptyNet))
  | None => None
  end.

(** The open pull requests obtained for a repository: the result of its
    fetch, and none when the fetch failed or could not be made. *)
Definition openPulls (repo : GiteaRepo) : list GiteaPullRequest :=
  match repoFetch repo with
  | Some (Returned pulls) => pulls
  | _ => []
  end.

(** The open-pull-request fetch of the repository was made and failed. *)
Definition fetchFailed (repo : GiteaRepo) : bool :=
  match repoFetch repo with
  | Some (Thrown _) => true
  | _ => false
  end.

(** The fetch of the repository, if made, ends within the fuel. *)
Definition fetchEnds (repo : GiteaRepo) : Prop := repoFetch repo <> Some OutOfFuel.

Definition partitionOf (repo : GiteaRepo) : Partition :=
  {| part_created := List.filter (authoredBy (user_login currentUser)) (openPulls repo);
     part_reviewRequested :=
       List.filter (reviewRequestedFrom (user_login currentUser)) (openPulls repo) |}.

Definition failuresIn (rs : list GiteaRepo) : nat :=
  length (List.filter fetchFailed rs).

End ScanVocabulary.

(** ** Check-status enrichment *)

(** The five states the specification lists. *)
Definition fiveStates : list string :=
  ["success"; "failure"; "pending"; "error"; "unknown"].

Section EnrichmentVocabulary.
Context `{P : Platform} `{server : Server}.
Context (baseUrl : string) (accessToken : option string).




(** The server answered some status request successfully with [s] as the
    [state] of its body. *)
Definition returnedState (s : string) : Prop :=
  exists req resp j,
    srv_status req = FetchResolved resp /\ ok resp = true
    /\ json resp = Some j /\ state j = Some s.

Definition statusRequest (owner name sha : string) : Request :=
  {| req_url := normalizeBaseUrl baseUrl +:+ "/api/v1/repos/" +:+ owner +:+ "/"
                  +:+ name +:+ "/commits/" +:+ sha +:+ "/status";
     req_authorization := authorization accessToken |}.

End EnrichmentVocabulary.

(** ** Forced refresh *)

Section RefreshVocabulary.
Context `{P : Platform}.

(** The state in which a forced refresh starts its live fetch. *)
Definition refreshing (a : App View) : App View :=
  mkApp (app_net a) (storage a) (storage_reads a)
    (mkView (createdPulls (view a)) (reviewRequestedPulls (view a)) (statusById (view a))
       true None None None)
    (toasts a).

(** The state after the [try] block when the live fetch returned
    [result] in the network state [w1]. *)
Definition refreshed (baseUrl : string) (result : InboxResult) (w1 : Net) (a : App View)
  : App View :=
  mkApp {| requests := requests w1; ticks := S (ticks w1) |}
    (<[prCacheTimeKey baseUrl := pretty (clock (ticks w1))]>
       (<[prCacheKey baseUrl :=
            stringify_inbox {| payload_created := created result;
                               payload_reviewRequested := reviewRequested result;
                               payload_statusById := None |}]> (storage a)))
    (storage_reads a)
    (mkView (created result) (reviewRequested result) (statusById (view a))
       (isLoading (view a)) (errorMessage (view a)) (Some (debug result))
       (lastError (view a)))
    (toasts a).

End RefreshVocabulary.

(** ** Slashes at the ends of a string *)

Fixpoint slashes (n : nat) : string :=
  match n with
  | O => EmptyString
  | S n => String "/"%char (slashes n)
  end.

Fixpoint endsWithSlash (s : string) : bool :=
  match s with
  | EmptyString => false
  | String c EmptyString => Ascii.eqb c "/"%char
  | String _ rest => endsWithSlash rest
  end.

Definition startsWithSlash (s : string) : bool :=
  match s with
  | String c _ => Ascii.eqb c "/"%char
  | EmptyString => false
  end.

(** ** The search loop of repository discovery *)

(** The request for a page of [GET /repos/search]. *)
Definition searchRequest (baseUrl : string) (accessToken : option string) (page : nat)
  : Endpoint * Request :=
  (EpSearch,
   {| req_url := URL_toString
                   (listUrl (normalizeBaseUrl baseUrl +:+ "/api/v1/repos/search") page);
      req_authorization := authorization accessToken |}).

(** Every repository that the search endpoint hands out has its id in
    [known]. *)
Definition searchWithin `{server : Server} (known : gset Z) : Prop :=
  forall req repo, repo ∈ yield (EpSearch, req) -> repo_id repo ∈ known.

(** As many repositories collected as ids seen. *)
Definition counted (st : ReposState) : Prop := length (repos st) = size (seenIds st).

(** [m] only appends to the repositories collected so far. *)
Definition appends {A} (m : M ReposState A) : Prop :=
  forall st, repos st `prefix_of` repos (snd (m st)).

(** ** The pages that the three sources of repositories serve *)

(** The items that a loop over a list endpoint takes from an answer: none
    from an answer whose status is not a success, those of the array
    otherwise; [None] when the body is not JSON, which makes reading it
    throw. *)
Definition pageOf {T} (response : Response (JsonArray T)) : option (list T) :=
  if ok response then array_or_empty <$> json response else Some [].

(** The requests for a page of a repository list and of the list of
    organisations. *)
Definition reposRequest (endpoint token : string) (page : nat) : Endpoint * Request :=
  (EpRepos, {| req_url := URL_toString (listUrl endpoint page);
               req_authorization := Some ("token " +:+ token) |}).

Definition orgsRequest (baseUrl token : string) (page : nat) : Endpoint * Request :=
  (EpOrgs, {| req_url := normalizeBaseUrl baseUrl +:+ "/api/v1/orgs?limit="
                           +:+ pretty PER_PAGE +:+ "&page=" +:+ pretty page;
              req_authorization := Some ("token " +:+ token) |}).

Definition userReposEndpoint (baseUrl : string) : string :=
  normalizeBaseUrl baseUrl +:+ "/api/v1/user/repos".

Definition orgReposEndpoint (baseUrl orgName : string) : string :=
  normalizeBaseUrl baseUrl +:+ "/api/v1/orgs/" +:+ orgName +:+ "/repos".

(** The name under which the repositories of an organisation are asked for,
    when it has one. *)
Definition orgNameOf (org : GiteaOrg) : option string :=
  match Js.or_else (org_username org) (org_name org) with
  | Some orgName => if Js.truthy orgName then Some orgName else None
  | None => None
  end.

(** [data] holds a repository whose id is not among those of [before]. *)
Definition bringsNew (before data : list GiteaRepo) : bool :=
  existsb (fun repo => negb (bool_decide (repo_id repo ∈ repo_id <$> before))) data.

(** The number of distinct ids among the repositories handed out. *)
Definition distinct (handed : list GiteaRepo) : nat :=
  size (list_to_set (repo_id <$> handed) : gset Z).

(** As many distinct repositories have been handed out as the total that the
    search announces. *)
Definition reached (total : option Z) (handed : list GiteaRepo) : bool :=
  match total with
  | Some t => (t <=? Z.of_nat (distinct handed))%Z
  | None => false
  end.

(** The state of [fetchAllRepos] after the repositories [handed] have been
    handed out to it. *)
Definition collected (handed : list GiteaRepo) (st : ReposState) : Prop :=
  repos st = keepFirst ∅ handed /\ seenIds st = list_to_set (ids handed).

Section SourcesVocabulary.
Context `{server : Server}.
Context (baseUrl : string).

(** The answers of the three kinds of endpoint to the request for a page. *)
Definition searchAnswers (accessToken : option string) (page : nat)
    (data : list GiteaRepo) (total : option Z) : Prop :=
  exists response body,
    srv_search (snd (searchRequest baseUrl accessToken page)) = FetchResolved response
    /\ ok response = true /\ json response = Some body
    /\ array_or_empty (search_data body) = data /\ total_count body = total.

Definition reposAnswers (endpoint token : string) (page : nat) (data : list GiteaRepo)
  : Prop :=
  exists response,
    srv_repos (snd (reposRequest endpoint token page)) = FetchResolved response
    /\ pageOf response = Some data.

Definition orgsAnswers (token : string) (page : nat) (orgs : list GiteaOrg) : Prop :=
  exists response,
    srv_orgs (snd (orgsRequest baseUrl token page)) = FetchResolved response
    /\ pageOf response = Some orgs.

(** The search endpoint serves [pages], each with the total it announces,
    from page [page] on, to a client that has been handed [before]: every
    page but the last brings a repository that is new to the client without
    reaching the total, and the last one does not. *)
Fixpoint searchServes (accessToken : option string) (page : nat)
    (before : list GiteaRepo) (pages : list (list GiteaRepo * option Z)) : Prop :=
  match pages with
  | [] => False
  | (data, total) :: rest =>
      searchAnswers accessToken page data total
      /\ match rest with
         | [] => bringsNew before data && negb (reached total (before ++ data)) = false
         | _ :: _ =>
             bringsNew before data && negb (reached total (before ++ data)) = true
             /\ searchServes accessToken (S page) (before ++ data) rest
         end
  end.

(** A repository list serves [pages] from page [page] on: every page but the
    last brings a repository that is new to the client, and the last one
    (which may be empty, or an answer that is not a success) brings none. *)
Fixpoint reposServes (endpoint token : string) (page : nat)
    (before : list GiteaRepo) (pages : list (list GiteaRepo)) : Prop :=
  match pages with
  | [] => False
  | data :: rest =>
      reposAnswers endpoint token page data
      /\ match rest with
         | [] => bringsNew before data = false
         | _ :: _ =>
             bringsNew before data = true
             /\ reposServes endpoint token (S page) (before ++ data) rest
         end
  end.

(** The list of organisations serves [pages] from page [page] on: every page
    but the last holds at least [PER_PAGE] organisations, and the last one
    fewer. *)
Fixpoint orgsServes (token : string) (page : nat) (pages : list (list GiteaOrg)) : Prop :=
  match pages with
  | [] => False
  | orgs :: rest =>
      orgsAnswers token page orgs
      /\ match rest with
         | [] => (length orgs <? PER_PAGE)%nat = true
         | _ :: _ =>
             (length orgs <? PER_PAGE)%nat = false
             /\ orgsServes token (S page) rest
         end
  end.

(** The organisations named [names] serve, one after the other, the pages
    [pagesOf]: one list of pages for each. *)
Fixpoint orgReposServe (token : string) (before : list GiteaRepo) (names : list string)
    (pagesOf : list (list (list GiteaRepo))) : Prop :=
  match names, pagesOf with
  | [], [] => True
  | name :: names, pages :: pagesOf =>
      reposServes (orgReposEndpoint baseUrl name) token 1 before pages
      /\ orgReposServe token (before ++ concat pages) names pagesOf
  | _, _ => False
  end.

(** What the three sources serve to [fetchAllRepos]: the pages of the
    search and, to a client with a token, the pages of the user's
    repositories, the pages of the list of organisations, and the pages of
    the repositories of each organisation that has a name. *)
Definition discoveryServes (accessToken : option string)
    (searchPages : list (list GiteaRepo * option Z)) (userPages : list (list GiteaRepo))
    (orgPages : list (list GiteaOrg)) (orgRepoPages : list (list (list GiteaRepo)))
  : Prop :=
  searchServes accessToken 1 [] searchPages
  /\ if Js.truthy_opt accessToken
     then
       let token := default "" accessToken in
       reposServes (userReposEndpoint baseUrl) token 1
         (concat (fst <$> searchPages)) userPages
       /\ orgsServes token 1 orgPages
       /\ orgReposServe token (concat (fst <$> searchPages) ++ concat userPages)
            (omap orgNameOf (concat orgPages)) orgRepoPages
     else userPages = [] /\ orgPages = [] /\ orgRepoPages = [].

(** The requests for the pages of the organisations' repositories. *)
Definition orgReposRequests (token : string) (names : list string)
    (pagesOf : list (list (list GiteaRepo))) : list (Endpoint * Request) :=
  concat (zip_with
            (fun name pages =>
               reposRequest (orgReposEndpoint baseUrl name) token <$> seq 1 (length pages))
            names pagesOf).

(** The requests for all these pages, in the order of the sources. *)
Definition discoveryRequests (accessToken : option string)
    (searchPages : list (list GiteaRepo * option Z)) (userPages : list (list GiteaRepo))
    (orgPages : list (list GiteaOrg)) (orgRepoPages : list (list (list GiteaRepo)))
  : list (Endpoint * Request) :=
  let token := default "" accessToken in
  (searchRequest baseUrl accessToken <$> seq 1 (length searchPages))
    ++ (reposRequest (userReposEndpoint baseUrl) token <$> seq 1 (length userPages))
    ++ (orgsRequest baseUrl token <$> seq 1 (length orgPages))
    ++ orgReposRequests token (omap orgNameOf (concat orgPages)) orgRepoPages.

End SourcesVocabulary.

(** All the repositories handed out, in the order of the sources. *)
Definition handedOut (searchPages : list (list GiteaRepo * option Z))
    (userPages : list (list GiteaRepo)) (orgRepoPages : list (list (list GiteaRepo)))
  : list GiteaRepo :=
  concat (fst <$> searchPages) ++ concat userPages ++ concat (concat orgRepoPages).

(** No source serves more than [fuel] pages. *)
Definition pagesWithin (fuel : nat) (searchPages : list (list GiteaRepo * option Z))
    (userPages : list (list GiteaRepo)) (orgPages : list (list GiteaOrg))
    (orgRepoPages : list (list (list GiteaRepo))) : Prop :=
  length searchPages <= fuel /\ length userPages <= fuel /\ length orgPages <= fuel
  /\ Forall (fun pages => length pages <= fuel) orgRepoPages.

(** ** Reading the local storage *)

(** The state after the keys [keys] have been read. *)
Definition with_reads {V} (keys : list string) (a : App V) : App V :=
  mkApp (app_net a) (storage a) (storage_reads a ++ keys) (view a) (toasts a).

(** ** The lists on display *)

(** [a] may be shown before [b]: its date is not the older one, a pull
    request whose date does not parse coming after every one whose date
    does. *)
Definition notOlder `{R : Runtime} (a b : GiteaPullRequest) : Prop :=
  match Date_parse (pr_updated_at a), Date_parse (pr_updated_at b) with
  | Some at_, Some bt => (bt <= at_)%Z
  | Some _, None => True
  | None, Some _ => False
  | None, None => True
  end.

(** The time of the last use recorded for a repository, 0 when there is
    none. *)
Definition lastUsed (usage : gmap string Z) (repo : GiteaRepo) : Z :=
  default 0%Z (usageOf usage repo).

(** ** Segments of a full name *)

Fixpoint hasSlash (s : string) : bool :=
  match s with
  | EmptyString => false
  | String c rest => Ascii.eqb c "/"%char || hasSlash rest
  end.

(** * A worked example

    A small server on which the statements below are instantiated. *)

(** An oracle given by a table from request URLs to answers. *)
Fixpoint answer {B} (table : list (string * FetchResult B)) (otherwise : FetchResult B)
    (req : Request) : FetchResult B :=
  match table with
  | [] => otherwise
  | (u, a) :: rest => if String.eqb (req_url req) u then a else answer rest otherwise req
  end.

Definition okJson {B} (b : B) : FetchResult B :=
  FetchResolved {| status := 200; statusText := "OK"; text := ""; json := Some b |}.

Definition httpError {B} (st : Z) (reason body : string) : FetchResult B :=
  FetchResolved {| status := st; statusText := reason; text := body; json := None |}.

Definition alice : GiteaUser := {| login := "alice"; avatar_url := None |}.

Definition bob : GiteaUser := {| login := "bob"; avatar_url := None |}.

Definition sampleRepo (i : Z) (name : string) (descr : option string) : GiteaRepo :=
  {| repo_id := i; full_name := name; repo_description := descr;
     repo_html_url := "https://git.example/" +:+ name; repo_owner := None |}.

Definition repoApp : GiteaRepo := sampleRepo 1 "acme/app" None.

Definition repoLib : GiteaRepo := sampleRepo 2 "acme/lib" None.

Definition repoLibLater : GiteaRepo := sampleRepo 2 "acme/lib" (Some "later copy").

Definition repoCli : GiteaRepo := sampleRepo 3 "tools/cli" None.

Definition repoOdd : GiteaRepo := sampleRepo 4 "odd" None.

Definition samplePull (i : Z) (author : GiteaUser) (sha : option string)
    (reviewers : option (list GiteaUser)) (repoName : option string) (url : string)
  : GiteaPullRequest :=
  {| pr_id := i; pr_number := i; pr_title := "change"; pr_html_url := url;
     pr_user := Some author; pr_updated_at := "2024-01-01T00:00:00Z"; pr_state := "open";
     pr_draft := None; pr_head_sha := sha; pr_requested_reviewers := reviewers;
     pr_repository_full_name := repoName; pr_base_repo_full_name := None |}.

Definition pull10 : GiteaPullRequest :=
  samplePull 10 alice (Some "aaa") None (Some "acme/app")
    "https://git.example/acme/app/pulls/10".

Definition pull11 : GiteaPullRequest :=
  samplePull 11 bob (Some "bbb") (Some [alice]) None
    "https://git.example/acme/app/pulls/11".

Definition pull12 : GiteaPullRequest :=
  samplePull 12 alice None (Some [bob]) (Some "tools/cli")
    "https://git.example/tools/cli/pulls/12".

Definition pull13 : GiteaPullRequest :=
  samplePull 13 alice (Some "ddd") None None
    "https://git.example/tools/cli/pull/13".

Definition pull14 : GiteaPullRequest :=
  samplePull 14 bob (Some "eee") (Some [alice]) (Some "tools/cli")
    "https://git.example/tools/cli/pulls/14".

Definition sampleServer : Server := {|
  srv_user :=
    answer [("https://git.example/api/v1/user",
             okJson {| user_id := 7; user_login := "alice" |})]
      (httpError 404 "Not Found" "");
  srv_pulls :=
    answer
      [("https://git.example/api/v1/repos/acme/app/pulls?state=open&limit=100&page=1&token=tok",
        okJson (IsArray [pull10; pull11]));
       ("https://git.example/api/v1/repos/acme/lib/pulls?state=open&limit=100&page=1&token=tok",
        httpError 500 "Internal Server Error" "boom");
       ("https://git.example/api/v1/repos/tools/cli/pulls?state=open&limit=100&page=1&token=tok",
        okJson (IsArray [pull12; pull14]))]
      (httpError 404 "Not Found" "");
  srv_search :=
    answer
      [("https://git.example/api/v1/repos/search?limit=100&page=1",
        okJson {| search_data := IsArray [repoApp; repoLib]; total_count := Some 5%Z |});
       ("https://git.example/api/v1/repos/search?limit=100&page=2",
        okJson {| search_data := IsArray [repoLib]; total_count := Some 5%Z |})]
      (httpError 500 "Internal Server Error" "");
  srv_repos :=
    answer
      [("https://git.example/api/v1/user/repos?limit=100&page=1",
        okJson (IsArray [repoLibLater; repoCli]));
       ("https://git.example/api/v1/user/repos?limit=100&page=2",
        okJson (IsArray []));
       ("https://git.example/api/v1/orgs/acme/repos?limit=100&page=1",
        okJson (IsArray [repoApp; repoOdd]))]
      (httpError 500 "Internal Server Error" "");
  srv_orgs :=
    answer
      [("https://git.example/api/v1/orgs?limit=100&page=1",
        okJson (IsArray [{| org_username := Some "acme"; org_name := None |}]))]
      (httpError 404 "Not Found" "");
  srv_status :=
    answer
      [("https://git.example/api/v1/repos/acme/app/commits/aaa/status",
        okJson {| state := Some "success" |});
       ("https://git.example/api/v1/repos/acme/app/commits/bbb/status",
        okJson {| state := Some "warning" |});
       ("https://git.example/api/v1/repos/tools/cli/commits/ddd/status",
        okJson {| state := Some "pending" |})]
      (httpError 500 "Internal Server Error" "")
|}.

(** A server that has the two global endpoints. *)
Definition globalServer : Server := {|
  srv_user := answer [] (httpError 404 "Not Found" "");
  srv_pulls :=
    answer
      [("https://git.example/api/v1/pulls/created?state=open&limit=100&page=1&token=tok",
        okJson (IsArray [pull10; pull12]));
       ("https://git.example/api/v1/pulls/requested_review?state=open&limit=100&page=1&token=tok",
        okJson (IsArray [pull11]))]
      (httpError 404 "Not Found" "");
  srv_search := answer [] (httpError 500 "Internal Server Error" "");
  srv_repos := answer [] (httpError 500 "Internal Server Error" "");
  srv_orgs := answer [] (httpError 404 "Not Found" "");
  srv_status := answer [] (httpError 500 "Internal Server Error" "")
|}.

(** A platform whose URL parser knows the one host of the example. *)
Definition samplePathname (href : string) : option string :=
  if String.prefix "https://git.example/" href
  then Some (String.substring 19 (String.length href - 19) href)
  else None.

Definition samplePlatform : Platform := {|
  URL_pathname := samplePathname;
  URL_protocol := fun href => if String.prefix "https://" href then Some "https:" else None;
  clock := fun n => (1700000000000 + Z.of_nat n)%Z;
  encodeURIComponent := fun s => s;
  Number_of_string := fun s => if String.eqb s "1700000000005" then Some 1700000000005%Z else None;
  stringify_inbox := fun p => "inbox:" +:+ pretty (length (payload_created p))
                               +:+ "," +:+ pretty (length (payload_reviewRequested p));
  parse_inbox := fun s => None;
  stringify_repos := fun rs => "repos:" +:+ pretty (length rs);
  parse_repos := fun s => None
|}.

Definition notFound : Settled (list GiteaPullRequest) :=
  Rejected (plain (GiteaApiError 404 "Gitea API error (404): Not Found"
                     (Some "https://git.example/api/v1/pulls/created"))).

(** A collection of numbers served in two pages: one hundred items, then
    three; and one that fails on its second page. *)
Definition numbersOracle : Request -> FetchResult (JsonArray nat) :=
  answer
    [("https://git.example/api/v1/numbers?limit=100&page=1", okJson (IsArray (seq 0 100)));
     ("https://git.example/api/v1/numbers?limit=100&page=2", okJson (IsArray [100; 101; 102]))]
    (httpError 404 "Not Found" "").

Definition flakyOracle : Request -> FetchResult (JsonArray nat) :=
  answer
    [("https://git.example/api/v1/numbers?limit=100&page=1", okJson (IsArray (seq 0 100)))]
    (httpError 503 "Service Unavailable" "").

(** The network after repository discovery on the example server. *)
Definition sampleDiscovery : Net :=
  snd (fetchAllRepos (server := sampleServer) 5 "https://git.example/" (Some "tok")
         emptyNet).

(** The command of the example, with a fresh entry in its cache. *)
Definition sampleApp : App View :=
  {| app_net := emptyNet;
     storage := {[ "gitea-pr-inbox-cache:https://git.example/" := "inbox:0,0";
                   "gitea-pr-inbox-cache-time:https://git.example/" := "1700000000005" ]};
     storage_reads := [];
     view := {| createdPulls := []; reviewRequestedPulls := []; statusById := ∅;
                isLoading := false; errorMessage := None; debugInfo := None;
                lastError := None |};
     toasts := [] |}.

Definition sampleOutcome : Outcome InboxResult :=
  Eval vm_compute in
    fst (fetchPullRequestInbox (P := samplePlatform) (server := sampleServer)
           5 "https://git.example/" "tok" emptyNet).

Definition sampleNet : Net :=
  Eval vm_compute in
    snd (fetchPullRequestInbox (P := samplePlatform) (server := sampleServer)
           5 "https://git.example/" "tok" emptyNet).

(** ** More of the example *)

Definition samplePayload : PullInboxCachePayload :=
  {| payload_created := [pull10]; payload_reviewRequested := [pull11];
     payload_statusById := None |}.

(** A platform that reads back what it writes into the two caches, for the
    payload and the list of the example. *)
Definition cachingPlatform : Platform := {|
  URL_pathname := samplePathname;
  URL_protocol := fun href => if String.prefix "https://" href then Some "https:" else None;
  clock := fun n => (1700000000000 + Z.of_nat n)%Z;
  encodeURIComponent := fun s => s;
  Number_of_string := fun s => if String.eqb s "1700000000000" then Some 1700000000000%Z
                               else if String.eqb s "1700000000005"
                                    then Some 1700000000005%Z
                                    else None;
  stringify_inbox := fun p => "inbox:" +:+ pretty (length (payload_created p))
                               +:+ "," +:+ pretty (length (payload_reviewRequested p));
  parse_inbox := fun s => if String.eqb s "inbox:1,1" then Some samplePayload else None;
  stringify_repos := fun rs => "repos:" +:+ pretty (length rs);
  parse_repos := fun s => if String.eqb s "repos:2" then Some [repoApp; repoLib] else None
|}.

Fixpoint trimStart (s : string) : string :=
  match s with
  | String c rest => if Ascii.eqb c " "%char then trimStart rest else s
  | EmptyString => EmptyString
  end.

Fixpoint trimEnd (s : string) : string :=
  match s with
  | EmptyString => EmptyString
  | String c rest =>
      match trimEnd rest with
      | EmptyString => if Ascii.eqb c " "%char then EmptyString else String c EmptyString
      | r => String c r
      end
  end.

(** A runtime that trims spaces, knows two dates and compares names by code
    points. *)
Definition sampleRuntime : Runtime := {|
  trim := fun s => trimEnd (trimStart s);
  Date_parse := fun s => if String.eqb s "2024-01-01T00:00:00Z" then Some 1704067200000%Z
                         else if String.eqb s "2024-02-01T00:00:00Z"
                              then Some 1706745600000%Z
                              else None;
  localeCompare := fun a b => match String.compare a b with
                              | Lt => (-1)%Z
                              | Eq => 0%Z
                              | Gt => 1%Z
                              end;
  stringify_usage := fun usage => "usage:" +:+ pretty (size usage)
|}.

Definition blankView : View :=
  {| createdPulls := []; reviewRequestedPulls := []; statusById := ∅;
     isLoading := false; errorMessage := None; debugInfo := None; lastError := None |}.

(** The pull-request command with nothing stored, and with a fresh entry
    that [cachingPlatform] reads back. *)
Definition blankApp : App View :=
  {| app_net := emptyNet; storage := ∅; storage_reads := []; view := blankView;
     toasts := [] |}.

Definition cachedApp : App View :=
  {| app_net := emptyNet;
     storage := {[ "gitea-pr-inbox-cache:https://git.example/" := "inbox:1,1";
                   "gitea-pr-inbox-cache-time:https://git.example/" := "1700000000005" ]};
     storage_reads := []; view := blankView; toasts := [] |}.

(** The repository command, showing one repository, with a stale cache. *)
Definition repoCommandApp : App RepoView :=
  {| app_net := emptyNet;
     storage := {[ "gitea-repos-cache" := "repos:1";
                   "gitea-repos-cache-time" := "1600000000000" ]};
     storage_reads := [];
     view := {| rv_repos := [repoOdd]; rv_isLoading := false; rv_errorMessage := None |};
     toasts := [] |}.

(** The repository command with a fresh entry that [cachingPlatform] reads
    back. *)
Definition cachedRepoApp : App RepoView :=
  {| app_net := emptyNet;
     storage := {[ "gitea-repos-cache" := "repos:2";
                   "gitea-repos-cache-time" := "1700000000005" ]};
     storage_reads := [];
     view := {| rv_repos := []; rv_isLoading := true; rv_errorMessage := None |};
     toasts := [] |}.

Definition sampleRepos : list GiteaRepo := [repoApp; repoLib; repoCli; repoOdd].

Definition sampleUsage : gmap string Z := {[ "1" := 50%Z; "3" := 70%Z ]}.

(** The state of discovery on the example server after the search loop, and
    after the loop over the user's repositories. *)
Definition sampleSearched : ReposState :=
  snd (searchLoop (server := sampleServer) 5 "https://git.example/" (Some "tok") 1 0
         {| repos := []; seenIds := ∅; repos_net := emptyNet |}).

Definition sampleListed : ReposState :=
  snd (reposLoop (server := sampleServer) 5 "https://git.example/api/v1/user/repos"
         "tok" 1 sampleSearched).

(** * Properties *)

(** ** Helpers of lib/gitea.ts *)

(** The two cases of the unit test "normalizes base URLs". *)
Example normalizeBaseUrl_trailing_slashes :
  normalizeBaseUrl "https://example.com/" = "https://example.com"
  /\ normalizeBaseUrl "https://example.com////" = "https://example.com".
Proof. split; reflexivity. Qed.

(** Whatever the stored state, the label shown is one of five. *)
Lemma formatStatus_labels (st : option string) :
  formatStatus st ∈ ["✅ passed"; "❌ failed"; "⏳ pending"; "⚠️ error"; "⚪ unknown"].
Proof.
  unfold formatStatus.
  repeat match goal with
         | |- context [if ?b then _ else _] => destruct b
         end; set_solver.
Qed.

(** ** Running computations *)

Lemma bind_returned {S A B} (m : M S A) (k : A -> M S B) s a s' :
  m s = (Returned a, s') -> bind m k s = k a s'.
Proof. intros H. unfold bind. rewrite H. reflexivity. Qed.

Lemma bind_thrown {S A B} (m : M S A) (k : A -> M S B) s e s' :
  m s = (Thrown e, s') -> bind m k s = (Thrown e, s').
Proof. intros H. unfold bind. rewrite H. reflexivity. Qed.

Lemma bind_out_of_fuel {S A B} (m : M S A) (k : A -> M S B) s s' :
  m s = (OutOfFuel, s') -> bind m k s = (OutOfFuel, s').
Proof. intros H. unfold bind. rewrite H. reflexivity. Qed.

Lemma fetch_resolved {B} ep (oracle : Request -> FetchResult B) req r w :
  oracle req = FetchResolved r ->
  fetch ep oracle req w = (Returned r, log_request ep req w).
Proof. intros H. unfold fetch. rewrite H. reflexivity. Qed.

Lemma fetch_rejected {B} ep (oracle : Request -> FetchResult B) req e w :
  oracle req = FetchRejected e ->
  fetch ep oracle req w = (Thrown (plain e), log_request ep req w).
Proof. intros H. unfold fetch. rewrite H. reflexivity. Qed.

(** ** The paginated fetcher *)

Section FetchPaged.
Context {T : Type} (ep : Endpoint) (oracle : Request -> FetchResult (JsonArray T)).
Context (url : string) (accessToken : option string).

Local Abbreviation page_succeeds := (page_succeeds oracle url accessToken).
Local Abbreviation pageRequests := (pageRequests ep url accessToken).

Lemma logged_nil w : logged [] w = w.
Proof. destruct w. unfold logged. simpl. by rewrite app_nil_r. Qed.

Lemma logged_request page n w :
  logged (pageRequests (page + 1) n) (log_request ep (pagedRequest url accessToken page) w)
  = logged (pageRequests page (S n)) w.
Proof.
  unfold logged, log_request, pageRequests. simpl.
  rewrite <- app_assoc. simpl. by rewrite Nat.add_1_r.
Qed.

Lemma fetchPaged_loop_step fuel items page w r :
  oracle (pagedRequest url accessToken page) = FetchResolved r ->
  ok r = true ->
  fetchPaged_loop ep oracle (S fuel) url accessToken items page w
  = match json r with
    | None => (Thrown (plain json_rejects),
               log_request ep (pagedRequest url accessToken page) w)
    | Some NotArray | Some (IsArray []) =>
        (Returned items, log_request ep (pagedRequest url accessToken page) w)
    | Some (IsArray d) =>
        if (length d <? PER_PAGE)%nat
        then (Returned (items ++ d), log_request ep (pagedRequest url accessToken page) w)
        else fetchPaged_loop ep oracle fuel url accessToken (items ++ d) (page + 1)
               (log_request ep (pagedRequest url accessToken page) w)
    end.
Proof.
  intros Hreq Hok. simpl.
  rewrite (bind_returned _ _ _ _ _ (fetch_resolved ep oracle _ r w Hreq)).
  rewrite Hok. simpl. unfold response_json.
  destruct (json r) as [[|[|x d]]|]; try reflexivity.
  unfold bind, ret. simpl.
  match goal with |- context [if ?b then _ else _] => destruct b end; reflexivity.
Qed.

Lemma fetchPaged_loop_failed fuel items page w r :
  oracle (pagedRequest url accessToken page) = FetchResolved r ->
  ok r = false ->
  fetchPaged_loop ep oracle (S fuel) url accessToken items page w
  = (Thrown (plain (GiteaApiError (status r) (apiErrorMessage r)
                      (Some (req_url (pagedRequest url accessToken page))))),
     log_request ep (pagedRequest url accessToken page) w).
Proof.
  intros Hreq Hok. simpl.
  rewrite (bind_returned _ _ _ _ _ (fetch_resolved ep oracle _ r w Hreq)).
  rewrite Hok. reflexivity.
Qed.

Lemma full_page_continues (d : list T) :
  PER_PAGE <= length d -> (length d <? PER_PAGE)%nat = false /\ d <> [].
Proof.
  intros H. split; [apply Nat.ltb_ge; exact H|].
  intros ->. unfold PER_PAGE in H. simpl in H. lia.
Qed.

(** The walk over a run of full pages followed by a last page. *)
Lemma fetchPaged_loop_pages (full : list (list T)) (last : JsonArray T) :
  forall items page fuel w,
    Forall (fun p => PER_PAGE <= length p) full ->
    (forall i p, full !! i = Some p -> page_succeeds (page + i) (IsArray p)) ->
    page_succeeds (page + length full) last ->
    last_page last ->
    length full < fuel ->
    fetchPaged_loop ep oracle fuel url accessToken items page w
    = (Returned (items ++ concat full ++ array_or_empty last),
       logged (pageRequests page (S (length full))) w).
Proof.
  induction full as [|p full IH]; intros items page fuel w Hfull Hpages Hlast Hterm Hfuel.
  - destruct fuel as [|fuel]; [simpl in Hfuel; lia|].
    simpl in Hlast. rewrite Nat.add_0_r in Hlast.
    destruct Hlast as (r & Hreq & Hok & Hjson).
    rewrite (fetchPaged_loop_step _ _ _ _ r Hreq Hok), Hjson.
    unfold pageRequests, logged, log_request. simpl.
    destruct last as [|[|x d]]; simpl.
    + by rewrite app_nil_r.
    + by rewrite app_nil_r.
    + simpl in Hterm. apply Nat.ltb_lt in Hterm. simpl in Hterm. by rewrite Hterm.
  - destruct fuel as [|fuel]; [simpl in Hfuel; lia|].
    destruct (Hpages 0 p eq_refl) as (r & Hreq & Hok & Hjson).
    rewrite Nat.add_0_r in Hreq.
    inversion Hfull as [|? ? Hp Hfull']; subst.
    destruct (full_page_continues p Hp) as [Hlt Hne].
    rewrite (fetchPaged_loop_step _ _ _ _ r Hreq Hok), Hjson.
    destruct p as [|x d]; [congruence|]. rewrite Hlt.
    rewrite (IH (items ++ x :: d) (page + 1) fuel); try assumption.
    + rewrite logged_request. simpl. f_equal. f_equal.
      by rewrite <- !app_assoc.
    + intros i q Hq. specialize (Hpages (S i) q Hq).
      by replace (page + 1 + i) with (page + S i) by lia.
    + simpl in Hlast. by replace (page + 1 + length full) with (page + S (length full)) by lia.
    + simpl in Hfuel. lia.
Qed.

(** The walk over a run of full pages followed by a refused request. *)
Lemma fetchPaged_loop_refused (full : list (list T)) (r : Response (JsonArray T)) :
  forall items page fuel w,
    Forall (fun p => PER_PAGE <= length p) full ->
    (forall i p, full !! i = Some p -> page_succeeds (page + i) (IsArray p)) ->
    oracle (pagedRequest url accessToken (page + length full)) = FetchResolved r ->
    ok r = false ->
    length full < fuel ->
    fetchPaged_loop ep oracle fuel url accessToken items page w
    = (Thrown (plain (GiteaApiError (status r) (apiErrorMessage r)
                        (Some (req_url (pagedRequest url accessToken (page + length full)))))),
       logged (pageRequests page (S (length full))) w).
Proof.
  induction full as [|p full IH]; intros items page fuel w Hfull Hpages Hreq Hok Hfuel.
  - destruct fuel as [|fuel]; [simpl in Hfuel; lia|].
    simpl length in *. rewrite Nat.add_0_r in *.
    by rewrite (fetchPaged_loop_failed _ _ _ _ r Hreq Hok).
  - destruct fuel as [|fuel]; [simpl in Hfuel; lia|].
    destruct (Hpages 0 p eq_refl) as (r0 & Hreq0 & Hok0 & Hjson0).
    rewrite Nat.add_0_r in Hreq0.
    inversion Hfull as [|? ? Hp Hfull']; subst.
    destruct (full_page_continues p Hp) as [Hlt Hne].
    rewrite (fetchPaged_loop_step _ _ _ _ r0 Hreq0 Hok0), Hjson0.
    destruct p as [|x d]; [congruence|]. rewrite Hlt.
    simpl length in Hreq |- *.
    replace (page + S (length full)) with (page + 1 + length full) in Hreq |- * by lia.
    rewrite (IH (items ++ x :: d) (page + 1) fuel); try assumption.
    + by rewrite logged_request.
    + intros i q Hq. specialize (Hpages (S i) q Hq).
      by replace (page + 1 + i) with (page + S i) by lia.
    + simpl in Hfuel. lia.
Qed.

End FetchPaged.

(** C4.  When the requests for pages 1, 2, ... are answered successfully, first
    by a run [full] of pages of at least [PER_PAGE] items and then by a page
    [last] that is empty, shorter than [PER_PAGE] or not an array,
    [fetchPaged] returns the concatenation of the pages in request order
    (the items of [last] included) and issues exactly the requests for pages
    [1 .. length full + 1], in that order: one per page up to and including
    the terminal one. *)
Theorem fetchPaged_concatenates_pages {T} (ep : Endpoint)
    (oracle : Request -> FetchResult (JsonArray T)) (url : string)
    (accessToken : option string) (full : list (list T)) (last : JsonArray T)
    (fuel : nat) (w : Net) :
  Forall (fun p => PER_PAGE <= length p) full ->
  (forall i p, full !! i = Some p ->
               page_succeeds oracle url accessToken (1 + i) (IsArray p)) ->
  page_succeeds oracle url accessToken (1 + length full) last ->
  last_page last ->
  length full < fuel ->
  exists w',
    fetchPaged ep oracle fuel url accessToken w
    = (Returned (concat full ++ array_or_empty last), w')
    /\ requests w'
       = requests w
         ++ ((fun page => (ep, pagedRequest url accessToken page))
               <$> seq 1 (length full + 1))
    /\ length (requests w') = length (requests w) + (length full + 1).
Proof.
  intros Hfull Hpages Hlast Hterm Hfuel.
  eexists. split; [|split].
  - unfold fetchPaged.
    apply (fetchPaged_loop_pages ep oracle url accessToken full last [] 1 fuel w);
      assumption.
  - simpl. by rewrite Nat.add_1_r.
  - unfold logged, pageRequests. cbn [requests].
    rewrite length_app, length_fmap, length_seq. lia.
Qed.

(** C5.  When a page request of [fetchPaged] (the one after a run [full] of
    full pages, possibly the very first) is answered with a non-success
    status, the outcome is an exception and no list: a [GiteaApiError] with
    the response's status, a message made of the body text, or of the status
    text when the body is empty, and the URL of the request that failed. *)
Theorem fetchPaged_raises_api_error {T} (ep : Endpoint)
    (oracle : Request -> FetchResult (JsonArray T)) (url : string)
    (accessToken : option string) (full : list (list T))
    (r : Response (JsonArray T)) (fuel : nat) (w : Net) :
  Forall (fun p => PER_PAGE <= length p) full ->
  (forall i p, full !! i = Some p ->
               page_succeeds oracle url accessToken (1 + i) (IsArray p)) ->
  oracle (pagedRequest url accessToken (1 + length full)) = FetchResolved r ->
  ok r = false ->
  length full < fuel ->
  exists w',
    fetchPaged ep oracle fuel url accessToken w
    = (Thrown
         (plain
            (GiteaApiError (status r)
               ("Gitea API error (" +:+ pretty (status r) +:+ "): "
                  +:+ (if decide (text r = "") then statusText r else text r))
               (Some (req_url (pagedRequest url accessToken (1 + length full)))))),
       w')
    /\ last (requests w') = Some (ep, pagedRequest url accessToken (1 + length full)).
Proof.
  intros Hfull Hpages Hreq Hok Hfuel.
  eexists. split.
  - unfold fetchPaged.
    rewrite (fetchPaged_loop_refused ep oracle url accessToken full r [] 1 fuel w);
      try assumption.
    unfold apiErrorMessage.
    destruct (text r) eqn:Htext; simpl; reflexivity.
  - unfold logged, pageRequests. cbn [requests].
    replace (S (length full)) with (length full + 1) by lia.
    rewrite seq_app, fmap_app, app_assoc. cbn [seq fmap list_fmap].
    by rewrite last_snoc.
Qed.

(** ** Repository discovery *)

Lemma keepFirst_elem seen l r :
  r ∈ keepFirst seen l -> (repo_id r ∉ seen) /\ (r ∈ l).
Proof.
  revert seen. induction l as [|x l IH]; intros seen; simpl.
  - intros H. by apply elem_of_nil in H.
  - destruct (decide (repo_id x ∈ seen)) as [Hin|Hnin].
    + intros H. destruct (IH _ H). split; [done|by right].
    + intros H. apply elem_of_cons in H as [->|H].
      * split; [done|by left].
      * destruct (IH _ H) as [Hs Hl]. split; [set_solver|by right].
Qed.

Lemma keepFirst_NoDup seen l : NoDup (ids (keepFirst seen l)).
Proof.
  revert seen. induction l as [|x l IH]; intros seen; simpl.
  - constructor.
  - destruct (decide (repo_id x ∈ seen)) as [Hin|Hnin]; [apply IH|].
    unfold ids. simpl. constructor; [|apply IH].
    intros Hx. apply list_elem_of_fmap in Hx as (y & Hy & Hin).
    apply keepFirst_elem in Hin as [Hs _]. set_solver.
Qed.

Lemma keepFirst_covers seen l r :
  r ∈ l -> repo_id r ∈ seen \/ repo_id r ∈ ids (keepFirst seen l).
Proof.
  revert seen. induction l as [|x l IH]; intros seen Hr; simpl.
  - by apply elem_of_nil in Hr.
  - apply elem_of_cons in Hr as [->|Hr].
    + destruct (decide (repo_id x ∈ seen)); [by left|right].
      unfold ids. simpl. by left.
    + destruct (decide (repo_id x ∈ seen)) as [Hin|Hnin]; [by apply IH|].
      destruct (IH ({[repo_id x]} ∪ seen) Hr) as [H|H].
      * apply elem_of_union in H as [H|H]; [|by left].
        apply elem_of_singleton in H. right. unfold ids. simpl. rewrite H. by left.
      * right. unfold ids. simpl. by right.
Qed.

Lemma keepFirst_first seen l r :
  r ∈ keepFirst seen l ->
  exists l1 l2, l = l1 ++ r :: l2 /\ repo_id r ∉ ids l1.
Proof.
  revert seen. induction l as [|x l IH]; intros seen; simpl.
  - intros H. by apply elem_of_nil in H.
  - destruct (decide (repo_id x ∈ seen)) as [Hin|Hnin].
    + intros H. destruct (IH _ H) as (l1 & l2 & -> & Hl1).
      exists (x :: l1), l2. split; [done|].
      unfold ids. simpl. intros Hx. apply elem_of_cons in Hx as [Hx|Hx]; [|done].
      apply keepFirst_elem in H as [Hs _]. congruence.
    + intros H. apply elem_of_cons in H as [->|H].
      * exists [], l. split; [done|]. unfold ids. simpl. apply not_elem_of_nil.
      * destruct (IH _ H) as (l1 & l2 & -> & Hl1).
        exists (x :: l1), l2. split; [done|].
        unfold ids. simpl. intros Hx. apply elem_of_cons in Hx as [Hx|Hx]; [|done].
        apply keepFirst_elem in H as [Hs _]. set_solver.
Qed.

Lemma keepFirst_app seen l1 l2 :
  keepFirst seen (l1 ++ l2)
  = keepFirst seen l1 ++ keepFirst (seen ∪ list_to_set (ids l1)) l2.
Proof.
  revert seen. induction l1 as [|x l1 IH]; intros seen; simpl.
  - f_equal. set_solver.
  - destruct (decide (repo_id x ∈ seen)) as [Hin|Hnin].
    + rewrite IH. f_equal. f_equal. set_solver.
    + simpl. rewrite IH. f_equal. f_equal. f_equal. set_solver.
Qed.

Section Discovery.
Context `{server : Server}.

Lemma yielded_app l1 l2 : yielded (l1 ++ l2) = yielded l1 ++ yielded l2.
Proof. unfold yielded. apply flat_map_app. Qed.

Lemma yielded_snoc l e : yielded (l ++ [e]) = yielded l ++ yield e.
Proof. rewrite yielded_app. unfold yielded at 2. simpl. by rewrite app_nil_r. Qed.

Lemma pushRepos_keepFirst data st :
  foldl pushRepo st data
  = {| repos := repos st ++ keepFirst (seenIds st) data;
       seenIds := seenIds st ∪ list_to_set (ids data);
       repos_net := repos_net st |}.
Proof.
  revert st. induction data as [|x data IH]; intros st; simpl.
  - destruct st; simpl. f_equal; [by rewrite app_nil_r|set_solver].
  - rewrite IH. unfold pushRepo.
    destruct (decide (repo_id x ∈ seenIds st)) as [Hin|Hnin]; simpl.
    + f_equal. set_solver.
    + rewrite <- app_assoc. simpl. f_equal. set_solver.
Qed.

Lemma discovered_logged n0 st entry :
  discovered n0 st -> yield entry = [] ->
  discovered n0 (with_net (log_request (fst entry) (snd entry) (repos_net st)) st).
Proof.
  intros (Hn & Hrepos & Hseen) Hy. destruct entry as [ep req].
  unfold discovered, with_net, log_request. cbn [repos seenIds repos_net requests fst snd].
  rewrite length_app, drop_app_le by done.
  rewrite yielded_snoc, Hy, app_nil_r. split; [lia|done].
Qed.

Lemma discovered_pushed n0 st entry :
  discovered n0 st ->
  discovered n0
    (foldl pushRepo (with_net (log_request (fst entry) (snd entry) (repos_net st)) st)
       (yield entry)).
Proof.
  intros (Hn & Hrepos & Hseen). destruct entry as [ep req].
  rewrite pushRepos_keepFirst.
  unfold discovered, with_net, log_request. cbn [repos seenIds repos_net requests fst snd].
  rewrite length_app, drop_app_le by done.
  rewrite yielded_snoc.
  split; [lia|]. split.
  - rewrite keepFirst_app, Hrepos, Hseen. f_equal. f_equal. set_solver.
  - rewrite Hseen. unfold ids. rewrite fmap_app. set_solver.
Qed.

End Discovery.

Lemma logged_logged l1 l2 w : logged l2 (logged l1 w) = logged (l1 ++ l2) w.
Proof. unfold logged. simpl. by rewrite app_assoc. Qed.

Section DiscoveryLoops.
Context `{server : Server}.

Lemma net_call_fetch {B} ep (oracle : Request -> FetchResult B) req st :
  net_call (fetch ep oracle req) st
  = (match oracle req with
     | FetchRejected e => Thrown (plain e)
     | FetchResolved r => Returned r
     end,
     with_net (log_request ep req (repos_net st)) st).
Proof.
  unfold net_call, lift, fetch, with_net. destruct (oracle req); reflexivity.
Qed.

Lemma searchLoop_discovered n0 fuel baseUrl accessToken :
  forall page prevCount st r st',
    discovered n0 st ->
    searchLoop fuel baseUrl accessToken page prevCount st = (r, st') ->
    discovered n0 st'.
Proof.
  induction fuel as [|fuel IH]; intros page prevCount st r st' Hinv Hrun.
  - simpl in Hrun. injection Hrun as <- <-. exact Hinv.
  - cbn [searchLoop] in Hrun. unfold bind at 1 in Hrun.
    rewrite net_call_fetch in Hrun.
    match type of Hrun with context [srv_search ?q] => set (req := q) in * end.
    pose proof (discovered_logged n0 st (EpSearch, req) Hinv) as Hlog.
    pose proof (discovered_pushed n0 st (EpSearch, req) Hinv) as Hpush.
    cbn [yield fst snd] in Hlog, Hpush.
    destruct (srv_search req) as [e|resp] eqn:E.
    + injection Hrun as <- <-. by apply Hlog.
    + destruct (ok resp) eqn:Hok; cbn [negb] in Hrun.
      * unfold response_json in Hrun. destruct (json resp) as [j|] eqn:Hj.
        -- unfold bind at 1, ret at 1 in Hrun.
           unfold bind at 1, pushRepos, modify in Hrun.
           unfold bind at 1, reposLength, bind at 1, get, ret at 1 in Hrun.
           match type of Hrun with
           | context [if ?b then _ else _] => destruct b
           end; [injection Hrun as <- <-; exact Hpush|].
           match type of Hrun with
           | context [if ?b then _ else _] => destruct b
           end; [injection Hrun as <- <-; exact Hpush|].
           match type of Hrun with
           | context [if ?b then _ else _] => destruct b
           end; [injection Hrun as <- <-; exact Hpush|].
           eapply IH; [exact Hpush|exact Hrun].
        -- injection Hrun as <- <-. by apply Hlog.
      * injection Hrun as <- <-. by apply Hlog.
Qed.

Lemma reposLoop_discovered n0 fuel endpoint accessToken :
  forall page st r st',
    discovered n0 st ->
    reposLoop fuel endpoint accessToken page st = (r, st') ->
    discovered n0 st'.
Proof.
  induction fuel as [|fuel IH]; intros page st r st' Hinv Hrun.
  - simpl in Hrun. injection Hrun as <- <-. exact Hinv.
  - cbn [reposLoop] in Hrun. unfold bind at 1 in Hrun.
    rewrite net_call_fetch in Hrun.
    match type of Hrun with context [srv_repos ?q] => set (req := q) in * end.
    pose proof (discovered_logged n0 st (EpRepos, req) Hinv) as Hlog.
    pose proof (discovered_pushed n0 st (EpRepos, req) Hinv) as Hpush.
    cbn [yield fst snd] in Hlog, Hpush.
    destruct (srv_repos req) as [e|resp] eqn:E.
    + injection Hrun as <- <-. by apply Hlog.
    + destruct (ok resp) eqn:Hok; cbn [negb] in Hrun.
      * unfold response_json in Hrun.
        destruct (json resp) as [[|[|x d]]|] eqn:Hj;
          try (injection Hrun as <- <-; by apply Hlog).
        unfold bind at 1, ret at 1 in Hrun.
        unfold bind at 1, reposLength at 1, bind at 1, get, ret at 1 in Hrun.
        unfold bind at 1, pushRepos, modify in Hrun.
        unfold bind at 1, reposLength, bind at 1, get, ret at 1 in Hrun.
        cbn [array_or_empty] in Hpush.
        match type of Hrun with
        | context [if ?b then _ else _] => destruct b
        end; [injection Hrun as <- <-; exact Hpush|].
        eapply IH; [exact Hpush|exact Hrun].
      * injection Hrun as <- <-. by apply Hlog.
Qed.

Lemma orgsLoop_discovered n0 fuel baseUrl accessToken :
  forall allOrgs orgPage st r st',
    discovered n0 st ->
    orgsLoop fuel baseUrl accessToken allOrgs orgPage st = (r, st') ->
    discovered n0 st'.
Proof.
  induction fuel as [|fuel IH]; intros allOrgs orgPage st r st' Hinv Hrun.
  - simpl in Hrun. injection Hrun as <- <-. exact Hinv.
  - cbn [orgsLoop] in Hrun. unfold bind at 1 in Hrun.
    rewrite net_call_fetch in Hrun.
    match type of Hrun with context [srv_orgs ?q] => set (req := q) in * end.
    pose proof (discovered_logged n0 st (EpOrgs, req) Hinv eq_refl) as Hlog.
    cbn [fst snd] in Hlog.
    destruct (srv_orgs req) as [e|resp] eqn:E.
    + injection Hrun as <- <-. exact Hlog.
    + destruct (ok resp) eqn:Hok; cbn [negb] in Hrun.
      * unfold response_json in Hrun.
        destruct (json resp) as [[|[|x d]]|] eqn:Hj;
          try (injection Hrun as <- <-; exact Hlog).
        unfold bind at 1, ret at 1 in Hrun.
        match type of Hrun with
        | context [if ?b then _ else _] => destruct b
        end; [injection Hrun as <- <-; exact Hlog|].
        eapply IH; [exact Hlog|exact Hrun].
      * injection Hrun as <- <-. exact Hlog.
Qed.

Lemma orgReposLoops_discovered n0 fuel baseUrl accessToken :
  forall allOrgs st r st',
    discovered n0 st ->
    orgReposLoops fuel baseUrl accessToken allOrgs st = (r, st') ->
    discovered n0 st'.
Proof.
  induction allOrgs as [|org rest IH]; intros st r st' Hinv Hrun.
  - simpl in Hrun. injection Hrun as <- <-. exact Hinv.
  - cbn [orgReposLoops] in Hrun.
    destruct (Js.or_else (org_username org) (org_name org)) as [orgName|];
      [|by eapply IH].
    destruct (Js.truthy orgName); [|by eapply IH].
    unfold bind at 1 in Hrun.
    match type of Hrun with
    | context [reposLoop ?f ?e ?a ?p st] =>
        destruct (reposLoop f e a p st) as [r1 st1] eqn:E
    end.
    apply reposLoop_discovered with (n0 := n0) in E; [|exact Hinv].
    destruct r1; try (injection Hrun as <- <-; exact E).
    by eapply IH.
Qed.

Lemma fetchAllRepos_body_discovered n0 fuel baseUrl accessToken st r st' :
  discovered n0 st ->
  fetchAllRepos_body fuel baseUrl accessToken st = (r, st') ->
  discovered n0 st' /\ forall rs, r = Returned rs -> rs = repos st'.
Proof.
  intros Hinv Hrun. unfold fetchAllRepos_body in Hrun.
  unfold bind at 1 in Hrun.
  destruct (searchLoop fuel baseUrl accessToken 1 0 st) as [r1 st1] eqn:E1.
  apply searchLoop_discovered with (n0 := n0) in E1; [|exact Hinv].
  destruct r1; try (injection Hrun as <- <-; split; [exact E1|discriminate]).
  assert (Hdone : forall s (r0 : Outcome (list GiteaRepo)) s0,
             discovered n0 s ->
             (st0 <- get ;; ret (repos st0))%comp s = (r0, s0) ->
             discovered n0 s0 /\ forall rs, r0 = Returned rs -> rs = repos s0).
  { intros s r0 s0 Hs Hr. unfold bind, get, ret in Hr. injection Hr as <- <-.
    split; [exact Hs|]. by intros rs [= <-]. }
  destruct accessToken as [token|]; [|by eapply Hdone].
  destruct (Js.truthy token); [|by eapply Hdone].
  unfold bind at 1 in Hrun.
  match type of Hrun with
  | context [reposLoop ?f ?e ?a ?p st1] =>
      destruct (reposLoop f e a p st1) as [r2 st2] eqn:E2
  end.
  apply reposLoop_discovered with (n0 := n0) in E2; [|exact E1].
  destruct r2; try (injection Hrun as <- <-; split; [exact E2|discriminate]).
  unfold bind, try_catch in Hrun.
  destruct (orgsLoop fuel baseUrl token [] 1 st2) as [r3 st3] eqn:E3.
  apply orgsLoop_discovered with (n0 := n0) in E3; [|exact E2].
  destruct r3 as [allOrgs|e|].
  - destruct (orgReposLoops fuel baseUrl token allOrgs st3) as [r4 st4] eqn:E4.
    apply orgReposLoops_discovered with (n0 := n0) in E4; [|exact E3].
    destruct r4 as [[]|e|]; cbn in Hrun.
    + eapply Hdone; [exact E4|exact Hrun].
    + eapply Hdone; [exact E4|exact Hrun].
    + injection Hrun as <- <-. split; [exact E4|discriminate].
  - cbn in Hrun. eapply Hdone; [exact E3|exact Hrun].
  - injection Hrun as <- <-. split; [exact E3|discriminate].
Qed.

End DiscoveryLoops.

(** Whenever [fetchAllRepos] returns, its array is the sequence of the pages
    answered to the requests it logged, with only the first element of every
    repository id kept. *)
Lemma returned_repos_keep_first_of_log `{server : Server}
    (fuel : nat) (baseUrl : string) (accessToken : option string)
    (w w' : Net) (rs : list GiteaRepo) :
  fetchAllRepos fuel baseUrl accessToken w = (Returned rs, w') ->
  let pages := yielded (drop (length (requests w)) (requests w')) in
  NoDup (repo_id <$> rs)
  /\ (forall r, r ∈ pages -> repo_id r ∈ repo_id <$> rs)
  /\ (forall r, r ∈ rs ->
        exists before after,
          pages = before ++ r :: after /\ repo_id r ∉ repo_id <$> before).
Proof.
  intros Hrun pages. unfold fetchAllRepos in Hrun.
  destruct (fetchAllRepos_body fuel baseUrl accessToken
              {| repos := []; seenIds := ∅; repos_net := w |}) as [r st] eqn:E.
  injection Hrun as -> <-.
  apply fetchAllRepos_body_discovered with (n0 := length (requests w)) in E.
  - destruct E as [(_ & Hrepos & _) Hrs]. specialize (Hrs rs eq_refl).
    fold pages in Hrepos. rewrite Hrs, Hrepos. split; [|split].
    + apply keepFirst_NoDup.
    + intros r0 Hr0. destruct (keepFirst_covers ∅ pages r0 Hr0) as [H|H]; [|exact H].
      by apply not_elem_of_empty in H.
    + intros r0 Hr0. by apply keepFirst_first in Hr0.
  - unfold discovered. simpl. rewrite drop_all. simpl. split; [lia|done].
Qed.

(** ** Repository discovery: the pages served *)

Lemma keepFirst_length seen l :
  length (keepFirst seen l) + size seen = size (seen ∪ list_to_set (ids l)).
Proof.
  revert seen. induction l as [|r l IH]; intros seen; cbn [keepFirst].
  - cbn. by rewrite (right_id_L ∅ (∪)).
  - assert (Hset : list_to_set (ids (r :: l))
                   = ({[repo_id r]} ∪ list_to_set (ids l) : gset Z)) by reflexivity.
    rewrite Hset. destruct (decide (repo_id r ∈ seen)) as [Hin|Hout].
    + rewrite IH. f_equal. set_solver.
    + cbn [length]. specialize (IH ({[repo_id r]} ∪ seen)).
      rewrite size_union in IH by set_solver. rewrite size_singleton in IH.
      replace (seen ∪ ({[repo_id r]} ∪ list_to_set (ids l)))
        with ({[repo_id r]} ∪ seen ∪ list_to_set (ids l)) by set_solver.
      lia.
Qed.

Lemma collected_length handed st : collected handed st -> length (repos st) = distinct handed.
Proof.
  intros [-> _]. pose proof (keepFirst_length ∅ handed) as H.
  rewrite size_empty, (left_id_L ∅ (∪)) in H. unfold distinct. fold (ids handed). lia.
Qed.

Lemma collected_pushed handed data w st :
  collected handed st -> collected (handed ++ data) (foldl pushRepo (with_net w st) data).
Proof.
  intros [Hrepos Hseen]. rewrite pushRepos_keepFirst. unfold collected. cbn.
  rewrite Hrepos, Hseen, keepFirst_app, (left_id_L ∅ (∪)). split; [reflexivity|].
  unfold ids. by rewrite fmap_app, list_to_set_app_L.
Qed.

Lemma collected_with_net handed w st : collected handed st -> collected handed (with_net w st).
Proof. intros H. exact H. Qed.

Lemma bringsNew_spec before data :
  bringsNew before data = true
  <-> exists repo, repo ∈ data /\ repo_id repo ∉ repo_id <$> before.
Proof.
  unfold bringsNew. rewrite existsb_exists. split.
  - intros (repo & Hin & Hnew). exists repo. split; [by apply list_elem_of_In|].
    by apply negb_true_iff, bool_decide_eq_false in Hnew.
  - intros (repo & Hin & Hnew). exists repo. split; [by apply list_elem_of_In|].
    by apply negb_true_iff, bool_decide_eq_false.
Qed.

Lemma distinct_grows before data :
  (distinct (before ++ data) =? distinct before)%nat = negb (bringsNew before data).
Proof.
  unfold distinct. rewrite fmap_app, list_to_set_app_L.
  set (B := list_to_set (repo_id <$> before) : gset Z).
  set (D := list_to_set (repo_id <$> data) : gset Z).
  destruct (bringsNew before data) eqn:Hnew; cbn [negb].
  - apply bringsNew_spec in Hnew as (repo & Hin & Hout).
    apply Nat.eqb_neq. assert (Hsub : B ⊂ B ∪ D).
    { split; [set_solver|]. intros Hall.
      apply Hout. assert (Hid : repo_id repo ∈ B ∪ D).
      { apply elem_of_union_r, elem_of_list_to_set, list_elem_of_fmap. by exists repo. }
      apply Hall in Hid. by apply elem_of_list_to_set in Hid. }
    apply subset_size in Hsub. lia.
  - apply Nat.eqb_eq. f_equal. apply set_eq. intros x. split; [|set_solver].
    intros [Hx|Hx]%elem_of_union; [done|].
    apply elem_of_list_to_set, list_elem_of_fmap in Hx as (repo & -> & Hin).
    destruct (decide (repo_id repo ∈ repo_id <$> before)) as [Hb|Hb].
    + by apply elem_of_list_to_set.
    + assert (bringsNew before data = true) by (apply bringsNew_spec; by exists repo).
      congruence.
Qed.

Section DiscoveryPages.
Context `{server : Server}.
Context (baseUrl : string).

Lemma reposLoop_serves endpoint token :
  forall pages fuel page before st,
    reposServes endpoint token page before pages ->
    length pages <= fuel ->
    collected before st ->
    exists st',
      reposLoop fuel endpoint token page st = (Returned tt, st')
      /\ collected (before ++ concat pages) st'
      /\ repos_net st'
         = logged (reposRequest endpoint token <$> seq page (length pages)) (repos_net st).
Proof.
  induction pages as [|data rest IH]; intros fuel page before st Hserves Hfuel Hcol;
    [destruct Hserves|].
  destruct fuel as [|fuel]; [cbn in Hfuel; lia|].
  cbn [reposServes] in Hserves. destruct Hserves as [(response & Hanswer & Hpage) Hnext].
  cbn [reposLoop]. unfold bind at 1. rewrite net_call_fetch.
  unfold reposRequest in Hanswer. cbn [snd] in Hanswer. rewrite Hanswer.
  set (st1 := with_net _ st).
  assert (Hcol1 : collected before st1) by exact Hcol.
  assert (Hnet1 : repos_net st1
                  = logged [reposRequest endpoint token page] (repos_net st))
    by reflexivity.
  assert (Hstop : bringsNew before data = false ->
            forall st2, collected (before ++ data) st2 -> repos_net st2 = repos_net st1 ->
            exists st',
              (Returned tt, st2) = (Returned tt, st')
              /\ collected (before ++ concat (data :: rest)) st'
              /\ repos_net st'
                 = logged (reposRequest endpoint token <$> seq page (length (data :: rest)))
                     (repos_net st)).
  { intros Hnone st2 Hcol2 Hnet2. destruct rest as [|next rest]; [|destruct Hnext; congruence].
    exists st2. split; [reflexivity|]. cbn. rewrite app_nil_r. split; [exact Hcol2|].
    rewrite Hnet2, Hnet1. reflexivity. }
  assert (Hempty : data = [] ->
            exists st',
              (Returned tt, st1) = (Returned tt, st')
              /\ collected (before ++ concat (data :: rest)) st'
              /\ repos_net st'
                 = logged (reposRequest endpoint token <$> seq page (length (data :: rest)))
                     (repos_net st)).
  { intros ->. apply Hstop; [reflexivity| |reflexivity]. by rewrite app_nil_r. }
  unfold pageOf in Hpage. destruct (ok response) eqn:Hok; cbn [negb].
  - destruct (json response) as [body|] eqn:Hjson; [|discriminate Hpage].
    cbn in Hpage. injection Hpage as Hdata.
    unfold response_json. rewrite Hjson. unfold bind at 1, ret at 1.
    destruct body as [|[|x d]]; cbn in Hdata; [by apply Hempty..|].
    subst data.
    unfold bind at 1, reposLength, bind at 1, get, ret at 1.
    unfold bind at 1, pushRepos, modify.
    unfold bind at 1, bind at 1, get, ret at 1.
    pose proof (collected_pushed before (x :: d) (repos_net st1) st Hcol) as Hcol2.
    change (with_net (repos_net st1) st) with st1 in Hcol2.
    set (st2 := foldl pushRepo st1 (x :: d)) in *.
    rewrite (collected_length _ _ Hcol1), (collected_length _ _ Hcol2), distinct_grows.
    assert (Hnet2 : repos_net st2 = repos_net st1)
      by (unfold st2; by rewrite pushRepos_keepFirst).
    destruct (bringsNew before (x :: d)) eqn:Hnew; cbn [negb].
    + destruct rest as [|next rest]; [congruence|]. destruct Hnext as [_ Hnext].
      rewrite Nat.add_1_r.
      destruct (IH fuel (S page) (before ++ x :: d) st2 Hnext) as (st' & Hrun & Hcol' & Hnet');
        [cbn in Hfuel |- *; lia|exact Hcol2|].
      exists st'. split; [exact Hrun|]. split.
      * cbn [concat]. by rewrite app_assoc.
      * rewrite Hnet', Hnet2, Hnet1, logged_logged. reflexivity.
    + by apply Hstop.
  - injection Hpage as <-. by apply Hempty.
Qed.

Lemma searchLoop_serves accessToken :
  forall pages fuel page before st,
    searchServes baseUrl accessToken page before pages ->
    length pages <= fuel ->
    collected before st ->
    exists st',
      searchLoop fuel baseUrl accessToken page (distinct before) st = (Returned tt, st')
      /\ collected (before ++ concat (fst <$> pages)) st'
      /\ repos_net st'
         = logged (searchRequest baseUrl accessToken <$> seq page (length pages))
             (repos_net st).
Proof.
  induction pages as [|[data total] rest IH]; intros fuel page before st Hserves Hfuel Hcol;
    [destruct Hserves|].
  destruct fuel as [|fuel]; [cbn in Hfuel; lia|].
  cbn [searchServes] in Hserves.
  destruct Hserves as [(response & body & Hanswer & Hok & Hjson & Hdata & Htotal) Hnext].
  cbn [searchLoop]. unfold bind at 1. rewrite net_call_fetch.
  unfold searchRequest in Hanswer. cbn [snd] in Hanswer. rewrite Hanswer, Hok. cbn [negb].
  unfold response_json. rewrite Hjson. unfold bind at 1, ret at 1.
  rewrite Hdata, Htotal.
  set (st1 := with_net _ st).
  assert (Hnet1 : repos_net st1
                  = logged [searchRequest baseUrl accessToken page] (repos_net st))
    by reflexivity.
  unfold bind at 1, pushRepos, modify.
  unfold bind at 1, reposLength, bind at 1, get, ret at 1.
  pose proof (collected_pushed before data (repos_net st1) st Hcol) as Hcol2.
  change (with_net (repos_net st1) st) with st1 in Hcol2.
  set (st2 := foldl pushRepo st1 data) in *.
  assert (Hnet2 : repos_net st2 = repos_net st1)
    by (unfold st2; by rewrite pushRepos_keepFirst).
  rewrite (collected_length _ _ Hcol2), distinct_grows.
  fold (reached total (before ++ data)).
  assert (Hstop : exists st',
            (Returned tt, st2) = (Returned tt, st')
            /\ collected (before ++ data ++ []) st'
            /\ repos_net st' = logged [searchRequest baseUrl accessToken page] (repos_net st)).
  { exists st2. split; [reflexivity|]. rewrite app_nil_r. split; [exact Hcol2|].
    by rewrite Hnet2. }
  destruct rest as [|next rest].
  - cbn [fmap list_fmap concat fst length seq].
    destruct (length data =? 0)%nat; [exact Hstop|].
    destruct (reached total (before ++ data)); [exact Hstop|].
    rewrite andb_true_r in Hnext. rewrite Hnext. exact Hstop.
  - destruct Hnext as [Hgoing Hnext]. apply andb_true_iff in Hgoing as [Hnew Hreached].
    apply negb_true_iff in Hreached.
    destruct data as [|x d]; [discriminate Hnew|]. cbn [length Nat.eqb].
    rewrite Hreached, Hnew. cbn [negb]. rewrite Nat.add_1_r.
    destruct (IH fuel (S page) (before ++ x :: d) st2 Hnext) as (st' & Hrun & Hcol' & Hnet');
      [cbn in Hfuel |- *; lia|exact Hcol2|].
    exists st'. split; [exact Hrun|]. split.
    + cbn [fmap list_fmap concat fst]. by rewrite app_assoc.
    + rewrite Hnet', Hnet2, Hnet1, logged_logged. reflexivity.
Qed.

Lemma orgsLoop_serves token :
  forall pages fuel page allOrgs st,
    orgsServes baseUrl token page pages ->
    length pages <= fuel ->
    orgsLoop fuel baseUrl token allOrgs page st
    = (Returned (allOrgs ++ concat pages),
       with_net (logged (orgsRequest baseUrl token <$> seq page (length pages))
                   (repos_net st)) st).
Proof.
  induction pages as [|orgs rest IH]; intros fuel page allOrgs st Hserves Hfuel;
    [destruct Hserves|].
  destruct fuel as [|fuel]; [cbn in Hfuel; lia|].
  cbn [orgsServes] in Hserves. destruct Hserves as [(response & Hanswer & Hpage) Hnext].
  cbn [orgsLoop]. unfold bind at 1. rewrite net_call_fetch.
  unfold orgsRequest in Hanswer. cbn [snd] in Hanswer. rewrite Hanswer.
  assert (Hempty : orgs = [] ->
            (Returned allOrgs,
             with_net (log_request EpOrgs (snd (orgsRequest baseUrl token page))
                         (repos_net st)) st)
            = (Returned (allOrgs ++ concat (orgs :: rest)),
               with_net (logged (orgsRequest baseUrl token
                                   <$> seq page (length (orgs :: rest)))
                           (repos_net st)) st)).
  { intros ->. destruct rest as [|next rest]; [|by destruct Hnext].
    cbn. by rewrite app_nil_r. }
  unfold pageOf in Hpage. destruct (ok response) eqn:Hok; cbn [negb].
  - destruct (json response) as [body|] eqn:Hjson; [|discriminate Hpage].
    cbn in Hpage. injection Hpage as Hdata.
    unfold response_json. rewrite Hjson. unfold bind at 1, ret at 1.
    destruct body as [|[|x os]]; cbn in Hdata; [by apply Hempty..|].
    subst orgs. destruct rest as [|next rest].
    + rewrite Hnext. cbn. by rewrite app_nil_r.
    + destruct Hnext as [Hfull Hnext]. rewrite Hfull, Nat.add_1_r.
      rewrite (IH fuel (S page) (allOrgs ++ x :: os) _ Hnext) by (cbn in Hfuel |- *; lia).
      cbn [concat]. f_equal.
      * f_equal. by rewrite <- !app_assoc.
      * unfold with_net, logged, log_request. cbn. by rewrite <- app_assoc.
  - injection Hpage as <-. by apply Hempty.
Qed.

Lemma orgReposLoops_serve token fuel :
  forall orgs pagesOf before st,
    orgReposServe baseUrl token before (omap orgNameOf orgs) pagesOf ->
    Forall (fun pages => length pages <= fuel) pagesOf ->
    collected before st ->
    exists st',
      orgReposLoops fuel baseUrl token orgs st = (Returned tt, st')
      /\ collected (before ++ concat (concat pagesOf)) st'
      /\ repos_net st'
         = logged (orgReposRequests baseUrl token (omap orgNameOf orgs) pagesOf)
             (repos_net st).
Proof.
  induction orgs as [|org rest IH]; intros pagesOf before st Hserves Hfuel Hcol.
  - destruct pagesOf as [|pages pagesOf]; [|destruct Hserves].
    exists st. split; [reflexivity|]. cbn. rewrite app_nil_r. split; [exact Hcol|].
    by rewrite logged_nil.
  - cbn [orgReposLoops]. cbn [omap list_omap] in Hserves |- *.
    unfold orgNameOf at 1 in Hserves. unfold orgNameOf at 1.
    destruct (Js.or_else (org_username org) (org_name org)) as [orgName|];
      [|by apply IH].
    destruct (Js.truthy orgName); [|by apply IH].
    destruct pagesOf as [|pages pagesOf]; [destruct Hserves|].
    cbn [orgReposServe] in Hserves. destruct Hserves as [Hpages Hserves].
    apply Forall_cons in Hfuel as [Hfuel1 Hfuel].
    destruct (reposLoop_serves (orgReposEndpoint baseUrl orgName) token pages fuel 1
                before st Hpages Hfuel1 Hcol) as (st1 & Hrun1 & Hcol1 & Hnet1).
    destruct (IH pagesOf (before ++ concat pages) st1 Hserves Hfuel Hcol1)
      as (st' & Hrun & Hcol' & Hnet').
    exists st'. split; [|split].
    + unfold orgReposEndpoint in Hrun1. by rewrite (bind_returned _ _ _ _ _ Hrun1).
    + cbn [concat]. by rewrite concat_app, app_assoc.
    + rewrite Hnet', Hnet1, logged_logged. reflexivity.
Qed.

End DiscoveryPages.

(** C3.  When the three sources serve their pages (the search, and to a
    client with a token the user's repositories, the list of organisations
    and the repositories of every organisation that has a name), each source
    going on for as long as its pages bring repositories that are new,
    [fetchAllRepos] returns, after exactly the requests for these pages in
    the order of the sources.  Its array has no id twice, has every id that
    was handed out, and the element it holds for an id is the earliest one
    handed out with that id: the copy of the earliest source, and of the
    earliest page within it. *)
Theorem fetchAllRepos_keeps_first_copy_of_each_id `{server : Server}
    (fuel : nat) (baseUrl : string) (accessToken : option string) (w : Net)
    (searchPages : list (list GiteaRepo * option Z)) (userPages : list (list GiteaRepo))
    (orgPages : list (list GiteaOrg)) (orgRepoPages : list (list (list GiteaRepo))) :
  discoveryServes baseUrl accessToken searchPages userPages orgPages orgRepoPages ->
  pagesWithin fuel searchPages userPages orgPages orgRepoPages ->
  let pages := handedOut searchPages userPages orgRepoPages in
  exists rs,
    fetchAllRepos fuel baseUrl accessToken w
    = (Returned rs,
       logged (discoveryRequests baseUrl accessToken searchPages userPages orgPages
                 orgRepoPages) w)
    /\ NoDup (repo_id <$> rs)
    /\ (forall r, r ∈ pages -> repo_id r ∈ repo_id <$> rs)
    /\ (forall r, r ∈ rs ->
          exists before after,
            pages = before ++ r :: after /\ repo_id r ∉ repo_id <$> before).
Proof.
  intros [Hsearch Hlater] (Hfuel1 & Hfuel2 & Hfuel3 & Hfuel4) pages.
  assert (Hkeep : forall rs, rs = keepFirst ∅ pages ->
            NoDup (repo_id <$> rs)
            /\ (forall r, r ∈ pages -> repo_id r ∈ repo_id <$> rs)
            /\ (forall r, r ∈ rs ->
                  exists before after,
                    pages = before ++ r :: after /\ repo_id r ∉ repo_id <$> before)).
  { intros rs ->. split; [apply keepFirst_NoDup|]. split.
    - intros r Hr. destruct (keepFirst_covers ∅ pages r Hr) as [H|H]; [|exact H].
      by apply not_elem_of_empty in H.
    - intros r Hr. by apply keepFirst_first in Hr. }
  set (st0 := {| repos := []; seenIds := ∅; repos_net := w |}).
  assert (Hcol0 : collected [] st0) by (split; reflexivity).
  destruct (searchLoop_serves baseUrl accessToken searchPages fuel 1 [] st0
              Hsearch Hfuel1 Hcol0) as (st1 & Hrun1 & Hcol1 & Hnet1).
  assert (H0 : distinct [] = 0) by (vm_compute; reflexivity).
  rewrite H0 in Hrun1. cbn [app] in Hcol1.
  unfold fetchAllRepos, fetchAllRepos_body. fold st0.
  rewrite (bind_returned _ _ _ _ _ Hrun1).
  unfold discoveryRequests, handedOut in *.
  destruct (Js.truthy_opt accessToken) eqn:Htoken.
  - destruct accessToken as [token|]; [|discriminate Htoken].
    cbn [Js.truthy_opt] in Htoken. rewrite Htoken. cbn [default] in *.
    destruct Hlater as (Huser & Horgs & Horgrepos).
    destruct (reposLoop_serves (userReposEndpoint baseUrl) token userPages fuel 1 _ st1
                Huser Hfuel2 Hcol1) as (st2 & Hrun2 & Hcol2 & Hnet2).
    unfold userReposEndpoint in Hrun2. rewrite (bind_returned _ _ _ _ _ Hrun2).
    pose proof (orgsLoop_serves baseUrl token orgPages fuel 1 [] st2 Horgs Hfuel3)
      as Hrun3.
    cbn [app] in Hrun3.
    set (st3 := with_net _ st2) in Hrun3.
    assert (Hcol3 : collected (concat (fst <$> searchPages) ++ concat userPages) st3)
      by exact Hcol2.
    destruct (orgReposLoops_serve baseUrl token fuel (concat orgPages) orgRepoPages _ st3
                Horgrepos Hfuel4 Hcol3) as (st4 & Hrun4 & Hcol4 & Hnet4).
    assert (Hphase : try_catch
                       (allOrgs <- orgsLoop fuel baseUrl token [] 1 ;;
                        orgReposLoops fuel baseUrl token allOrgs)
                       (fun _ => ret tt) st2 = (Returned tt, st4)).
    { unfold try_catch. by rewrite (bind_returned _ _ _ _ _ Hrun3), Hrun4. }
    rewrite (bind_returned _ _ _ _ _ Hphase).
    exists (repos st4). split.
    + unfold bind, get, ret. cbn [fst snd]. f_equal.
      rewrite Hnet4. unfold st3. cbn [repos_net with_net].
      rewrite Hnet2, Hnet1. cbn [repos_net st0]. by rewrite !logged_logged.
    + apply Hkeep. destruct Hcol4 as [-> _]. subst pages. by rewrite app_assoc.
  - assert (Hrest : (st <- get ;; ret (repos st)) st1 = (Returned (repos st1), st1))
      by reflexivity.
    destruct Hlater as (-> & -> & ->).
    exists (repos st1). split.
    + destruct accessToken as [token|]; [cbn [Js.truthy_opt] in Htoken; rewrite Htoken|];
        rewrite Hrest, Hnet1; cbn; by rewrite !app_nil_r.
    + apply Hkeep. destruct Hcol1 as [-> _]. subst pages. cbn. by rewrite !app_nil_r.
Qed.


(** ** The request log only grows *)

Lemma grows_ret {S A} (net : S -> Net) (a : A) : grows net (ret a).
Proof. intros s. exists []. simpl. by rewrite app_nil_r. Qed.

Lemma grows_throw {S A} (net : S -> Net) e : grows net (@throw S A e).
Proof. intros s. exists []. simpl. by rewrite app_nil_r. Qed.

Lemma grows_out_of_fuel {S A} (net : S -> Net) : grows net (@out_of_fuel S A).
Proof. intros s. exists []. simpl. by rewrite app_nil_r. Qed.

Lemma grows_get {S} (net : S -> Net) : grows net (@get S).
Proof. intros s. exists []. simpl. by rewrite app_nil_r. Qed.

Lemma grows_modify {S} (net : S -> Net) (f : S -> S) :
  (forall s, net (f s) = net s) -> grows net (modify f).
Proof. intros Hf s. exists []. simpl. by rewrite Hf, app_nil_r. Qed.

Lemma grows_bind {S A B} (net : S -> Net) (m : M S A) (k : A -> M S B) :
  grows net m -> (forall a, grows net (k a)) -> grows net (bind m k).
Proof.
  intros Hm Hk s. unfold bind. destruct (Hm s) as [l Hl].
  destruct (m s) as [[a|e|] s1]; simpl in Hl; try by exists l.
  destruct (Hk a s1) as [l' Hl']. exists (l ++ l').
  by rewrite Hl', Hl, app_assoc.
Qed.

Lemma grows_try_catch {S A} (net : S -> Net) (m : M S A) (h : Exn -> M S A) :
  grows net m -> (forall e, grows net (h e)) -> grows net (try_catch m h).
Proof.
  intros Hm Hh s. unfold try_catch. destruct (Hm s) as [l Hl].
  destruct (m s) as [[a|e|] s1]; simpl in Hl; try by exists l.
  destruct (Hh e s1) as [l' Hl']. exists (l ++ l').
  by rewrite Hl', Hl, app_assoc.
Qed.

Lemma grows_lift {S T A} (net : T -> Net) (proj : T -> S) (upd : S -> T -> T)
    (inner : S -> Net) (m : M S A) :
  (forall t, net t = inner (proj t)) ->
  (forall s t, proj (upd s t) = s) ->
  grows inner m -> grows net (lift proj upd m).
Proof.
  intros Hnet Hupd Hm t. unfold lift. destruct (Hm (proj t)) as [l Hl].
  destruct (m (proj t)) as [r s']. simpl in *. exists l.
  by rewrite !Hnet, Hupd.
Qed.

Lemma grows_fetch {B} ep (oracle : Request -> FetchResult B) req :
  grows id (fetch ep oracle req).
Proof.
  intros w. exists [(ep, req)]. unfold fetch. by destruct (oracle req).
Qed.

Lemma grows_response_json {S B} (net : S -> Net) (r : Response B) :
  grows net (response_json r).
Proof.
  unfold response_json. destruct (json r); [apply grows_ret|apply grows_throw].
Qed.

Lemma grows_Date_now `{P : Platform} : grows id Date_now.
Proof. intros w. exists []. simpl. by rewrite app_nil_r. Qed.

Lemma grows_settle {S A} (net : S -> Net) (m : M S A) :
  grows net m -> grows net (settle m).
Proof.
  intros Hm s. unfold settle. destruct (Hm s) as [l Hl].
  destruct (m s) as [[a|e|] s1]; by exists l.
Qed.

(** One step of a proof that a computation only appends to the log. *)
Ltac grows_step :=
  first
    [ assumption
    | apply grows_ret | apply grows_throw | apply grows_out_of_fuel
    | apply grows_get | apply grows_response_json
    | apply grows_fetch | apply grows_Date_now
    | apply grows_modify; intros []; reflexivity
    | apply grows_bind; [|intros ?]
    | apply grows_try_catch; [|intros ?]
    | apply grows_settle
    | match goal with
      | |- grows _ (if ?b then _ else _) => destruct b
      | |- grows _ (match ?x with _ => _ end) => destruct x
      | |- grows _ (let (_, _) := ?x in _) => destruct x
      end ].

Lemma grows_fetchPaged_loop {T} ep (oracle : Request -> FetchResult (JsonArray T))
    fuel url accessToken :
  forall items page, grows id (fetchPaged_loop ep oracle fuel url accessToken items page).
Proof.
  induction fuel as [|fuel IH]; intros items page; cbn [fetchPaged_loop].
  - apply grows_out_of_fuel.
  - repeat grows_step. apply IH.
Qed.

Lemma grows_fetchPaged {T} ep (oracle : Request -> FetchResult (JsonArray T))
    fuel url accessToken :
  grows id (fetchPaged ep oracle fuel url accessToken).
Proof. apply grows_fetchPaged_loop. Qed.

Section Growth.
Context `{P : Platform} `{server : Server}.

Lemma grows_net_call {A} (m : M Net A) : grows id m -> grows repos_net (net_call m).
Proof. intros Hm. unfold net_call. by apply (grows_lift _ _ _ id). Qed.

Lemma grows_scan_call {A} (m : M Net A) : grows id m -> grows scan_net (scan_call m).
Proof. intros Hm. unfold scan_call. by apply (grows_lift _ _ _ id). Qed.

Lemma grows_pushRepos data : grows repos_net (pushRepos data).
Proof.
  intros st. exists []. unfold pushRepos, modify. simpl.
  rewrite pushRepos_keepFirst. simpl. by rewrite app_nil_r.
Qed.

Lemma grows_reposLength : grows repos_net reposLength.
Proof. unfold reposLength. repeat grows_step. Qed.

Lemma grows_searchLoop fuel baseUrl accessToken :
  forall page prevCount,
    grows repos_net (searchLoop fuel baseUrl accessToken page prevCount).
Proof.
  induction fuel as [|fuel IH]; intros page prevCount; cbn [searchLoop].
  - apply grows_out_of_fuel.
  - apply grows_bind; [apply grows_net_call, grows_fetch|intros response].
    destruct (negb (ok response)); [apply grows_throw|].
    apply grows_bind; [apply grows_response_json|intros j].
    apply grows_bind; [apply grows_pushRepos|intros _].
    apply grows_bind; [apply grows_reposLength|intros count].
    repeat grows_step. apply IH.
Qed.

Lemma grows_reposLoop fuel endpoint accessToken :
  forall page, grows repos_net (reposLoop fuel endpoint accessToken page).
Proof.
  induction fuel as [|fuel IH]; intros page; cbn [reposLoop].
  - apply grows_out_of_fuel.
  - apply grows_bind; [apply grows_net_call, grows_fetch|intros response].
    destruct (negb (ok response)); [apply grows_ret|].
    apply grows_bind; [apply grows_response_json|intros data].
    destruct data as [|[|x d]]; try apply grows_ret.
    apply grows_bind; [apply grows_reposLength|intros beforeCount].
    apply grows_bind; [apply grows_pushRepos|intros _].
    apply grows_bind; [apply grows_reposLength|intros count].
    destruct (count =? beforeCount)%nat; [apply grows_ret|apply IH].
Qed.

Lemma grows_orgsLoop fuel baseUrl accessToken :
  forall allOrgs orgPage,
    grows repos_net (orgsLoop fuel baseUrl accessToken allOrgs orgPage).
Proof.
  induction fuel as [|fuel IH]; intros allOrgs orgPage; cbn [orgsLoop].
  - apply grows_out_of_fuel.
  - apply grows_bind; [apply grows_net_call, grows_fetch|intros response].
    destruct (negb (ok response)); [apply grows_ret|].
    apply grows_bind; [apply grows_response_json|intros data].
    destruct data as [|[|x d]]; try apply grows_ret.
    match goal with |- grows _ (if ?b then _ else _) => destruct b end;
      [apply grows_ret|apply IH].
Qed.

Lemma grows_orgReposLoops fuel baseUrl accessToken allOrgs :
  grows repos_net (orgReposLoops fuel baseUrl accessToken allOrgs).
Proof.
  induction allOrgs as [|org rest IH]; cbn [orgReposLoops].
  - apply grows_ret.
  - destruct (Js.or_else (org_username org) (org_name org)); [|exact IH].
    destruct (Js.truthy s); [|exact IH].
    apply grows_bind; [apply grows_reposLoop|intros _; exact IH].
Qed.

Lemma grows_fetchAllRepos fuel baseUrl accessToken :
  grows id (fetchAllRepos fuel baseUrl accessToken).
Proof.
  assert (Hbody : grows repos_net (fetchAllRepos_body fuel baseUrl accessToken)).
  { unfold fetchAllRepos_body.
    apply grows_bind; [apply grows_searchLoop|intros _].
    destruct accessToken as [token|]; [|repeat grows_step].
    destruct (Js.truthy token); [|repeat grows_step].
    apply grows_bind; [apply grows_reposLoop|intros _].
    apply grows_bind; [|intros _; repeat grows_step].
    apply grows_try_catch; [|intros _; apply grows_ret].
    apply grows_bind; [apply grows_orgsLoop|intros allOrgs].
    apply grows_orgReposLoops. }
  intros w. unfold fetchAllRepos.
  destruct (Hbody {| repos := []; seenIds := ∅; repos_net := w |}) as [l Hl].
  destruct (fetchAllRepos_body _ _ _ _) as [r st]. by exists l.
Qed.

Lemma grows_fetchCurrentUser baseUrl accessToken :
  grows id (fetchCurrentUser baseUrl accessToken).
Proof. unfold fetchCurrentUser. repeat grows_step. Qed.

Lemma grows_scanRepo fuel apiBase accessToken currentUser repo idx :
  grows scan_net (scanRepo fuel apiBase accessToken currentUser repo idx).
Proof.
  unfold scanRepo. destruct (ownerAndName (full_name repo)) as [[owner name]|];
    [|apply grows_ret].
  apply grows_try_catch.
  - apply grows_bind; [|intros pulls; apply grows_ret].
    apply grows_scan_call, grows_fetchPaged.
  - intros err. repeat grows_step.
Qed.

Lemma grows_mapWithConcurrency_from {S T R} (net : S -> Net) (fn : T -> nat -> M S R)
    (items : list T) :
  (forall item idx, grows net (fn item idx)) ->
  forall idx, grows net (mapWithConcurrency_from items fn idx).
Proof.
  intros Hfn. induction items as [|item rest IH]; intros idx;
    cbn [mapWithConcurrency_from].
  - apply grows_ret.
  - apply grows_bind; [apply Hfn|intros r].
    apply grows_bind; [apply IH|intros rs; apply grows_ret].
Qed.

Lemma grows_scanRepos fuel apiBase accessToken currentUser rs :
  grows id (scanRepos fuel apiBase accessToken currentUser rs).
Proof.
  intros w. unfold scanRepos, mapWithConcurrency.
  destruct (grows_mapWithConcurrency_from scan_net
              (scanRepo fuel apiBase accessToken currentUser) rs
              (grows_scanRepo fuel apiBase accessToken currentUser) 0
              {| perRepoFailures := 0; scan_net := w |}) as [l Hl].
  destruct (mapWithConcurrency_from _ _ _ _) as [r st]. by exists l.
Qed.

End Growth.

(** ** The pull-request inbox: choice of the mode *)

Lemma is404_spec {A} (r : Settled A) : is404 r = true <-> rejected404 r.
Proof.
  unfold rejected404. split.
  - destruct r as [v|[[st m u|n m] d]]; simpl; try discriminate.
    intros H. apply Z.eqb_eq in H. subst st. by exists m, u, d.
  - intros (m & u & d & ->). reflexivity.
Qed.

Lemma any404_spec {A B} (c : Settled A) (r : Settled B) :
  any404 c r = true <-> rejected404 c \/ rejected404 r.
Proof.
  unfold any404. rewrite orb_true_iff, !is404_spec. reflexivity.
Qed.

Section Mode.
Context `{P : Platform} `{server : Server}.

Lemma fetchCurrentUser_returns baseUrl accessToken w :
  exists u, fetchCurrentUser baseUrl accessToken w
            = (Returned u, log_request EpUser (snd (userRequest baseUrl accessToken)) w).
Proof.
  unfold fetchCurrentUser, try_catch, bind, fetch, userRequest. simpl.
  destruct (srv_user _) as [e|r]; [by eexists|].
  destruct (ok r); simpl; [|by eexists].
  unfold response_json. destruct (json r); by eexists.
Qed.

Lemma fallbackInbox_requests_user fuel baseUrl accessToken dbg createdResult reviewResult w :
  exists rest,
    requests (snd (fallbackInbox fuel baseUrl accessToken dbg createdResult reviewResult w))
    = requests w ++ userRequest baseUrl accessToken :: rest.
Proof.
  unfold fallbackInbox.
  destruct (fetchCurrentUser_returns baseUrl accessToken w) as [u Hu].
  rewrite (bind_returned _ _ _ _ _ Hu).
  match goal with
  | |- context [snd (?k (log_request _ _ w))] =>
      assert (Hk : grows id k)
  end.
  { destruct u as [currentUser|]; [|apply grows_throw].
    apply grows_bind; [apply grows_fetchAllRepos|intros rs].
    apply grows_bind; [apply grows_scanRepos|intros [perRepo failures]].
    apply grows_bind; [apply grows_Date_now|intros finished; apply grows_ret]. }
  destruct (Hk (log_request EpUser (snd (userRequest baseUrl accessToken)) w)) as [l Hl].
  exists l. unfold id in Hl. rewrite Hl. unfold log_request. simpl.
  by rewrite <- app_assoc.
Qed.

Lemma globalInbox_quiet dbg createdResult reviewResult w :
  requests (snd (globalInbox dbg createdResult reviewResult w)) = requests w.
Proof.
  unfold globalInbox. destruct createdResult as [c|e]; [|reflexivity].
  destruct reviewResult as [r|e]; reflexivity.
Qed.

End Mode.

(** What the resolver does with the two settled results, whatever they
    are. *)
Lemma inboxFromSettled_mode `{P : Platform} `{server : Server}
    (fuel : nat) (baseUrl accessToken : string) (dbg : PullInboxDebug)
    (createdResult reviewResult : Settled (list GiteaPullRequest)) (w : Net) :
  let run := inboxFromSettled fuel baseUrl accessToken dbg createdResult reviewResult w in
  ((exists rest, requests (snd run) = requests w ++ userRequest baseUrl accessToken :: rest)
   <-> rejected404 createdResult \/ rejected404 reviewResult)
  /\ (forall c r,
        createdResult = Fulfilled c -> reviewResult = Fulfilled r ->
        exists d,
          fst run = Returned {| created := c; reviewRequested := r; debug := d |}
          /\ fallbackUsed d = Some false
          /\ requests (snd run) = requests w)
  /\ (forall e,
        ~ (rejected404 createdResult \/ rejected404 reviewResult) ->
        createdResult = Rejected e
        \/ ((exists c, createdResult = Fulfilled c) /\ reviewResult = Rejected e) ->
        exists d,
          fst run = Thrown {| exn_error := exn_error e; exn_debug := Some d |}
          /\ fallbackUsed d = Some false
          /\ requests (snd run) = requests w).
Proof.
  intros run. subst run. unfold inboxFromSettled.
  pose proof (any404_spec createdResult reviewResult) as H404.
  destruct (any404 createdResult reviewResult) eqn:Hany; cbn [negb].
  - split; [|split].
    + split; [intros _; by apply H404|intros _].
      apply fallbackInbox_requests_user.
    + intros c r -> ->. discriminate Hany.
    + intros e Hno _. destruct Hno. by apply H404.
  - assert (Hno : ~ (rejected404 createdResult \/ rejected404 reviewResult)).
    { intros H. apply H404 in H. discriminate H. }
    split; [|split].
    + split; [|intros H; by destruct Hno].
      intros [rest Hrest]. rewrite globalInbox_quiet in Hrest.
      apply (f_equal length) in Hrest. rewrite length_app in Hrest. simpl in Hrest. lia.
    + intros c r -> ->. eexists. simpl. split; [reflexivity|]. split; reflexivity.
    + intros e _ [->|[[c ->] ->]]; eexists; simpl; (split; [reflexivity|]); split; reflexivity.
Qed.

Lemma settle_settlesTo {S A} (m : M S A) (s : S) (run : Outcome A * S)
    (result : Settled A) :
  m s = run ->
  match fst run with
  | Returned value => result = Fulfilled value
  | Thrown reason => result = Rejected reason
  | OutOfFuel => False
  end ->
  settle m s = (Returned result, snd run).
Proof.
  intros <-. unfold settle. destruct (m s) as [[value|reason|] s']; cbn.
  - by intros ->.
  - by intros ->.
  - done.
Qed.

(** C1.  [fetchPullRequestInbox] reads the clock and runs the two global
    fetches, the one of the pull requests created by the user and the one of
    those that request the user's review.  Whatever their two outcomes, it
    enters fallback mode (its next request is the one for the current user)
    exactly when one of them failed with an API error of status 404.  When
    both succeeded it returns the result of the first as [created] and the
    result of the second as [reviewRequested], marked as not using the
    fallback, without any further request.  When neither failed with 404 and
    one failed, the error of the first failed fetch is thrown (with the debug
    record attached), again without any further request. *)
Theorem inbox_falls_back_iff_404 `{P : Platform} `{server : Server}
    (fuel : nat) (baseUrl accessToken : string) (w : Net)
    (createdResult reviewResult : Settled (list GiteaPullRequest)) :
  settlesTo (createdFetch fuel baseUrl accessToken w) createdResult ->
  settlesTo (reviewFetch fuel baseUrl accessToken w) reviewResult ->
  let run := fetchPullRequestInbox fuel baseUrl accessToken w in
  let fetched := snd (reviewFetch fuel baseUrl accessToken w) in
  ((exists rest,
       requests (snd run) = requests fetched ++ userRequest baseUrl accessToken :: rest)
   <-> rejected404 createdResult \/ rejected404 reviewResult)
  /\ (forall c r,
        createdResult = Fulfilled c -> reviewResult = Fulfilled r ->
        exists d,
          fst run = Returned {| created := c; reviewRequested := r; debug := d |}
          /\ fallbackUsed d = Some false
          /\ requests (snd run) = requests fetched)
  /\ (forall e,
        ~ (rejected404 createdResult \/ rejected404 reviewResult) ->
        createdResult = Rejected e
        \/ ((exists c, createdResult = Fulfilled c) /\ reviewResult = Rejected e) ->
        exists d,
          fst run = Thrown {| exn_error := exn_error e; exn_debug := Some d |}
          /\ fallbackUsed d = Some false
          /\ requests (snd run) = requests fetched).
Proof.
  intros Hcreated Hreview run fetched.
  assert (Hrun : run
                 = inboxFromSettled fuel baseUrl accessToken
                     (initialDebug (clock (ticks w)) (normalizeBaseUrl baseUrl))
                     createdResult reviewResult fetched).
  { subst run fetched. unfold fetchPullRequestInbox.
    unfold bind at 1, Date_now. fold (afterStart w).
    unfold globalFetches, allSettled2.
    set (m1 := fetchPaged _ _ _ (createdUrl _) _).
    set (m2 := fetchPaged _ _ _ (reviewRequestedUrl _) _).
    assert (H1 : settle m1 (afterStart w)
                 = (Returned createdResult, snd (createdFetch fuel baseUrl accessToken w)))
      by (by apply settle_settlesTo).
    assert (H2 : settle m2 (snd (createdFetch fuel baseUrl accessToken w))
                 = (Returned reviewResult, snd (reviewFetch fuel baseUrl accessToken w)))
      by (by apply settle_settlesTo).
    unfold bind at 1. unfold bind at 1. rewrite H1.
    unfold bind at 1. rewrite H2. reflexivity. }
  rewrite Hrun. apply inboxFromSettled_mode.
Qed.

(** ** The pull-request inbox: the fallback scan *)

(** The outcome of [fetchPaged] is decided by the server alone. *)
Lemma fetchPaged_loop_outcome {T} ep (oracle : Request -> FetchResult (JsonArray T))
    fuel url accessToken :
  forall items page w1 w2,
    fst (fetchPaged_loop ep oracle fuel url accessToken items page w1)
    = fst (fetchPaged_loop ep oracle fuel url accessToken items page w2).
Proof.
  induction fuel as [|fuel IH]; intros items page w1 w2; [reflexivity|].
  cbn [fetchPaged_loop]. unfold bind at 1 3, fetch.
  destruct (oracle (pagedRequest url accessToken page)) as [e|r]; [reflexivity|].
  destruct (negb (ok r)); [reflexivity|].
  unfold response_json. destruct (json r) as [[|[|x d]]|]; try reflexivity.
  unfold bind, ret.
  match goal with |- context [if ?b then _ else _] => destruct b end;
    [reflexivity|apply IH].
Qed.

Lemma fetchPaged_outcome {T} ep (oracle : Request -> FetchResult (JsonArray T))
    fuel url accessToken w :
  fst (fetchPaged ep oracle fuel url accessToken w)
  = fst (fetchPaged ep oracle fuel url accessToken emptyNet).
Proof. apply fetchPaged_loop_outcome. Qed.

Section Scan.
Context `{P : Platform} `{server : Server}.
Context (fuel : nat) (apiBase accessToken : string) (currentUser : GiteaAuthenticatedUser).

Local Abbreviation repoFetch := (repoFetch fuel apiBase accessToken).
Local Abbreviation openPulls := (openPulls fuel apiBase accessToken).
Local Abbreviation fetchFailed := (fetchFailed fuel apiBase accessToken).
Local Abbreviation fetchEnds := (fetchEnds fuel apiBase accessToken).
Local Abbreviation partitionOf := (partitionOf fuel apiBase accessToken currentUser).
Local Abbreviation failuresIn := (failuresIn fuel apiBase accessToken).

Lemma scanRepo_result repo idx st :
  fetchEnds repo ->
  exists w',
    scanRepo fuel apiBase accessToken currentUser repo idx st
    = (Returned (partitionOf repo),
       {| perRepoFailures := perRepoFailures st + (if fetchFailed repo then 1 else 0);
          scan_net := w' |}).
Proof.
  unfold fetchEnds, scanRepo, partitionOf, openPulls, fetchFailed, repoFetch.
  destruct st as [n w]. cbn [perRepoFailures].
  destruct (ownerAndName (full_name repo)) as [[owner name]|].
  - intros Hends. unfold try_catch, bind at 1, scan_call, lift. cbn [scan_net].
    pose proof (fetchPaged_outcome EpPulls srv_pulls fuel (pullsUrl apiBase owner name)
                  (Some accessToken) w) as Hout.
    destruct (fetchPaged EpPulls srv_pulls fuel (pullsUrl apiBase owner name)
                (Some accessToken) w) as [r w1].
    cbn [fst] in Hout. rewrite <- Hout in *.
    destruct r as [pulls|e|]; [| |congruence].
    + exists w1. cbn. by rewrite Nat.add_0_r.
    + exists w1. reflexivity.
  - intros _. exists w. cbn. by rewrite Nat.add_0_r.
Qed.

Lemma mapWithConcurrency_scan (rs : list GiteaRepo) :
  Forall fetchEnds rs ->
  forall idx st,
    exists w',
      mapWithConcurrency_from rs (scanRepo fuel apiBase accessToken currentUser) idx st
      = (Returned (partitionOf <$> rs),
         {| perRepoFailures := perRepoFailures st + failuresIn rs; scan_net := w' |}).
Proof.
  induction 1 as [|repo rs Hrepo Hrs IH]; intros idx st.
  - exists (scan_net st). destruct st. cbn. by rewrite Nat.add_0_r.
  - cbn [mapWithConcurrency_from].
    destruct (scanRepo_result repo idx st Hrepo) as [w1 H1].
    rewrite (bind_returned _ _ _ _ _ H1).
    destruct (IH (idx + 1)
                {| perRepoFailures := perRepoFailures st + (if fetchFailed repo then 1 else 0);
                   scan_net := w1 |}) as [w2 H2].
    rewrite (bind_returned _ _ _ _ _ H2). exists w2.
    unfold ret, failuresIn. cbn [perRepoFailures fmap list_fmap List.filter].
    f_equal. f_equal. destruct (fetchFailed repo); cbn [length]; lia.
Qed.

Lemma scanRepos_result (rs : list GiteaRepo) w :
  Forall fetchEnds rs ->
  exists w',
    scanRepos fuel apiBase accessToken currentUser rs w
    = (Returned (partitionOf <$> rs, failuresIn rs), w').
Proof.
  intros Hrs. unfold scanRepos, mapWithConcurrency.
  destruct (mapWithConcurrency_scan rs Hrs 0 {| perRepoFailures := 0; scan_net := w |})
    as [w' H].
  rewrite H. by exists w'.
Qed.



End Scan.

(** C6.  In the fallback scan, a repository whose open-pull-request fetch
    fails adds exactly one to the failure counter and contributes an empty
    partition; the scan still completes, and the partitions of the
    repositories before and after it, and their failures, are those of the
    scan without it. *)
Theorem failed_repo_is_isolated `{P : Platform} `{server : Server}
    (fuel : nat) (apiBase accessToken : string) (currentUser : GiteaAuthenticatedUser)
    (before after : list GiteaRepo) (repo : GiteaRepo) (w : Net) :
  fetchFailed fuel apiBase accessToken repo = true ->
  Forall (fetchEnds fuel apiBase accessToken) (before ++ after) ->
  let part := partitionOf fuel apiBase accessToken currentUser in
  let failures := failuresIn fuel apiBase accessToken (before ++ after) in
  exists w1 w2,
    scanRepos fuel apiBase accessToken currentUser (before ++ after) w
    = (Returned ((part <$> before) ++ (part <$> after), failures), w1)
    /\ scanRepos fuel apiBase accessToken currentUser (before ++ repo :: after) w
       = (Returned ((part <$> before) ++ emptyPartition :: (part <$> after), failures + 1),
          w2).
Proof.
  intros Hfail Hends part failures.
  assert (Hrepo : fetchEnds fuel apiBase accessToken repo).
  { unfold fetchEnds. unfold fetchFailed in Hfail.
    destruct (repoFetch fuel apiBase accessToken repo) as [[| |]|]; congruence. }
  assert (Hends' : Forall (fetchEnds fuel apiBase accessToken) (before ++ repo :: after)).
  { apply Forall_app in Hends as [Hb Ha]. apply Forall_app. split; [done|by constructor]. }
  destruct (scanRepos_result fuel apiBase accessToken currentUser _ w Hends) as [w1 H1].
  destruct (scanRepos_result fuel apiBase accessToken currentUser _ w Hends') as [w2 H2].
  exists w1, w2. split.
  - rewrite H1. by rewrite fmap_app.
  - rewrite H2. rewrite fmap_app. cbn [fmap list_fmap].
    assert (Hpart : partitionOf fuel apiBase accessToken currentUser repo = emptyPartition).
    { unfold partitionOf, openPulls. unfold fetchFailed in Hfail.
      destruct (repoFetch fuel apiBase accessToken repo) as [[| |]|]; try discriminate.
      reflexivity. }
    rewrite Hpart. do 3 f_equal.
    unfold failures, failuresIn. rewrite !List.filter_app. cbn [List.filter].
    rewrite Hfail. rewrite !length_app. cbn [length]. lia.
Qed.


(** ** Check-status enrichment *)

Section Enrichment.
Context `{P : Platform} `{server : Server}.
Context (baseUrl : string) (accessToken : option string).

Local Abbreviation statusRequest := (statusRequest baseUrl accessToken).


Lemma fetchCommitStatus_run owner name sha w :
  fetchCommitStatus baseUrl owner name sha accessToken w
  = (fst (fetchCommitStatus baseUrl owner name sha accessToken emptyNet),
     log_request EpStatus (statusRequest owner name sha) w).
Proof.
  unfold fetchCommitStatus, bind, fetch. fold (statusRequest owner name sha).
  destruct (srv_status (statusRequest owner name sha)) as [e|r]; [reflexivity|].
  destruct (negb (ok r)); [reflexivity|].
  unfold response_json. destruct (json r); reflexivity.
Qed.

Lemma fetchCommitStatus_returns owner name sha w st :
  fst (fetchCommitStatus baseUrl owner name sha accessToken w) = Returned (Some st) ->
  returnedState st.
Proof.
  unfold fetchCommitStatus, bind, fetch. fold (statusRequest owner name sha).
  destruct (srv_status (statusRequest owner name sha)) as [e|r] eqn:E; [discriminate|].
  destruct (ok r) eqn:Hok; [|discriminate]. cbn [negb].
  unfold response_json. destruct (json r) as [j|] eqn:Hj; [|discriminate].
  cbn. intros [= Hst]. by exists (statusRequest owner name sha), r, j.
Qed.

(** What [enrichPull] does, in any network state. *)
Lemma enrichPull_run pull w :
  exists r,
    fst (enrichPull baseUrl accessToken pull emptyNet) = Returned r
    /\ enrichPull baseUrl accessToken pull w
       = (Returned r,
          {| requests := requests w
                         ++ requests (snd (enrichPull baseUrl accessToken pull emptyNet));
             ticks := ticks w |})
    /\ fst r = pr_id pull
    /\ (snd r = "unknown" \/ returnedState (snd r)).
Proof.
  assert (Hquiet : ret (pr_id pull, "unknown") w
                   = (Returned (pr_id pull, "unknown"),
                      {| requests := requests w ++ []; ticks := ticks w |})).
  { destruct w. unfold ret. simpl. by rewrite app_nil_r. }
  unfold enrichPull.
  destruct (pr_head_sha pull) as [sha|];
    [|exists (pr_id pull, "unknown"); repeat split; [exact Hquiet|by left]].
  destruct (getRepoOwnerAndName pull) as [[owner name]|];
    [|exists (pr_id pull, "unknown"); repeat split; [exact Hquiet|by left]].
  destruct (Js.truthy sha);
    [|exists (pr_id pull, "unknown"); repeat split; [exact Hquiet|by left]].
  unfold try_catch, bind.
  rewrite (fetchCommitStatus_run owner name sha w).
  rewrite (fetchCommitStatus_run owner name sha emptyNet).
  pose proof (fetchCommitStatus_returns owner name sha emptyNet) as Hst.
  destruct (fst (fetchCommitStatus baseUrl owner name sha accessToken emptyNet))
    as [[st|]|e|] eqn:E.
  - exists (pr_id pull, st). repeat split. right. by apply Hst.
  - exists (pr_id pull, "unknown"). repeat split. by left.
  - exists (pr_id pull, "unknown"). repeat split. by left.
  - exfalso. revert E. unfold fetchCommitStatus, bind, fetch.
    destruct (srv_status _) as [e|r]; [discriminate|].
    destruct (negb (ok r)); [discriminate|].
    unfold response_json. destruct (json r); discriminate.
Qed.

Lemma enrichAll_run (all : list GiteaPullRequest) :
  forall w,
    exists results w',
      enrichAll baseUrl accessToken all w = (Returned results, w')
      /\ Forall2 (fun pull r => fst (enrichPull baseUrl accessToken pull emptyNet)
                                = Returned r) all results
      /\ requests w'
         = requests w
           ++ flat_map (fun pull =>
                          requests (snd (enrichPull baseUrl accessToken pull emptyNet)))
                all
      /\ Forall2 (fun pull r => fst r = pr_id pull
                                /\ (snd r = "unknown" \/ returnedState (snd r)))
           all results.
Proof.
  induction all as [|pull rest IH]; intros w.
  - exists [], w. simpl. rewrite app_nil_r. repeat split; constructor.
  - destruct (enrichPull_run pull w) as (r & Hr & Hrun & Hid & Hst).
    destruct (IH {| requests := requests w
                       ++ requests (snd (enrichPull baseUrl accessToken pull emptyNet));
                    ticks := ticks w |})
      as (rs & w' & Hrest & Hown & Hlog & Hvals).
    exists (r :: rs), w'. cbn [enrichAll].
    rewrite (bind_returned _ _ _ _ _ Hrun), (bind_returned _ _ _ _ _ Hrest).
    split; [reflexivity|]. split; [by constructor|]. split; [|by constructor].
    rewrite Hlog. cbn [requests flat_map]. by rewrite app_assoc.
Qed.

Lemma statusMap_keeps (results : list (Z * string)) :
  forall (acc : gmap Z string) i,
    i ∉ (fst <$> results) ->
    foldl (fun next r => <[fst r := snd r]> next) acc results !! i = acc !! i.
Proof.
  induction results as [|r rest IH]; intros acc i Hi; [reflexivity|].
  cbn [foldl]. rewrite fmap_cons in Hi. apply not_elem_of_cons in Hi as [Hne Hi].
  rewrite IH by done. by rewrite lookup_insert_ne.
Qed.

Lemma statusMap_lookup (results : list (Z * string)) :
  forall (acc : gmap Z string) i,
    i ∈ (fst <$> results) ->
    exists s,
      foldl (fun next r => <[fst r := snd r]> next) acc results !! i = Some s
      /\ (i, s) ∈ results.
Proof.
  induction results as [|r rest IH]; intros acc i Hi.
  - by apply elem_of_nil in Hi.
  - cbn [foldl]. destruct (decide (i ∈ (fst <$> rest))) as [Hin|Hnin].
    + destruct (IH (<[fst r := snd r]> acc) i Hin) as (s & Hs & Hmem).
      exists s. split; [done|by right].
    + rewrite fmap_cons in Hi. apply elem_of_cons in Hi as [->|Hi]; [|done].
      exists (snd r). rewrite statusMap_keeps by done. rewrite lookup_insert_eq.
      split; [done|]. destruct r. by left.
Qed.

End Enrichment.


(** C8 (amended).  The status mapping always has an entry for every input
    pull request id, and the entry is [unknown] or a [state] string exactly
    as the commit-status endpoint returned it; so every entry is one of the
    five states provided the endpoint returns no other string. *)
Theorem status_map_holds_unknown_or_returned_state `{P : Platform} `{server : Server}
    (baseUrl : string) (accessToken : option string)
    (createdPulls reviewRequestedPulls : list GiteaPullRequest) (w : Net) :
  exists m w',
    computeStatusById baseUrl accessToken createdPulls reviewRequestedPulls w
    = (Returned m, w')
    /\ (forall pull,
          pull ∈ createdPulls ++ reviewRequestedPulls ->
          exists s, m !! pr_id pull = Some s /\ (s = "unknown" \/ returnedState s))
    /\ ((forall s, returnedState s -> s ∈ fiveStates) ->
        forall pull,
          pull ∈ createdPulls ++ reviewRequestedPulls ->
          exists s, m !! pr_id pull = Some s /\ s ∈ fiveStates).
Proof.
  unfold computeStatusById.
  set (all := createdPulls ++ reviewRequestedPulls).
  destruct (enrichAll_run baseUrl accessToken all w)
    as (results & w' & Hrun & _ & _ & Hvals).
  assert (Hentry : forall pull, pull ∈ all ->
            exists s, statusMap results !! pr_id pull = Some s
                      /\ (s = "unknown" \/ returnedState s)).
  { intros pull Hin.
    assert (Hid : pr_id pull ∈ (fst <$> results)).
    { apply list_elem_of_lookup in Hin as [i Hi].
      destruct (Forall2_lookup_l _ _ _ _ _ Hvals Hi) as (r & Hr & Hrid & _).
      rewrite <- Hrid. apply list_elem_of_fmap. exists r. split; [done|].
      by apply list_elem_of_lookup_2 in Hr. }
    destruct (statusMap_lookup results ∅ _ Hid) as (s & Hs & Hmem).
    exists s. split; [exact Hs|].
    apply list_elem_of_lookup in Hmem as [j Hj].
    destruct (Forall2_lookup_r _ _ _ _ _ Hvals Hj) as (q & _ & _ & Hq). exact Hq. }
  destruct (length all =? 0)%nat eqn:Hlen.
  - apply Nat.eqb_eq in Hlen. apply length_zero_iff_nil in Hlen.
    exists ∅, w. split; [reflexivity|].
    split; intros; rewrite Hlen in *; try (intros pull Hin); 
      match goal with H : _ ∈ [] |- _ => by apply elem_of_nil in H end.
  - exists (statusMap results), w'. rewrite (bind_returned _ _ _ _ _ Hrun).
    split; [reflexivity|]. split; [exact Hentry|].
    intros Hfive pull Hin. destruct (Hentry pull Hin) as (s & Hs & [->|Hret]).
    + exists "unknown". split; [exact Hs|]. unfold fiveStates. set_solver.
    + exists s. split; [exact Hs|by apply Hfive].
Qed.

(** ** Cache freshness and forced refresh *)

(** C9 (amended).  For every cached timestamp other than 0, every TTL in
    minutes and every current time [now], the freshness check of a
    non-forced refresh is true exactly when [now - timestamp < ttl * 60000],
    strictly. *)
Theorem isFresh_iff_within_ttl (timestamp now cacheTtlMinutes : Z) :
  timestamp <> 0%Z ->
  isFresh (Some timestamp) now cacheTtlMinutes = true
  <-> (now - timestamp < cacheTtlMinutes * 60000)%Z.
Proof.
  intros Hts. unfold isFresh, Js.truthy_num.
  apply Z.eqb_neq in Hts. rewrite Hts. cbn [negb andb].
  apply Z.ltb_lt.
Qed.

(** The check made by both refreshes is [isFresh] at the reading of the
    clock taken at that moment, and the clock is left alone when the
    timestamp is falsy. *)
Lemma checkFresh_reads_clock `{P : Platform} {V} (t cacheTtlMinutes : Z) (a : App V) :
  t <> 0%Z ->
  fst (checkFresh (Some t) cacheTtlMinutes a)
  = Returned (isFresh (Some t) (clock (ticks (app_net a))) cacheTtlMinutes).
Proof.
  intros Ht. unfold checkFresh, Js.truthy_num.
  apply Z.eqb_neq in Ht. rewrite Ht. reflexivity.
Qed.

Lemma prCacheKeys_differ `{P : Platform} (baseUrl : string) :
  prCacheKey baseUrl <> prCacheTimeKey baseUrl.
Proof. unfold prCacheKey, prCacheTimeKey. intros H. discriminate H. Qed.

Section Refresh.
Context `{P : Platform} `{server : Server}.

Lemma rendersList_configured (baseUrl accessToken : string) :
  rendersList (Some baseUrl) (Some accessToken) = true ->
  Js.truthy baseUrl = true /\ Js.truthy accessToken = true.
Proof.
  unfold rendersList, isValidBaseUrl, Js.truthy_opt.
  destruct (Js.truthy baseUrl); [|discriminate].
  destruct (Js.truthy accessToken); [done|].
  intros H. rewrite orb_true_r in H. discriminate H.
Qed.

Lemma refreshInbox_forced fuel baseUrl accessToken cacheTtlMinutes a :
  Js.truthy baseUrl = true -> Js.truthy accessToken = true ->
  refreshInbox fuel (Some baseUrl) (Some accessToken) cacheTtlMinutes true a
  = try_finally
      (try_catch (liveFetch fuel baseUrl accessToken) liveFetchFailed)
      (fun a => mkApp (app_net a) (storage a) (storage_reads a)
                  (with_isLoading false (view a)) (toasts a))
      (refreshing a).
Proof.
  intros Hb Ht. unfold refreshInbox. rewrite Hb, Ht. reflexivity.
Qed.

Lemma app_call_run {V A} (m : M Net A) (a : App V) r w :
  m (app_net a) = (r, w) ->
  app_call m a = (r, mkApp w (storage a) (storage_reads a) (view a) (toasts a)).
Proof. intros H. unfold app_call, lift. by rewrite H. Qed.

Lemma liveFetch_run fuel baseUrl accessToken a r w1 :
  fetchPullRequestInbox fuel baseUrl accessToken (app_net a) = (r, w1) ->
  liveFetch fuel baseUrl accessToken a
  = match r with
    | Returned result => (Returned tt, refreshed baseUrl result w1 a)
    | Thrown e =>
        (Thrown e, mkApp w1 (storage a) (storage_reads a) (view a) (toasts a))
    | OutOfFuel =>
        (OutOfFuel, mkApp w1 (storage a) (storage_reads a) (view a) (toasts a))
    end.
Proof.
  intros Hfetch. unfold liveFetch.
  pose proof (app_call_run (V := View) _ a r w1 Hfetch) as Hcall.
  destruct r as [result|e|].
  - rewrite (bind_returned _ _ _ _ _ Hcall). reflexivity.
  - by rewrite (bind_thrown _ _ _ _ _ Hcall).
  - by rewrite (bind_out_of_fuel _ _ _ _ Hcall).
Qed.

End Refresh.

(** C10.  A forced refresh, which the command offers only once it renders
    its list, reads nothing from the cache and runs the live fetch from the
    network state it started in, whatever the cache holds.  When the live
    fetch returns, the cache entry holds the new payload and the reading of
    the clock taken at the save, every other key being untouched; when it
    fails, the stored entries are exactly those from before. *)
Theorem forced_refresh_bypasses_cache `{P : Platform} `{server : Server}
    (fuel : nat) (baseUrl accessToken : string) (cacheTtlMinutes : Z) (a : App View)
    (r : Outcome InboxResult) (w1 : Net) :
  rendersList (Some baseUrl) (Some accessToken) = true ->
  fetchPullRequestInbox fuel baseUrl accessToken (app_net a) = (r, w1) ->
  let a' := snd (refreshInbox fuel (Some baseUrl) (Some accessToken) cacheTtlMinutes
                   true a) in
  storage_reads a' = storage_reads a
  /\ requests (app_net a') = requests w1
  /\ match r with
     | Returned result =>
         storage a' !! prCacheKey baseUrl
         = Some (stringify_inbox
                   {| payload_created := created result;
                      payload_reviewRequested := reviewRequested result;
                      payload_statusById := None |})
         /\ storage a' !! prCacheTimeKey baseUrl = Some (pretty (clock (ticks w1)))
         /\ (forall key, key <> prCacheKey baseUrl -> key <> prCacheTimeKey baseUrl ->
                         storage a' !! key = storage a !! key)
         /\ createdPulls (view a') = created result
         /\ reviewRequestedPulls (view a') = reviewRequested result
     | Thrown e =>
         storage a' = storage a
         /\ errorMessage (view a') = Some (error_message (exn_error e))
     | OutOfFuel => storage a' = storage a
     end.
Proof.
  intros Hlist Hfetch a'. subst a'.
  destruct (rendersList_configured _ _ Hlist) as [Hb Ht].
  rewrite (refreshInbox_forced fuel baseUrl accessToken cacheTtlMinutes a Hb Ht).
  unfold try_finally, try_catch.
  rewrite (liveFetch_run fuel baseUrl accessToken (refreshing a) r w1 Hfetch).
  destruct r as [result|e|].
  - cbn. split; [reflexivity|]. split; [reflexivity|]. split; [|split; [|split]].
    + rewrite lookup_insert_ne by (apply not_eq_sym, prCacheKeys_differ).
      apply lookup_insert_eq.
    + apply lookup_insert_eq.
    + intros key Hk Ht'. by rewrite !lookup_insert_ne by done.
    + split; reflexivity.
  - unfold liveFetchFailed. destruct (exn_debug e); cbn; repeat split; reflexivity.
  - cbn. repeat split; reflexivity.
Qed.

(** * The statements on the worked example *)

(** Evaluate the left-hand side of an equation whose right-hand side is
    still to be determined. *)
Ltac evaluate :=
  match goal with
  | |- ?l = _ =>
      let v := eval vm_compute in l in
      transitivity v; [vm_compute; reflexivity|reflexivity]
  end.

Lemma fetchPaged_concatenates_pages_witness :
  exists w',
    fetchPaged EpRepos numbersOracle 2 "https://git.example/api/v1/numbers" None emptyNet
    = (Returned (concat [seq 0 100] ++ [100; 101; 102]), w')
    /\ requests w'
       = requests emptyNet
         ++ ((fun page =>
                (EpRepos, pagedRequest "https://git.example/api/v1/numbers" None page))
               <$> seq 1 (1 + 1))
    /\ length (requests w') = length (requests emptyNet) + (1 + 1).
Proof.
  apply (fetchPaged_concatenates_pages EpRepos numbersOracle
           "https://git.example/api/v1/numbers" None [seq 0 100]
           (IsArray [100; 101; 102]) 2 emptyNet).
  - constructor; [|constructor]. rewrite length_seq. unfold PER_PAGE. lia.
  - intros [|i] p Hp; [|discriminate Hp]. injection Hp as <-.
    eexists. split; [vm_compute; reflexivity|]. split; reflexivity.
  - eexists. split; [vm_compute; reflexivity|]. split; reflexivity.
  - simpl. unfold PER_PAGE. lia.
  - simpl. lia.
Defined.

Lemma fetchPaged_raises_api_error_witness :
  exists w',
    fetchPaged EpRepos flakyOracle 2 "https://git.example/api/v1/numbers" None emptyNet
    = (Thrown
         (plain
            (GiteaApiError 503 "Gitea API error (503): Service Unavailable"
               (Some "https://git.example/api/v1/numbers?limit=100&page=2"))),
       w')
    /\ last (requests w')
       = Some (EpRepos, pagedRequest "https://git.example/api/v1/numbers" None 2).
Proof.
  apply (fetchPaged_raises_api_error EpRepos flakyOracle
           "https://git.example/api/v1/numbers" None [seq 0 100]
           {| status := 503; statusText := "Service Unavailable"; text := "";
              json := None |} 2 emptyNet).
  - constructor; [|constructor]. rewrite length_seq. unfold PER_PAGE. lia.
  - intros [|i] p Hp; [|discriminate Hp]. injection Hp as <-.
    eexists. split; [vm_compute; reflexivity|]. split; reflexivity.
  - vm_compute. reflexivity.
  - reflexivity.
  - simpl. lia.
Defined.

Lemma fetchAllRepos_keeps_first_copy_of_each_id_witness :
  let searchPages := [([repoApp; repoLib], Some 5%Z); ([repoLib], Some 5%Z)] in
  let userPages := [[repoLibLater; repoCli]; []] in
  let orgPages := [[{| org_username := Some "acme"; org_name := None |}]] in
  let orgRepoPages := [[[repoApp; repoOdd]; []]] in
  let pages := [repoApp; repoLib; repoLib; repoLibLater; repoCli; repoApp; repoOdd] in
  exists rs,
    fetchAllRepos (server := sampleServer) 5 "https://git.example/" (Some "tok") emptyNet
    = (Returned rs,
       logged (discoveryRequests "https://git.example/" (Some "tok") searchPages
                 userPages orgPages orgRepoPages) emptyNet)
    /\ NoDup (repo_id <$> rs)
    /\ (forall r, r ∈ pages -> repo_id r ∈ repo_id <$> rs)
    /\ (forall r, r ∈ rs ->
          exists before after,
            pages = before ++ r :: after /\ repo_id r ∉ repo_id <$> before).
Proof.
  apply (fetchAllRepos_keeps_first_copy_of_each_id (server := sampleServer) 5
           "https://git.example/" (Some "tok") emptyNet
           [([repoApp; repoLib], Some 5%Z); ([repoLib], Some 5%Z)]
           [[repoLibLater; repoCli]; []]
           [[{| org_username := Some "acme"; org_name := None |}]]
           [[[repoApp; repoOdd]; []]]).
  - split.
    + cbn [searchServes]. split; [|split; [|split]].
      * eexists _, _. split; [vm_compute; reflexivity|]. by repeat split.
      * vm_compute. reflexivity.
      * eexists _, _. split; [vm_compute; reflexivity|]. by repeat split.
      * vm_compute. reflexivity.
    + cbn [Js.truthy_opt Js.truthy]. cbv zeta. split; [|split].
      * cbn [reposServes]. split; [|split; [|split]].
        -- eexists. split; vm_compute; reflexivity.
        -- vm_compute. reflexivity.
        -- eexists. split; vm_compute; reflexivity.
        -- vm_compute. reflexivity.
      * cbn [orgsServes]. split; [|reflexivity].
        eexists. split; vm_compute; reflexivity.
      * cbn. split; [|exact I]. split; [|split].
        -- eexists. split; vm_compute; reflexivity.
        -- vm_compute. reflexivity.
        -- split; [|vm_compute; reflexivity]. eexists. split; vm_compute; reflexivity.
  - unfold pagesWithin. cbn. repeat split; try lia. repeat constructor; cbn; lia.
Defined.

Lemma failed_repo_is_isolated_witness :
  let user := {| user_id := 7; user_login := "alice" |} in
  exists w1 w2,
    scanRepos (server := sampleServer) 5 "https://git.example" "tok" user
      ([repoApp] ++ [repoCli; repoOdd]) emptyNet
    = (Returned
         ([ {| part_created := [pull10]; part_reviewRequested := [pull11] |};
            {| part_created := [pull12]; part_reviewRequested := [pull14] |};
            emptyPartition ], 0), w1)
    /\ scanRepos (server := sampleServer) 5 "https://git.example" "tok" user
         ([repoApp] ++ repoLib :: [repoCli; repoOdd]) emptyNet
       = (Returned
            ([ {| part_created := [pull10]; part_reviewRequested := [pull11] |};
               emptyPartition;
               {| part_created := [pull12]; part_reviewRequested := [pull14] |};
               emptyPartition ], 0 + 1), w2).
Proof.
  apply (failed_repo_is_isolated (P := samplePlatform) (server := sampleServer)
           5 "https://git.example" "tok" {| user_id := 7; user_login := "alice" |}
           [repoApp] [repoCli; repoOdd] repoLib emptyNet).
  - vm_compute. reflexivity.
  - repeat constructor; unfold fetchEnds; vm_compute; discriminate.
Defined.


(** C8, as stated, fails: the endpoint of the example answers the status
    request for pull request 11 with the state ["warning"], and that string is
    what the mapping holds for id 11. *)
Lemma status_map_holds_other_strings :
  exists m w',
    computeStatusById (P := samplePlatform) (server := sampleServer)
      "https://git.example/" (Some "tok") [pull10] [pull11] emptyNet
    = (Returned m, w')
    /\ m !! 11%Z = Some "warning"
    /\ "warning" ∉ fiveStates.
Proof.
  eexists. eexists. split; [|split].
  - evaluate.
  - vm_compute. reflexivity.
  - unfold fiveStates. intros H. repeat (apply elem_of_cons in H as [H|H]; [discriminate H|]).
    by apply elem_of_nil in H.
Qed.

(** C9, as stated, fails for the timestamp 0: one second after the epoch
    and with a TTL of 60 minutes the difference is within the TTL, and the
    check is false. *)
Lemma zero_timestamp_is_not_fresh :
  ~ (isFresh (Some 0%Z) 1000 60 = true <-> (1000 - 0 < 60 * 60000)%Z).
Proof.
  intros [_ H]. assert (Hlt : (1000 - 0 < 60 * 60000)%Z) by lia.
  specialize (H Hlt). discriminate H.
Qed.

Lemma isFresh_iff_within_ttl_witness :
  isFresh (Some 1700000000005%Z) 1700003600004 60 = true
  <-> (1700003600004 - 1700000000005 < 60 * 60000)%Z.
Proof.
  apply (isFresh_iff_within_ttl 1700000000005 1700003600004 60). lia.
Defined.

Lemma forced_refresh_bypasses_cache_witness :
  let a' := snd (refreshInbox (P := samplePlatform) (server := sampleServer) 5
                   (Some "https://git.example/") (Some "tok") 60 true sampleApp) in
  storage_reads a' = []
  /\ requests (app_net a') = requests sampleNet
  /\ storage a' !! "gitea-pr-inbox-cache:https://git.example/" = Some "inbox:2,2"
     /\ storage a' !! "gitea-pr-inbox-cache-time:https://git.example/"
        = Some "1700000000002"
     /\ (forall key,
           key <> "gitea-pr-inbox-cache:https://git.example/" ->
           key <> "gitea-pr-inbox-cache-time:https://git.example/" ->
           storage a' !! key = storage sampleApp !! key)
     /\ createdPulls (view a') = [pull10; pull12]
     /\ reviewRequestedPulls (view a') = [pull11; pull14].
Proof.
  assert (Hfetch : fetchPullRequestInbox (P := samplePlatform) (server := sampleServer)
                     5 "https://git.example/" "tok" (app_net sampleApp)
                   = (sampleOutcome, sampleNet)) by (vm_compute; reflexivity).
  exact (forced_refresh_bypasses_cache (P := samplePlatform) (server := sampleServer)
           5 "https://git.example/" "tok" 60 sampleApp sampleOutcome sampleNet
           eq_refl Hfetch).
Defined.

Lemma inbox_falls_back_iff_404_witness :
  let run := fetchPullRequestInbox (P := samplePlatform) (server := globalServer) 5
               "https://git.example/" "tok" emptyNet in
  (exists d,
      fst run = Returned {| created := [pull10; pull12]; reviewRequested := [pull11];
                            debug := d |}
      /\ fallbackUsed d = Some false
      /\ requests (snd run)
         = requests (snd (reviewFetch (server := globalServer) 5 "https://git.example/"
                            "tok" emptyNet)))
  /\ length (requests (snd run)) = 2.
Proof.
  intros run.
  destruct (inbox_falls_back_iff_404 (P := samplePlatform) (server := globalServer) 5
              "https://git.example/" "tok" emptyNet
              (Fulfilled [pull10; pull12]) (Fulfilled [pull11]))
    as (_ & Hboth & _); [vm_compute; reflexivity..|].
  split; [exact (Hboth _ _ eq_refl eq_refl)|]. vm_compute. reflexivity.
Defined.

(** The two modes of the resolver on the example.  With both global results
    fulfilled they are returned and nothing more is requested; with a 404 the
    next request is the one for the current user. *)
Example inbox_global_mode :
  let run := inboxFromSettled (P := samplePlatform) (server := sampleServer) 5
               "https://git.example/" "tok" (initialDebug 0 "https://git.example")
               (Fulfilled [pull10]) (Fulfilled [pull11]) emptyNet in
  (created <$> match fst run with Returned r => Some r | _ => None end) = Some [pull10]
  /\ (reviewRequested <$> match fst run with Returned r => Some r | _ => None end)
     = Some [pull11]
  /\ requests (snd run) = [].
Proof. vm_compute. repeat split; reflexivity. Qed.

Example inbox_fallback_mode :
  let run := inboxFromSettled (P := samplePlatform) (server := sampleServer) 5
               "https://git.example/" "tok" (initialDebug 0 "https://git.example")
               notFound (Fulfilled []) emptyNet in
  head (requests (snd run)) = Some (userRequest "https://git.example/" "tok").
Proof. vm_compute. reflexivity. Qed.

(** Enrichment on the example: pull request 12 has no head SHA, the status
    fetch of pull request 14 fails, and the three others get what the endpoint
    returned; four requests are issued for five items. *)
Example enrichment_on_example :
  let run := enrichAll (P := samplePlatform) (server := sampleServer)
               "https://git.example/" (Some "tok")
               [pull10; pull11; pull12; pull13; pull14] emptyNet in
  fst run = Returned [(10%Z, "success"); (11%Z, "warning"); (12%Z, "unknown");
                      (13%Z, "pending"); (14%Z, "unknown")]
  /\ length (requests (snd run)) = 4.
Proof. vm_compute. split; reflexivity. Qed.

(** * Further properties

    Properties of the code that the specification does not state. *)

(** ** lib/gitea.ts: normalizeBaseUrl, buildRepoUrl, truncate *)

Lemma normalizeBaseUrl_fixed (s : string) :
  endsWithSlash s = false -> normalizeBaseUrl s = s.
Proof.
  induction s as [|c rest IH]; [reflexivity|].
  destruct rest as [|d r].
  - simpl. intros ->. reflexivity.
  - intros H. change (endsWithSlash (String d r) = false) in H.
    specialize (IH H). cbn [normalizeBaseUrl] in *. rewrite IH. reflexivity.
Qed.

Lemma normalizeBaseUrl_split (url : string) :
  exists n, url = normalizeBaseUrl url +:+ slashes n
            /\ endsWithSlash (normalizeBaseUrl url) = false.
Proof.
  induction url as [|c rest (n & Hrest & Hend)].
  - exists 0%nat. split; reflexivity.
  - cbn [normalizeBaseUrl].
    destruct (normalizeBaseUrl rest) as [|d r] eqn:E.
    + destruct (Ascii.eqb c "/") eqn:Ec.
      * apply Ascii.eqb_eq in Ec. subst c. exists (S n). split; [|reflexivity].
        simpl in *. by rewrite Hrest at 1.
      * exists n. split; [|simpl; exact Ec]. simpl in *. by rewrite Hrest at 1.
    + exists n. split; [|exact Hend]. simpl in *. by rewrite Hrest at 1.
Qed.

Lemma stripLeadingSlashes_split (s : string) :
  exists m, s = slashes m +:+ stripLeadingSlashes s
            /\ startsWithSlash (stripLeadingSlashes s) = false.
Proof.
  induction s as [|c rest (m & Hrest & Hstart)].
  - exists 0%nat. split; reflexivity.
  - cbn [stripLeadingSlashes]. destruct (Ascii.eqb c "/") eqn:Ec.
    + apply Ascii.eqb_eq in Ec. subst c. exists (S m). split; [|exact Hstart].
      simpl. by rewrite Hrest at 1.
    + exists 0%nat. split; [reflexivity|]. simpl. exact Ec.
Qed.

(** X1.  [normalizeBaseUrl] removes the slashes at the end of the URL and
    nothing else: the URL is the result followed by slashes only, the result
    does not end with a slash, and normalising it again changes nothing. *)
Theorem normalizeBaseUrl_removes_exactly_the_trailing_slashes (url : string) :
  (exists n, url = normalizeBaseUrl url +:+ slashes n)
  /\ endsWithSlash (normalizeBaseUrl url) = false
  /\ normalizeBaseUrl (normalizeBaseUrl url) = normalizeBaseUrl url.
Proof.
  destruct (normalizeBaseUrl_split url) as (n & Hurl & Hend).
  split; [by exists n|]. split; [exact Hend|].
  by apply normalizeBaseUrl_fixed.
Qed.

(** X2.  With a non-empty suffix, [buildRepoUrl] joins the page of the
    repository and the suffix by exactly one slash: the slashes that end
    the one and those that start the other are dropped. *)
Theorem buildRepoUrl_joins_with_one_slash (baseUrl : string) (repo : GiteaRepo)
    (suffix : string) :
  Js.truthy suffix = true ->
  exists page rest n m,
    buildRepoUrl baseUrl repo None = page +:+ slashes n
    /\ suffix = slashes m +:+ rest
    /\ endsWithSlash page = false
    /\ startsWithSlash rest = false
    /\ buildRepoUrl baseUrl repo (Some suffix) = page +:+ "/" +:+ rest.
Proof.
  intros Hsuffix. unfold buildRepoUrl. rewrite Hsuffix.
  set (repoUrl := if Js.truthy (repo_html_url repo) then _ else _).
  destruct (normalizeBaseUrl_split repoUrl) as (n & Hurl & Hend).
  destruct (stripLeadingSlashes_split suffix) as (m & Hsuf & Hstart).
  exists (normalizeBaseUrl repoUrl), (stripLeadingSlashes suffix), n, m.
  by repeat split.
Qed.

Lemma slice_prefix (s : JsString) (k : Z) :
  (0 <= k)%Z -> slice s 0 (Some k) = take (Z.to_nat k) s.
Proof.
  intros Hk. unfold slice, slice_index.
  destruct (Z.ltb_spec k 0) as [?|_]; [lia|]. simpl.
  rewrite Nat.sub_0_r. change (drop 0 s) with s.
  destruct (Nat.min_spec (Z.to_nat k) (length s)) as [[_ ->]|[Hle ->]].
  - reflexivity.
  - rewrite !take_ge; [reflexivity|lia|lia].
Qed.

Lemma slice_suffix (s : JsString) (k : nat) :
  (0 < k <= length s)%nat -> slice s (- Z.of_nat k) None = drop (length s - k) s.
Proof.
  intros Hk. unfold slice, slice_index.
  destruct (Z.ltb_spec (- Z.of_nat k) 0) as [_|?]; [|lia].
  replace (Z.to_nat (Z.max (Z.of_nat (length s) + - Z.of_nat k) 0))
    with (length s - k)%nat by lia.
  apply take_ge. rewrite length_drop. lia.
Qed.

(** X3.  For a limit of at least 1 the result of [truncate] never has more
    code units than the limit: a text within the limit is returned as it is,
    a longer one is cut to [maxLength - 1] units followed by the ellipsis,
    which makes exactly [maxLength]. *)
Theorem truncate_fits_the_limit (text : JsString) (maxLength : Z) :
  (1 <= maxLength)%Z ->
  (Z.of_nat (length (truncate text maxLength)) <= maxLength)%Z
  /\ truncate text maxLength
     = if (Z.of_nat (length text) <=? maxLength)%Z then text
       else take (Z.to_nat (maxLength - 1)) text ++ ellipsis.
Proof.
  intros Hmax. unfold truncate.
  destruct (Z.leb_spec (Z.of_nat (length text)) maxLength) as [Hle|Hgt].
  - split; [exact Hle|reflexivity].
  - rewrite slice_prefix by lia. split; [|reflexivity].
    rewrite length_app, length_take. simpl. lia.
Qed.

(** ** gitea-pull-requests.tsx: redactToken *)

(** X4.  [redactToken] shows at most the first four and the last four code
    units of a token, and only of a token longer than eight: its result is
    one of the two fixed strings, or those eight units around an ellipsis,
    and never has more than nine units. *)
Theorem redactToken_shows_eight_units_at_most (token : option JsString) :
  (length (redactToken token) <= 9)%nat
  /\ (redactToken token = units "(empty)"
      \/ redactToken token = units "********"
      \/ exists t, token = Some t /\ (8 < length t)%nat
                   /\ redactToken token
                      = take 4 t ++ ellipsis ++ drop (length t - 4) t).
Proof.
  destruct token as [[|u t]|].
  - split; [simpl; lia|by left].
  - remember (u :: t) as tok eqn:Etok.
    assert (Hred : redactToken (@Some JsString tok)
                   = if (length tok <=? 8)%nat then units "********"
                     else slice tok 0 (Some 4%Z) ++ ellipsis ++ slice tok (-4) None)
      by (subst tok; reflexivity).
    rewrite Hred. clear Hred Etok.
    destruct (Nat.leb_spec (length tok) 8) as [Hle|Hgt].
    + split; [simpl; lia|]. right. by left.
    + rewrite slice_prefix by lia. change (-4)%Z with (- Z.of_nat 4)%Z. rewrite (slice_suffix tok 4) by lia.
      change (Z.to_nat 4) with 4%nat.
      split.
      * rewrite !length_app, length_take, length_drop. simpl length. lia.
      * right. right. exists tok. by repeat split.
  - split; [simpl; lia|by left].
Qed.

(** X5.  [formatStatus] ignores the case of ASCII letters, and anything
    other than the four known states, an absent state included, is shown as
    unknown. *)
Theorem formatStatus_ignores_case (st : option string) :
  formatStatus (toLowerCase <$> st) = formatStatus st
  /\ (formatStatus st = "⚪ unknown"
      \/ toLowerCase (default "" st) ∈ ["success"; "failure"; "pending"; "error"]).
Proof.
  assert (Hidem : forall s, toLowerCase (toLowerCase s) = toLowerCase s).
  { induction s as [|c r IH]; [reflexivity|]. cbn [toLowerCase]. rewrite IH. f_equal.
    unfold toLowerCase_ascii.
    destruct ((65 <=? nat_of_ascii c)%nat && (nat_of_ascii c <=? 90)%nat) eqn:E.
    - apply andb_true_iff in E as [H1 H2].
      apply Nat.leb_le in H1. apply Nat.leb_le in H2.
      rewrite nat_ascii_embedding by lia.
      destruct (Nat.leb_spec 65 (nat_of_ascii c + 32)); [|lia].
      destruct (Nat.leb_spec (nat_of_ascii c + 32) 90); [lia|]. reflexivity.
    - rewrite E. reflexivity. }
  split.
  - unfold formatStatus. destruct st as [s|]; [|reflexivity]. simpl. by rewrite Hidem.
  - destruct (decide (toLowerCase (default "" st)
                      ∈ ["success"; "failure"; "pending"; "error"])) as [|Hnot];
      [by right|left].
    unfold formatStatus.
    repeat match goal with
           | |- context [if String.eqb ?a ?b then _ else _] =>
               destruct (String.eqb_spec a b) as [Heq|_];
               [exfalso; apply Hnot; rewrite Heq; set_solver|]
           end.
    reflexivity.
Qed.

(** ** lib/gitea-api.ts: fetchCurrentUser, fetchAllRepos, fetchCommitStatus *)

Section FurtherApi.
Context `{server : Server}.

(** X6.  [fetchCurrentUser] never throws and issues exactly one request: it
    returns the body of a successful answer, and [null] when the request is
    rejected, the status is not a success, or the body is not JSON. *)
Theorem fetchCurrentUser_gives_user_or_null (baseUrl accessToken : string) (w : Net) :
  fetchCurrentUser baseUrl accessToken w
  = (Returned match srv_user (snd (userRequest baseUrl accessToken)) with
              | FetchResolved response => if ok response then json response else None
              | FetchRejected _ => None
              end,
     logged [userRequest baseUrl accessToken] w).
Proof.
  unfold fetchCurrentUser, try_catch, bind, fetch, userRequest, logged, log_request.
  cbn [snd fst].
  destruct (srv_user _) as [e|r]; [reflexivity|].
  destruct (ok r); cbn [negb]; [|reflexivity].
  unfold response_json. destruct (json r); reflexivity.
Qed.

(** The requests of the search loop are those of consecutive pages. *)
Lemma searchLoop_requests baseUrl accessToken fuel :
  forall page prevCount st,
    exists n,
      (n <= fuel)%nat
      /\ repos_net (snd (searchLoop fuel baseUrl accessToken page prevCount st))
         = logged (searchRequest baseUrl accessToken <$> seq page n) (repos_net st).
Proof.
  induction fuel as [|fuel IH]; intros page prevCount st.
  - exists 0%nat. split; [lia|]. destruct st as [rs seen [reqs t]].
    unfold logged. simpl. by rewrite app_nil_r.
  - cbn [searchLoop]. unfold bind at 1. rewrite net_call_fetch.
    fold (searchRequest baseUrl accessToken page).
    change (log_request EpSearch (snd (searchRequest baseUrl accessToken page)))
      with (logged [searchRequest baseUrl accessToken page]).
    assert (Hone : forall r : Outcome unit,
              exists n, (n <= S fuel)%nat
                /\ repos_net (snd (r, with_net (logged [searchRequest baseUrl accessToken page]
                                                  (repos_net st)) st))
                   = logged (searchRequest baseUrl accessToken <$> seq page n)
                       (repos_net st)).
    { intros r. exists 1%nat. split; [lia|reflexivity]. }
    destruct (srv_search _) as [e|resp]; [apply (Hone (Thrown (plain e)))|].
    destruct (ok resp); cbn [negb]; [|apply (Hone (Thrown _))].
    unfold response_json. destruct (json resp) as [j|]; [|apply (Hone (Thrown _))].
    unfold bind at 1, ret at 1.
    unfold bind at 1, pushRepos, modify.
    unfold bind at 1, reposLength, bind at 1, get, ret at 1.
    set (st2 := foldl pushRepo _ _).
    assert (Hnet : repos_net st2
                   = logged [searchRequest baseUrl accessToken page] (repos_net st)).
    { unfold st2. rewrite pushRepos_keepFirst. reflexivity. }
    assert (Hstop : exists n, (n <= S fuel)%nat
                      /\ repos_net (snd (ret (S := ReposState) tt st2))
                         = logged (searchRequest baseUrl accessToken <$> seq page n)
                             (repos_net st)).
    { exists 1%nat. split; [lia|exact Hnet]. }
    repeat match goal with
           | |- context [if ?b then _ else _] => destruct b; [exact Hstop|]
           end.
    destruct (IH (page + 1)%nat (length (repos st2)) st2) as (n & Hn & Hlog).
    exists (S n). split; [lia|]. rewrite Hlog, Hnet, logged_logged.
    cbn [seq fmap list_fmap]. by rewrite Nat.add_1_r.
Qed.

Lemma fetchAllRepos_without_token fuel baseUrl accessToken w :
  Js.truthy_opt accessToken = false ->
  fetchAllRepos fuel baseUrl accessToken w
  = let '(r, st) := searchLoop fuel baseUrl accessToken 1 0
                      {| repos := []; seenIds := ∅; repos_net := w |} in
    (match r with
     | Returned _ => Returned (repos st)
     | Thrown e => Thrown e
     | OutOfFuel => OutOfFuel
     end, repos_net st).
Proof.
  intros Htoken. unfold fetchAllRepos, fetchAllRepos_body, bind.
  destruct (searchLoop _ _ _ _ _ _) as [[[]|e|] st]; try reflexivity.
  destruct accessToken as [token|]; [|reflexivity].
  simpl in Htoken. rewrite Htoken. reflexivity.
Qed.

(** X7.  Without a token (absent or empty), [fetchAllRepos] asks the search
    endpoint only, for consecutive pages from page 1 on, and sends no
    [Authorization] header. *)
Theorem fetchAllRepos_without_token_only_searches (fuel : nat) (baseUrl : string)
    (accessToken : option string) (w : Net) :
  Js.truthy_opt accessToken = false ->
  exists n,
    (n <= fuel)%nat
    /\ snd (fetchAllRepos fuel baseUrl accessToken w)
       = logged (searchRequest baseUrl accessToken <$> seq 1 n) w
    /\ forall page,
         req_authorization (snd (searchRequest baseUrl accessToken page)) = None.
Proof.
  intros Htoken. rewrite fetchAllRepos_without_token by exact Htoken.
  destruct (searchLoop_requests baseUrl accessToken fuel 1 0
              {| repos := []; seenIds := ∅; repos_net := w |}) as (n & Hn & Hlog).
  exists n. split; [exact Hn|]. split.
  - destruct (searchLoop _ _ _ _ _ _) as [r st]. exact Hlog.
  - intros page. cbn. destruct accessToken as [token|]; [|reflexivity].
    simpl in Htoken. simpl. by rewrite Htoken.
Qed.

Lemma pushRepos_counted known data st :
  counted st -> seenIds st ⊆ known ->
  (forall repo, repo ∈ data -> repo_id repo ∈ known) ->
  counted (foldl pushRepo st data)
  /\ seenIds (foldl pushRepo st data) ⊆ known
  /\ seenIds st ⊆ seenIds (foldl pushRepo st data).
Proof.
  revert st. induction data as [|repo data IH]; intros st Hc Hsub Hdata.
  - done.
  - cbn [foldl].
    assert (Hstep : counted (pushRepo st repo)
                    /\ seenIds (pushRepo st repo) ⊆ known
                    /\ seenIds st ⊆ seenIds (pushRepo st repo)).
    { unfold pushRepo. destruct (decide (repo_id repo ∈ seenIds st)) as [Hin|Hout].
      - done.
      - unfold counted in *. cbn [repos seenIds].
        rewrite length_app, size_union by set_solver. rewrite size_singleton.
        simpl. split; [lia|]. split; [|set_solver].
        assert (repo_id repo ∈ known) by (apply Hdata; set_solver). set_solver. }
    destruct Hstep as (Hc1 & Hsub1 & Hmono1).
    destruct (IH (pushRepo st repo) Hc1 Hsub1) as (Hc2 & Hsub2 & Hmono2).
    { intros r Hr. apply Hdata. set_solver. }
    split; [exact Hc2|]. split; [exact Hsub2|]. set_solver.
Qed.

(** When the server knows finitely many repository ids, the search loop
    stops by itself. *)
Lemma searchLoop_ends known baseUrl accessToken :
  searchWithin known ->
  forall fuel page st,
    counted st -> seenIds st ⊆ known ->
    (size known - size (seenIds st) < fuel)%nat ->
    exists r st' n,
      searchLoop fuel baseUrl accessToken page (length (repos st)) st = (r, st')
      /\ r <> OutOfFuel
      /\ (n <= size known - size (seenIds st) + 1)%nat
      /\ repos_net st'
         = logged (searchRequest baseUrl accessToken <$> seq page n) (repos_net st).
Proof.
  intros Hknown. induction fuel as [|fuel IH]; intros page st Hc Hsub Hfuel; [lia|].
  cbn [searchLoop]. unfold bind at 1. rewrite net_call_fetch.
  fold (searchRequest baseUrl accessToken page).
  change (log_request EpSearch (snd (searchRequest baseUrl accessToken page)))
    with (logged [searchRequest baseUrl accessToken page]).
  set (st1 := with_net _ st).
  assert (Hone : forall e,
            exists r st' n,
              (Thrown (A := unit) e, st1) = (r, st')
              /\ r <> OutOfFuel
              /\ (n <= size known - size (seenIds st) + 1)%nat
              /\ repos_net st'
                 = logged (searchRequest baseUrl accessToken <$> seq page n)
                     (repos_net st)).
  { intros e. exists (Thrown e), st1, 1%nat. repeat split; [done|lia]. }
  pose proof (Hknown (snd (searchRequest baseUrl accessToken page))) as Hdata.
  cbn [yield] in Hdata.
  destruct (srv_search _) as [e|resp]; [apply Hone|].
  destruct (ok resp); cbn [negb]; [|apply Hone].
  unfold response_json. destruct (json resp) as [j|]; [|apply Hone].
  unfold bind at 1, ret at 1.
  unfold bind at 1, pushRepos, modify.
  unfold bind at 1, reposLength, bind at 1, get, ret at 1.
  set (data := array_or_empty (search_data j)) in *.
  destruct (pushRepos_counted known data st1) as (Hc2 & Hsub2 & Hmono); [done..|].
  set (st2 := foldl pushRepo st1 data) in *.
  assert (Hnet : repos_net st2
                 = logged [searchRequest baseUrl accessToken page] (repos_net st)).
  { unfold st2. rewrite pushRepos_keepFirst. reflexivity. }
  assert (Hstop : exists r st' n,
            ret (S := ReposState) tt st2 = (r, st')
            /\ r <> OutOfFuel
            /\ (n <= size known - size (seenIds st) + 1)%nat
            /\ repos_net st'
               = logged (searchRequest baseUrl accessToken <$> seq page n)
                   (repos_net st)).
  { exists (Returned tt), st2, 1%nat. repeat split; [done|lia|exact Hnet]. }
  destruct (length data =? 0)%nat; [exact Hstop|].
  match goal with
  | |- context [if ?b then _ else _] => destruct b; [exact Hstop|]
  end.
  destruct (Nat.eqb_spec (length (repos st2)) (length (repos st))) as [_|Hgrew];
    [exact Hstop|].
  assert (Hsize : (size (seenIds st) < size (seenIds st2) <= size known)%nat).
  { pose proof (subseteq_size _ _ Hmono). pose proof (subseteq_size _ _ Hsub2).
    unfold counted in Hc, Hc2. change (seenIds st1) with (seenIds st) in *. lia. }
  destruct (IH (page + 1)%nat st2 Hc2 Hsub2) as (r & st' & n & Hrun & Hr & Hn & Hlog);
    [lia|].
  exists r, st', (S n). split; [exact Hrun|]. split; [exact Hr|]. split; [lia|].
  rewrite Hlog, Hnet, logged_logged. cbn [seq fmap list_fmap]. by rewrite Nat.add_1_r.
Qed.

(** X8.  Against a server that knows finitely many repository ids,
    [fetchAllRepos] without a token ends by itself, after at most one request
    more than there are ids: the loop stops at the first page that brings
    nothing new. *)
Theorem fetchAllRepos_without_token_ends (known : gset Z) (fuel : nat)
    (baseUrl : string) (accessToken : option string) (w : Net) :
  Js.truthy_opt accessToken = false ->
  searchWithin known ->
  (size known < fuel)%nat ->
  exists r n,
    fetchAllRepos fuel baseUrl accessToken w
    = (r, logged (searchRequest baseUrl accessToken <$> seq 1 n) w)
    /\ r <> OutOfFuel
    /\ (n <= size known + 1)%nat.
Proof.
  intros Htoken Hknown Hfuel. rewrite fetchAllRepos_without_token by exact Htoken.
  destruct (searchLoop_ends known baseUrl accessToken Hknown fuel 1
              {| repos := []; seenIds := ∅; repos_net := w |})
    as (r & st' & n & Hrun & Hr & Hn & Hlog).
  - reflexivity.
  - set_solver.
  - cbn [seenIds]. rewrite size_empty. lia.
  - cbn [repos length] in Hrun. rewrite Hrun. cbn [seenIds repos_net] in *.
    rewrite size_empty in Hn.
    eexists _, n. split; [by rewrite Hlog|]. split; [|lia].
    destruct r; done.
Qed.

(** X9.  A search page answered with a status that is not a success makes
    [fetchAllRepos] throw a plain [Error] whose message carries the status
    and the body (or the status line when the body is empty); nothing is
    requested after it. *)
Theorem fetchAllRepos_search_error_is_raised (fuel : nat) (baseUrl : string)
    (accessToken : option string) (w : Net) (response : Response SearchJson) :
  srv_search (snd (searchRequest baseUrl accessToken 1)) = FetchResolved response ->
  ok response = false ->
  fetchAllRepos (S fuel) baseUrl accessToken w
  = (Thrown (plain (OtherError "Error" (apiErrorMessage response))),
     logged [searchRequest baseUrl accessToken 1] w).
Proof.
  intros Hanswer Hok. unfold fetchAllRepos, fetchAllRepos_body.
  assert (Hloop : forall st,
            searchLoop (S fuel) baseUrl accessToken 1 0 st
            = (Thrown (plain (OtherError "Error" (apiErrorMessage response))),
               with_net (logged [searchRequest baseUrl accessToken 1] (repos_net st)) st)).
  { intros st. cbn [searchLoop]. unfold bind at 1. rewrite net_call_fetch.
    unfold searchRequest in Hanswer. cbn [snd] in Hanswer.
    rewrite Hanswer, Hok. reflexivity. }
  rewrite (bind_thrown _ _ _ _ _ (Hloop _)). reflexivity.
Qed.

Lemma appends_ret {A} (a : A) : appends (ret a).
Proof. intros st. done. Qed.

Lemma appends_bind {A B} (m : M ReposState A) (k : A -> M ReposState B) :
  appends m -> (forall a, appends (k a)) -> appends (bind m k).
Proof.
  intros Hm Hk st. unfold bind. specialize (Hm st).
  destruct (m st) as [[a|e|] st1]; [|exact Hm..].
  cbn [snd] in Hm. etrans; [exact Hm|apply Hk].
Qed.

Lemma appends_net_call {A} (m : M Net A) : appends (net_call m).
Proof. intros st. unfold net_call, lift. by destruct (m (repos_net st)). Qed.

Lemma appends_pushRepos data : appends (pushRepos data).
Proof.
  intros st. unfold pushRepos, modify. cbn [snd]. rewrite pushRepos_keepFirst.
  by eexists.
Qed.

Lemma appends_reposLoop fuel endpoint accessToken :
  forall page, appends (reposLoop fuel endpoint accessToken page).
Proof.
  induction fuel as [|fuel IH]; intros page; cbn [reposLoop]; [by intros st|].
  apply appends_bind; [apply appends_net_call|intros response].
  destruct (negb (ok response)); [apply appends_ret|].
  apply appends_bind; [by unfold response_json; destruct (json response); intros st|].
  intros [|[|x d]]; try apply appends_ret.
  apply appends_bind; [by intros st|intros beforeCount].
  apply appends_bind; [apply appends_pushRepos|intros _].
  apply appends_bind; [by intros st|intros count].
  destruct (count =? beforeCount)%nat; [apply appends_ret|apply IH].
Qed.

Lemma appends_orgsLoop fuel baseUrl accessToken :
  forall allOrgs orgPage, appends (orgsLoop fuel baseUrl accessToken allOrgs orgPage).
Proof.
  induction fuel as [|fuel IH]; intros allOrgs orgPage; cbn [orgsLoop]; [by intros st|].
  apply appends_bind; [apply appends_net_call|intros response].
  destruct (negb (ok response)); [apply appends_ret|].
  apply appends_bind; [by unfold response_json; destruct (json response); intros st|].
  intros [|[|x d]]; try apply appends_ret.
  destruct (_ <? _)%nat; [apply appends_ret|apply IH].
Qed.

Lemma appends_orgReposLoops fuel baseUrl accessToken allOrgs :
  appends (orgReposLoops fuel baseUrl accessToken allOrgs).
Proof.
  induction allOrgs as [|org rest IH]; cbn [orgReposLoops]; [apply appends_ret|].
  destruct (Js.or_else _ _) as [orgName|]; [|exact IH].
  destruct (Js.truthy orgName); [|exact IH].
  apply appends_bind; [apply appends_reposLoop|intros _; exact IH].
Qed.

(** X10.  Once the search loop and the loop over the user's repositories have
    returned, no failure of the organisation endpoints makes [fetchAllRepos]
    throw, and none loses a repository collected so far: the array returned
    starts with them. *)
Theorem fetchAllRepos_survives_organisation_failures (fuel : nat) (baseUrl token : string)
    (st st1 st2 : ReposState) :
  Js.truthy token = true ->
  searchLoop fuel baseUrl (Some token) 1 0 st = (Returned tt, st1) ->
  reposLoop fuel (normalizeBaseUrl baseUrl +:+ "/api/v1/user/repos") token 1 st1
  = (Returned tt, st2) ->
  exists r st',
    fetchAllRepos_body fuel baseUrl (Some token) st = (r, st')
    /\ (r = OutOfFuel \/ exists more, r = Returned (repos st2 ++ more)).
Proof.
  intros Htoken Hsearch Hrepos. unfold fetchAllRepos_body.
  rewrite (bind_returned _ _ _ _ _ Hsearch), Htoken.
  rewrite (bind_returned _ _ _ _ _ Hrepos).
  unfold bind at 1, try_catch.
  pose proof (appends_bind _ _ (appends_orgsLoop fuel baseUrl token [] 1)
                (appends_orgReposLoops fuel baseUrl token) st2) as Hkeep.
  destruct (bind _ _ st2) as [[[]|e|] st3]; cbn [snd] in Hkeep.
  - destruct Hkeep as [more Hmore]. eexists _, _. split; [reflexivity|].
    right. exists more. cbn. by rewrite Hmore.
  - destruct Hkeep as [more Hmore]. eexists _, _. split; [reflexivity|].
    right. exists more. cbn. by rewrite Hmore.
  - eexists _, _. split; [reflexivity|]. by left.
Qed.

(** X11.  A commit-status request answered with a status that is not a
    success makes [fetchCommitStatus] throw a [GiteaApiError] that carries
    the status, the body (or the status line when the body is empty) and the
    URL requested. *)
Theorem fetchCommitStatus_raises_api_error (baseUrl owner name sha : string)
    (accessToken : option string) (w : Net) (response : Response StatusJson) :
  srv_status (statusRequest baseUrl accessToken owner name sha) = FetchResolved response ->
  ok response = false ->
  fetchCommitStatus baseUrl owner name sha accessToken w
  = (Thrown (plain (GiteaApiError (status response) (apiErrorMessage response)
                      (Some (req_url (statusRequest baseUrl accessToken owner name sha))))),
     logged [(EpStatus, statusRequest baseUrl accessToken owner name sha)] w).
Proof.
  intros Hanswer Hok. unfold fetchCommitStatus, bind, fetch.
  fold (statusRequest baseUrl accessToken owner name sha). rewrite Hanswer, Hok.
  reflexivity.
Qed.

End FurtherApi.

(** ** lib/gitea-settings.ts *)

Section FurtherSettings.
Context `{R : Runtime}.

Lemma settings_keys_differ : BASE_URL_KEY <> ACCESS_TOKEN_KEY.
Proof. discriminate. Qed.

(** X12.  What [saveStoredGiteaSettings] stores, [loadStoredGiteaSettings]
    gives back trimmed; a field that was absent comes back as the empty
    string, not as absent. *)
Theorem stored_settings_round_trip {V} (next : StoredGiteaSettings) (a : App V) :
  exists a1 a2,
    saveStoredGiteaSettings next a = (Returned tt, a1)
    /\ loadStoredGiteaSettings a1
       = (Returned {| stored_baseUrl := Some (default "" (trim <$> stored_baseUrl next));
                      stored_accessToken :=
                        Some (default "" (trim <$> stored_accessToken next)) |}, a2)
    /\ storage a2 = storage a1.
Proof.
  eexists _, _. split; [reflexivity|]. split.
  - unfold loadStoredGiteaSettings, saveStoredGiteaSettings, bind, getItem, setItem,
      set_storage, modify, ret. cbn [storage].
    rewrite lookup_insert_ne by (apply not_eq_sym, settings_keys_differ).
    rewrite !lookup_insert_eq. reflexivity.
  - reflexivity.
Qed.

(** X13.  After [clearStoredGiteaSettings] both settings load as absent, and
    every other stored entry is as before. *)
Theorem cleared_settings_load_as_absent {V} (a : App V) :
  exists a1 a2,
    clearStoredGiteaSettings a = (Returned tt, a1)
    /\ loadStoredGiteaSettings a1
       = (Returned {| stored_baseUrl := None; stored_accessToken := None |}, a2)
    /\ forall key, key <> BASE_URL_KEY -> key <> ACCESS_TOKEN_KEY ->
                   storage a1 !! key = storage a !! key.
Proof.
  eexists _, _. split; [reflexivity|]. split.
  - unfold loadStoredGiteaSettings, clearStoredGiteaSettings, bind, getItem, removeItem,
      set_storage, modify, ret. cbn [storage].
    rewrite lookup_delete_ne by (apply not_eq_sym, settings_keys_differ).
    rewrite !lookup_delete_eq. reflexivity.
  - intros key Hb Ht. cbn. by rewrite !lookup_delete_ne.
Qed.

End FurtherSettings.

(** ** gitea-pull-requests.tsx: the inbox cache *)

Lemma truthy_pretty (n : Z) : Js.truthy (pretty n) = true.
Proof.
  assert (Hgo : forall x s, s <> "" -> pretty_N_go x s <> "").
  { intros x. induction (N.lt_wf_0 x) as [x _ IH]. intros s Hs.
    assert (x = 0 \/ 0 < x)%N as [->|Hpos] by lia.
    - by rewrite pretty_N_go_0.
    - rewrite pretty_N_go_step by done. apply IH; [by apply N.div_lt|done]. }
  assert (Hpos : forall p : positive, pretty p <> "").
  { intros p. unfold pretty, pretty_positive, pretty, pretty_N.
    destruct (decide (N.pos p = 0%N)) as [?|_]; [done|].
    rewrite pretty_N_go_step by lia. by apply Hgo. }
  unfold Js.truthy. destruct n as [|p|p]; [reflexivity| |reflexivity].
  change (pretty (Z.pos p)) with (pretty p).
  specialize (Hpos p). by destruct (pretty p).
Qed.

Section FurtherInboxCache.
Context `{P : Platform}.

Lemma prCacheKey_not_time (baseUrl other : string) :
  prCacheKey baseUrl <> prCacheTimeKey other.
Proof. unfold prCacheKey, prCacheTimeKey. intros H. discriminate H. Qed.

Lemma prCacheKey_inj (baseUrl other : string) :
  prCacheKey baseUrl = prCacheKey other ->
  encodeURIComponent baseUrl = encodeURIComponent other.
Proof. unfold prCacheKey. intros H. by simplify_eq/=. Qed.

Lemma prCacheTimeKey_inj (baseUrl other : string) :
  prCacheTimeKey baseUrl = prCacheTimeKey other ->
  encodeURIComponent baseUrl = encodeURIComponent other.
Proof. unfold prCacheTimeKey. intros H. by simplify_eq/=. Qed.

(** What [loadCachedInbox] does, in terms of the two entries. *)
Lemma loadCachedInbox_run (baseUrl : string) (a : App View) :
  loadCachedInbox baseUrl a
  = (Returned
       match storage a !! prCacheKey baseUrl, storage a !! prCacheTimeKey baseUrl with
       | Some raw, Some rawTime =>
           if negb (Js.truthy raw) || negb (Js.truthy rawTime) then noCachedInbox
           else match Number_of_string rawTime, parse_inbox raw with
                | Some timestamp, Some payload =>
                    {| cached_payload := Some payload;
                       cached_timestamp := Some timestamp |}
                | _, _ => noCachedInbox
                end
       | _, _ => noCachedInbox
       end,
     with_reads [prCacheKey baseUrl; prCacheTimeKey baseUrl] a).
Proof.
  unfold loadCachedInbox, bind, getItem, with_reads. cbn [storage storage_reads].
  rewrite <- app_assoc. cbn [app].
  destruct (storage a !! prCacheKey baseUrl) as [raw|];
    destruct (storage a !! prCacheTimeKey baseUrl) as [rawTime|]; try reflexivity.
  destruct (negb (Js.truthy raw) || negb (Js.truthy rawTime)); [reflexivity|].
  destruct (Number_of_string rawTime); [|reflexivity].
  destruct (parse_inbox raw); reflexivity.
Qed.

(** X14.  [loadCachedInbox] never throws and writes nothing; what it returns
    depends on the stored entries only, and holds a payload and a timestamp
    together or neither. *)
Theorem loadCachedInbox_reads_both_or_neither (baseUrl : string) (a : App View) :
  exists cached,
    loadCachedInbox baseUrl a
    = (Returned cached, with_reads [prCacheKey baseUrl; prCacheTimeKey baseUrl] a)
    /\ (cached_payload cached = None <-> cached_timestamp cached = None)
    /\ forall b : App View,
         storage b = storage a -> fst (loadCachedInbox baseUrl b) = Returned cached.
Proof.
  eexists. split; [apply loadCachedInbox_run|]. split.
  - repeat case_match; done.
  - intros b Hb. rewrite loadCachedInbox_run, Hb. reflexivity.
Qed.

(** X15.  What [saveCachedInbox] stores, [loadCachedInbox] gives back, with
    the reading of the clock taken at the save as its timestamp, provided
    that parsing undoes serialisation on that payload and on that reading. *)
Theorem inbox_cache_round_trip (baseUrl : string) (payload : PullInboxCachePayload)
    (a : App View) :
  let now := clock (ticks (app_net a)) in
  Js.truthy (stringify_inbox payload) = true ->
  parse_inbox (stringify_inbox payload) = Some payload ->
  Number_of_string (pretty now) = Some now ->
  exists a1,
    saveCachedInbox baseUrl payload a = (Returned tt, a1)
    /\ fst (loadCachedInbox baseUrl a1)
       = Returned {| cached_payload := Some payload; cached_timestamp := Some now |}.
Proof.
  intros now Htruthy Hparse Hnumber. eexists. split; [reflexivity|].
  rewrite loadCachedInbox_run. cbn.
  rewrite lookup_insert_ne by (apply not_eq_sym, prCacheKey_not_time).
  rewrite !lookup_insert_eq. fold now.
  by rewrite Htruthy, truthy_pretty, Hnumber, Hparse.
Qed.

(** X16.  After [clearCachedInbox], [loadCachedInbox] finds nothing for that
    base URL. *)
Theorem cleared_inbox_cache_is_empty (baseUrl : string) (a : App View) :
  exists a1,
    clearCachedInbox baseUrl a = (Returned tt, a1)
    /\ fst (loadCachedInbox baseUrl a1) = Returned noCachedInbox.
Proof.
  eexists. split; [reflexivity|]. rewrite loadCachedInbox_run. cbn.
  rewrite lookup_delete_eq. by destruct (_ !! prCacheKey baseUrl).
Qed.

(** X17.  The cache is kept per base URL: saving or clearing the entry of
    one base URL changes nothing of what is loaded for a base URL that
    [encodeURIComponent] encodes differently. *)
Theorem inbox_cache_is_per_base_url (baseUrl other : string)
    (payload : PullInboxCachePayload) (a : App View) :
  encodeURIComponent baseUrl <> encodeURIComponent other ->
  fst (loadCachedInbox other (snd (saveCachedInbox baseUrl payload a)))
  = fst (loadCachedInbox other a)
  /\ fst (loadCachedInbox other (snd (clearCachedInbox baseUrl a)))
     = fst (loadCachedInbox other a).
Proof.
  intros Hdiff.
  assert (H1 : prCacheKey baseUrl <> prCacheKey other)
    by (intros H; by apply Hdiff, prCacheKey_inj).
  assert (H2 : prCacheTimeKey baseUrl <> prCacheTimeKey other)
    by (intros H; by apply Hdiff, prCacheTimeKey_inj).
  pose proof (prCacheKey_not_time baseUrl other) as H3.
  pose proof (prCacheKey_not_time other baseUrl) as H4.
  split; rewrite !loadCachedInbox_run; cbn.
  - by rewrite !lookup_insert_ne by done.
  - by rewrite !lookup_delete_ne by done.
Qed.

End FurtherInboxCache.

(** ** gitea-pull-requests.tsx: refreshInbox *)

Section FurtherRefresh.
Context `{P : Platform} `{server : Server}.

Lemma loadCachedInbox_state (baseUrl : string) (a : App View) :
  exists cached,
    loadCachedInbox baseUrl a
    = (Returned cached, with_reads [prCacheKey baseUrl; prCacheTimeKey baseUrl] a).
Proof. rewrite loadCachedInbox_run. by eexists. Qed.

Lemma loadCachedInbox_storage (baseUrl : string) (a b : App View) :
  storage b = storage a ->
  fst (loadCachedInbox baseUrl b) = fst (loadCachedInbox baseUrl a).
Proof. intros H. by rewrite !loadCachedInbox_run, H. Qed.

Lemma liveFetchFailed_returns (e : Exn) (a : App View) :
  exists a', liveFetchFailed e a = (Returned tt, a')
             /\ storage a' = storage a /\ app_net a' = app_net a
             /\ storage_reads a' = storage_reads a.
Proof. unfold liveFetchFailed. destruct (exn_debug e); by eexists. Qed.

(** The live part of a refresh never throws, and ends with the loading flag
    off. *)
Lemma live_refresh_settles fuel baseUrl accessToken (a : App View) :
  let run := try_finally
               (try_catch (liveFetch fuel baseUrl accessToken) liveFetchFailed)
               (fun a => mkApp (app_net a) (storage a) (storage_reads a)
                           (with_isLoading false (view a)) (toasts a)) a in
  fst run = OutOfFuel
  \/ (fst run = Returned tt /\ isLoading (view (snd run)) = false).
Proof.
  unfold try_finally, try_catch.
  destruct (fetchPullRequestInbox fuel baseUrl accessToken (app_net a)) as [r w1] eqn:E.
  rewrite (liveFetch_run fuel baseUrl accessToken a r w1 E).
  destruct r as [result|e|].
  - right. done.
  - destruct (liveFetchFailed_returns e
                (mkApp w1 (storage a) (storage_reads a) (view a) (toasts a)))
      as (a' & -> & _). right. done.
  - left. done.
Qed.

Lemma showCachedInbox_returns (baseUrl : string) (cacheTtlMinutes : Z) (a : App View) :
  exists flags a', showCachedInbox baseUrl cacheTtlMinutes a = (Returned flags, a').
Proof.
  unfold showCachedInbox. destruct (loadCachedInbox_state baseUrl a) as [c Hload].
  rewrite (bind_returned _ _ _ _ _ Hload).
  destruct (cached_payload c) as [payload|]; [|by eexists _, _].
  unfold bind, setCreatedPulls, setReviewRequestedPulls, set_view, modify, checkFresh.
  destruct (payload_statusById payload); cbn;
    destruct (Js.truthy_num (cached_timestamp c)); by eexists _, _.
Qed.

(** X18.  [refreshInbox] never throws, and whenever it ends the loading flag
    is off: whether the command is configured or not, whether the cache is
    fresh or not, and whether the live fetch returns or throws. *)
Theorem refreshInbox_never_throws_and_stops_loading (fuel : nat)
    (baseUrl accessToken : option string) (cacheTtlMinutes : Z) (force : bool)
    (a : App View) :
  let run := refreshInbox fuel baseUrl accessToken cacheTtlMinutes force a in
  fst run = OutOfFuel
  \/ (fst run = Returned tt /\ isLoading (view (snd run)) = false).
Proof.
  intros run.
  assert (Hrun : exists r a',
            run = (r, a')
            /\ (r = OutOfFuel \/ (r = Returned tt /\ isLoading (view a') = false))).
  { subst run. unfold refreshInbox.
    destruct baseUrl as [baseUrl|]; [|eexists _, _; split; [reflexivity|by right]].
    destruct accessToken as [accessToken|];
      [|eexists _, _; split; [reflexivity|by right]].
    destruct (negb (Js.truthy baseUrl) || negb (Js.truthy accessToken));
      [eexists _, _; split; [reflexivity|by right]|].
    unfold bind at 1, setErrorMessage at 1, set_view, modify.
    unfold bind at 1, setDebugInfo at 1, set_view, modify.
    unfold bind at 1, setLastError at 1, set_view, modify.
    unfold bind at 1.
    match goal with
    | |- context [(if negb force then _ else _) ?a0] =>
        assert (Hstep : exists flags a1,
                  (if negb force then showCachedInbox baseUrl cacheTtlMinutes
                   else ret (false, false)) a0 = (Returned flags, a1))
    end.
    { destruct force; cbn [negb]; [by eexists _, _|apply showCachedInbox_returns]. }
    destruct Hstep as ([hasCached fresh] & a1 & ->).
    destruct fresh; [eexists _, _; split; [reflexivity|by right]|].
    unfold bind at 1, setIsLoading at 1, set_view, modify.
    eexists _, _. split; [apply surjective_pairing|apply live_refresh_settles]. }
  destruct Hrun as (r & a' & -> & Hrun). exact Hrun.
Qed.

(** X19.  A refresh that is not forced and finds a fresh entry in the cache
    shows the cached lists and issues no request at all; the stored entries
    stay as they are and no toast is shown. *)
Theorem fresh_cache_answers_without_network (fuel : nat) (baseUrl accessToken : string)
    (cacheTtlMinutes : Z) (a : App View) (payload : PullInboxCachePayload) (t : Z) :
  Js.truthy baseUrl = true ->
  Js.truthy accessToken = true ->
  fst (loadCachedInbox baseUrl a)
  = Returned {| cached_payload := Some payload; cached_timestamp := Some t |} ->
  isFresh (Some t) (clock (ticks (app_net a))) cacheTtlMinutes = true ->
  exists a',
    refreshInbox fuel (Some baseUrl) (Some accessToken) cacheTtlMinutes false a
    = (Returned tt, a')
    /\ requests (app_net a') = requests (app_net a)
    /\ storage a' = storage a
    /\ toasts a' = toasts a
    /\ createdPulls (view a') = payload_created payload
    /\ reviewRequestedPulls (view a') = payload_reviewRequested payload
    /\ isLoading (view a') = false
    /\ errorMessage (view a') = None.
Proof.
  intros Hb Ht Hcached Hfresh. unfold refreshInbox. rewrite Hb, Ht. cbn [negb orb].
  unfold bind at 1, setErrorMessage at 1, set_view, modify.
  unfold bind at 1, setDebugInfo at 1, set_view, modify.
  unfold bind at 1, setLastError at 1, set_view, modify.
  unfold bind at 1.
  match goal with
  | |- context [showCachedInbox baseUrl cacheTtlMinutes ?a0] => set (a0' := a0)
  end.
  assert (Hload : fst (loadCachedInbox baseUrl a0')
                  = Returned {| cached_payload := Some payload;
                                cached_timestamp := Some t |}).
  { rewrite <- Hcached. by apply loadCachedInbox_storage. }
  unfold showCachedInbox. destruct (loadCachedInbox_state baseUrl a0') as [c Hc].
  rewrite Hc in Hload. cbn [fst] in Hload. injection Hload as ->.
  rewrite (bind_returned _ _ _ _ _ Hc).
  cbn [cached_payload cached_timestamp].
  assert (Htruthy : Js.truthy_num (Some t) = true).
  { unfold isFresh in Hfresh. by apply andb_true_iff in Hfresh as [? _]. }
  unfold checkFresh. rewrite Htruthy.
  unfold bind, setCreatedPulls, setReviewRequestedPulls, set_view, modify.
  subst a0'.
  destruct (payload_statusById payload); cbn -[isFresh]; rewrite Hfresh; cbn;
    eexists; (split; [reflexivity|]); cbn; done.
Qed.

Lemma live_refresh_ignores_reads fuel baseUrl accessToken keys (a : App View) :
  let live := try_finally
                (try_catch (liveFetch fuel baseUrl accessToken) liveFetchFailed)
                (fun a => mkApp (app_net a) (storage a) (storage_reads a)
                            (with_isLoading false (view a)) (toasts a)) in
  live (with_reads keys a) = (fst (live a), with_reads keys (snd (live a))).
Proof.
  unfold try_finally, try_catch.
  destruct (fetchPullRequestInbox fuel baseUrl accessToken (app_net a)) as [r w1] eqn:E.
  rewrite (liveFetch_run fuel baseUrl accessToken a r w1 E).
  rewrite (liveFetch_run fuel baseUrl accessToken (with_reads keys a) r w1 E).
  destruct r as [result|e|]; [reflexivity| |reflexivity].
  unfold liveFetchFailed. destruct (exn_debug e); reflexivity.
Qed.

(** X20.  When the cache holds nothing that [loadCachedInbox] can use for the
    base URL, a refresh that is not forced does what a forced one does: same
    outcome, same requests, same stored entries, same view and toasts; the
    only trace of the cache lookup is the two keys read. *)
Theorem empty_cache_refresh_is_a_forced_one (fuel : nat) (baseUrl accessToken : string)
    (cacheTtlMinutes : Z) (a : App View) :
  Js.truthy baseUrl = true ->
  Js.truthy accessToken = true ->
  fst (loadCachedInbox baseUrl a) = Returned noCachedInbox ->
  let forced := refreshInbox fuel (Some baseUrl) (Some accessToken) cacheTtlMinutes
                  true a in
  refreshInbox fuel (Some baseUrl) (Some accessToken) cacheTtlMinutes false a
  = (fst forced,
     with_reads [prCacheKey baseUrl; prCacheTimeKey baseUrl] (snd forced)).
Proof.
  intros Hb Ht Hcached forced. subst forced. unfold refreshInbox. rewrite Hb, Ht.
  cbn [negb orb].
  unfold bind at 1, setErrorMessage at 1, set_view, modify.
  unfold bind at 1, setDebugInfo at 1, set_view, modify.
  unfold bind at 1, setLastError at 1, set_view, modify.
  unfold bind at 1.
  match goal with
  | |- context [showCachedInbox baseUrl cacheTtlMinutes ?a0] => set (a0' := a0)
  end.
  assert (Hload : fst (loadCachedInbox baseUrl a0') = Returned noCachedInbox).
  { rewrite <- Hcached. by apply loadCachedInbox_storage. }
  unfold showCachedInbox. destruct (loadCachedInbox_state baseUrl a0') as [c Hc].
  rewrite Hc in Hload. cbn [fst] in Hload. injection Hload as ->.
  rewrite (bind_returned _ _ _ _ _ Hc).
  cbn [cached_payload noCachedInbox].
  unfold bind at 1, ret at 1. unfold bind at 1, setIsLoading at 1, set_view, modify.
  unfold bind at 1, setErrorMessage at 1, set_view, modify.
  unfold bind at 1, setDebugInfo at 1, set_view, modify.
  unfold bind at 1, setLastError at 1, set_view, modify.
  unfold bind at 1, ret at 1. unfold bind at 1, setIsLoading at 1, set_view, modify.
  match goal with
  | |- _ = (fst (?live ?x), _) =>
      exact (live_refresh_ignores_reads fuel baseUrl accessToken
               [prCacheKey baseUrl; prCacheTimeKey baseUrl] x)
  end.
Qed.

Lemma bind_returned_inv {S A B} (m : M S A) (k : A -> M S B) s b s' :
  bind m k s = (Returned b, s') ->
  exists a s1, m s = (Returned a, s1) /\ k a s1 = (Returned b, s').
Proof.
  unfold bind. destruct (m s) as [[a|e|] s1]; [|discriminate..].
  intros H. by exists a, s1.
Qed.

(** X21.  Whenever [fetchPullRequestInbox] returns, the debug record it
    returns agrees with the result: the two counts are the lengths of the
    two lists, the start is the first reading of the clock and a finish
    time is set, and exactly one of the two modes is recorded, the global
    one with no error, the fallback with the login of the current user and
    the number of repositories. *)
Theorem returned_debug_agrees_with_result (fuel : nat) (baseUrl accessToken : string)
    (w w' : Net) (result : InboxResult) :
  fetchPullRequestInbox fuel baseUrl accessToken w = (Returned result, w') ->
  let dbg := debug result in
  createdCount dbg = Some (length (created result))
  /\ reviewRequestedCount dbg = Some (length (reviewRequested result))
  /\ startedAt dbg = clock (ticks w)
  /\ finishedAt dbg <> None
  /\ ((usedGlobalEndpoints dbg = Some true /\ fallbackUsed dbg = Some false
       /\ errors dbg = [])
      \/ (usedGlobalEndpoints dbg = Some false /\ fallbackUsed dbg = Some true
          /\ dbg_currentUser dbg <> None /\ repoCount dbg <> None
          /\ dbg_perRepoFailures dbg <> None)).
Proof.
  unfold fetchPullRequestInbox. intros Hrun.
  apply bind_returned_inv in Hrun as (started & w1 & Hnow & Hrun).
  injection Hnow as <- <-.
  apply bind_returned_inv in Hrun as ([createdResult reviewResult] & w2 & _ & Hrun).
  cbn [fst snd] in Hrun. unfold inboxFromSettled in Hrun.
  destruct (negb (any404 createdResult reviewResult)) eqn:Hmode.
  - unfold globalInbox in Hrun.
    destruct createdResult as [createdValue|reason]; [|discriminate].
    destruct reviewResult as [reviewValue|reason]; [|discriminate].
    apply bind_returned_inv in Hrun as (finished & w3 & _ & Hrun).
    injection Hrun as <- <-. cbn. repeat split; try done. by left.
  - unfold fallbackInbox in Hrun.
    apply bind_returned_inv in Hrun as ([currentUser|] & w3 & _ & Hrun); [|discriminate].
    apply bind_returned_inv in Hrun as (rs & w4 & _ & Hrun).
    apply bind_returned_inv in Hrun as ([perRepo failures] & w5 & _ & Hrun).
    apply bind_returned_inv in Hrun as (finished & w6 & _ & Hrun).
    injection Hrun as <- <-.
    destruct createdResult, reviewResult; cbn; repeat split; try done; by right.
Qed.

End FurtherRefresh.

(** ** The lists on display *)

Section Sorting.
Context {A : Type} (cmp : A -> A -> Z).

Lemma sort_insert_perm (x : A) (l : list A) : sort_insert cmp x l ≡ₚ x :: l.
Proof.
  induction l as [|y rest IH]; [done|]. cbn [sort_insert].
  destruct (cmp x y <=? 0)%Z; [done|]. rewrite IH. apply Permutation_swap.
Qed.

Lemma Array_sort_perm (l : list A) : Array_sort cmp l ≡ₚ l.
Proof.
  induction l as [|x l IH]; [done|]. unfold Array_sort in *. cbn [foldr].
  by rewrite sort_insert_perm, IH.
Qed.

Hypothesis cmp_total : forall x y, (cmp x y <= 0)%Z \/ (cmp y x <= 0)%Z.
Hypothesis cmp_trans :
  forall x y z, (cmp x y <= 0)%Z -> (cmp y z <= 0)%Z -> (cmp x z <= 0)%Z.

Lemma sort_insert_sorted (x : A) (l : list A) :
  StronglySorted (fun a b => (cmp a b <= 0)%Z) l ->
  StronglySorted (fun a b => (cmp a b <= 0)%Z) (sort_insert cmp x l).
Proof.
  induction 1 as [|y rest Hrest IH Hy]; cbn [sort_insert].
  - by repeat constructor.
  - destruct (Z.leb_spec (cmp x y) 0) as [Hxy|Hxy].
    + constructor; [by constructor|]. constructor; [exact Hxy|].
      eapply Forall_impl; [exact Hy|]. intros z Hz. by eapply cmp_trans.
    + constructor; [exact IH|]. rewrite sort_insert_perm. constructor; [|exact Hy].
      destruct (cmp_total x y); [lia|done].
Qed.

Lemma Array_sort_sorted (l : list A) :
  StronglySorted (fun a b => (cmp a b <= 0)%Z) (Array_sort cmp l).
Proof.
  induction l as [|x l IH]; [constructor|]. unfold Array_sort in *. cbn [foldr].
  by apply sort_insert_sorted.
Qed.

End Sorting.

Lemma StronglySorted_weaken {A} (R1 R2 : A -> A -> Prop) (l : list A) :
  (forall x y, R1 x y -> R2 x y) -> StronglySorted R1 l -> StronglySorted R2 l.
Proof.
  intros Himpl. induction 1 as [|x l _ IH Hx]; constructor; [exact IH|].
  eapply Forall_impl; [exact Hx|]. intros y. apply Himpl.
Qed.

Lemma filter_none {A} (f : A -> bool) (l : list A) :
  (forall x, x ∈ l -> f x = false) -> List.filter f l = [].
Proof.
  induction l as [|x l IH]; intros H; [done|]. cbn [List.filter].
  rewrite (H x) by set_solver. apply IH. intros y Hy. apply H. set_solver.
Qed.

Lemma filter_all {A} (f : A -> bool) (l : list A) :
  (forall x, x ∈ l -> f x = true) -> List.filter f l = l.
Proof.
  induction l as [|x l IH]; intros H; [done|]. cbn [List.filter].
  rewrite (H x) by set_solver. f_equal. apply IH. intros y Hy. apply H. set_solver.
Qed.

Lemma filter_perm_app {A} (f : A -> bool) (l k1 k2 : list A) :
  l ≡ₚ k1 ++ k2 -> List.filter f l ≡ₚ List.filter f k1 ++ List.filter f k2.
Proof.
  intros H. rewrite <- List.filter_app.
  induction H as [|x l l' _ IH|x y l|l l' l'' _ IH1 _ IH2]; cbn [List.filter].
  - done.
  - destruct (f x); [by constructor|done].
  - destruct (f x), (f y); try done. apply Permutation_swap.
  - by etrans.
Qed.

Section FurtherDisplay.
Context `{P : Platform} `{R : Runtime}.

Lemma sortByUpdatedAtDesc_notOlder (a b : GiteaPullRequest) :
  (sortByUpdatedAtDesc a b <= 0)%Z <-> notOlder a b.
Proof.
  unfold sortByUpdatedAtDesc, notOlder.
  destruct (Date_parse (pr_updated_at a)), (Date_parse (pr_updated_at b)); lia.
Qed.

(** X22.  The list on display holds the pull requests that match the search
    text, each as often as the list it is made from, ordered by date of
    update: no pull request stands before one updated later, and those
    whose date does not parse stand at the end. *)
Theorem filteredPulls_newest_first (searchText : string) (pulls : list GiteaPullRequest) :
  filteredPulls searchText pulls ≡ₚ List.filter (matches searchText) pulls
  /\ StronglySorted notOlder (filteredPulls searchText pulls).
Proof.
  unfold filteredPulls. split; [apply Array_sort_perm|].
  eapply StronglySorted_weaken; [|apply Array_sort_sorted].
  - intros a b Hab. by apply sortByUpdatedAtDesc_notOlder.
  - intros a b. rewrite !sortByUpdatedAtDesc_notOlder. unfold notOlder.
    destruct (Date_parse (pr_updated_at a)), (Date_parse (pr_updated_at b)); lia.
  - intros a b c. rewrite !sortByUpdatedAtDesc_notOlder. unfold notOlder.
    destruct (Date_parse (pr_updated_at a)), (Date_parse (pr_updated_at b)),
      (Date_parse (pr_updated_at c)); lia.
Qed.

End FurtherDisplay.

Section FurtherRepoDisplay.
Context `{P : Platform} `{R : Runtime} `{server : Server}.

Lemma reposWithUsage_sorted (usage : gmap string Z) (filtered : list GiteaRepo) :
  StronglySorted (fun a b => (lastUsed usage b <= lastUsed usage a)%Z)
    (reposWithUsage usage filtered).
Proof.
  unfold reposWithUsage. eapply StronglySorted_weaken; [|apply Array_sort_sorted].
  - intros a b. unfold lastUsed. lia.
  - intros a b. lia.
  - intros a b c. lia.
Qed.

Lemma reposWithUsage_perm (usage : gmap string Z) (filtered : list GiteaRepo) :
  reposWithUsage usage filtered
  ≡ₚ List.filter (fun repo => Js.truthy_num (usageOf usage repo)) filtered.
Proof. apply Array_sort_perm. Qed.

Lemma filter_submseteq {A} (f : A -> bool) (l : list A) : List.filter f l ⊆+ l.
Proof.
  induction l as [|x l IH]; [done|]. cbn [List.filter].
  destruct (f x); [by constructor|by apply submseteq_cons].
Qed.

Lemma sections_partition (usage : gmap string Z) (filtered : list GiteaRepo) :
  NoDup (repo_id <$> filtered) ->
  recentRepos usage filtered ++ otherRepos usage filtered ≡ₚ filtered
  /\ (length (recentRepos usage filtered) <= 4)%nat
  /\ Forall (fun repo => Js.truthy_num (usageOf usage repo) = true)
       (recentRepos usage filtered)
  /\ forall recent other,
       recent ∈ recentRepos usage filtered ->
       other ∈ otherRepos usage filtered ->
       Js.truthy_num (usageOf usage other) = true ->
       (lastUsed usage other <= lastUsed usage recent)%Z.
Proof.
  intros Hnodup.
  set (recent := recentRepos usage filtered).
  assert (Hsub : recent ⊆+ filtered).
  { unfold recent, recentRepos. etrans; [apply sublist_submseteq, sublist_take|].
    rewrite reposWithUsage_perm. apply filter_submseteq. }
  destruct (submseteq_Permutation _ _ Hsub) as [rest Hrest].
  assert (Hids : NoDup (repo_id <$> (recent ++ rest))) by by rewrite <- Hrest.
  rewrite fmap_app in Hids. apply NoDup_app in Hids as (_ & Hdisj & _).
  assert (Hother : otherRepos usage filtered ≡ₚ rest).
  { unfold otherRepos. fold recent. rewrite Array_sort_perm.
    rewrite (filter_perm_app _ _ _ _ Hrest).
    assert (H1 : List.filter
                   (fun repo => negb (bool_decide
                      (repo_id repo ∈ (list_to_set (repo_id <$> recent) : gset Z))))
                   recent = []).
    { apply filter_none. intros x Hx. apply negb_false_iff, bool_decide_eq_true.
      apply elem_of_list_to_set, list_elem_of_fmap. by exists x. }
    assert (H2 : List.filter
                   (fun repo => negb (bool_decide
                      (repo_id repo ∈ (list_to_set (repo_id <$> recent) : gset Z))))
                   rest = rest).
    { apply filter_all. intros x Hx.
      apply negb_true_iff, bool_decide_eq_false. intros Hin.
      apply elem_of_list_to_set in Hin. apply (Hdisj (repo_id x) Hin).
      apply list_elem_of_fmap. by exists x. }
    by rewrite H1, H2. }
  split; [by rewrite Hother|]. split; [|split].
  - unfold recent, recentRepos. rewrite length_take. lia.
  - apply Forall_forall. intros repo Hrepo.
    assert (Hin : repo ∈ reposWithUsage usage filtered).
    { unfold recent, recentRepos in Hrepo. by apply (subseteq_take 4) in Hrepo. }
    rewrite reposWithUsage_perm in Hin. apply list_elem_of_In, filter_In in Hin.
    by destruct Hin.
  - intros r o Hr Ho Hused.
    assert (Horest : o ∈ rest) by by rewrite <- Hother.
    assert (Hofiltered : o ∈ reposWithUsage usage filtered).
    { rewrite reposWithUsage_perm. apply list_elem_of_In, filter_In. split; [|done].
      apply list_elem_of_In. rewrite Hrest. set_solver. }
    assert (Honot : o ∉ recent).
    { intros Hin. apply (Hdisj (repo_id o)); apply list_elem_of_fmap; by exists o. }
    pose proof (reposWithUsage_sorted usage filtered) as Hsorted.
    rewrite <- (take_drop 4 (reposWithUsage usage filtered)) in Hofiltered, Hsorted.
    fold (recentRepos usage filtered) in Hofiltered, Hsorted.
    fold recent in Hofiltered, Hsorted.
    apply elem_of_app in Hofiltered as [?|Hlate]; [done|].
    exact (StronglySorted_app_1_elem_of _ _ _ r o Hsorted Hr Hlate).
Qed.

Lemma filteredRepos_submseteq (searchText : string) (rs : list GiteaRepo) :
  filteredRepos searchText rs ⊆+ rs.
Proof.
  unfold filteredRepos. destruct (Js.truthy _); [apply filter_submseteq|done].
Qed.

(** X23.  Of a list of repositories with distinct ids, as [fetchAllRepos]
    returns it, the two sections on display make a partition of the
    repositories that match the search text: every one of them is in exactly
    one section.  The recent section holds at most four repositories, all
    with a use recorded, and none of the others with a use recorded was used
    later than one of them. *)
Theorem recent_and_other_repos_partition (usage : gmap string Z) (searchText : string)
    (rs : list GiteaRepo) :
  NoDup (repo_id <$> rs) ->
  let filtered := filteredRepos searchText rs in
  recentRepos usage filtered ++ otherRepos usage filtered ≡ₚ filtered
  /\ filtered ⊆+ rs
  /\ (length (recentRepos usage filtered) <= 4)%nat
  /\ Forall (fun repo => Js.truthy_num (usageOf usage repo) = true)
       (recentRepos usage filtered)
  /\ forall recent other,
       recent ∈ recentRepos usage filtered ->
       other ∈ otherRepos usage filtered ->
       Js.truthy_num (usageOf usage other) = true ->
       (lastUsed usage other <= lastUsed usage recent)%Z.
Proof.
  intros Hnodup filtered.
  pose proof (filteredRepos_submseteq searchText rs) as Hsub. fold filtered in Hsub.
  assert (Hfiltered : NoDup (repo_id <$> filtered)).
  { pose proof (fmap_submseteq repo_id _ _ Hsub) as Hids.
    apply submseteq_Permutation in Hids as [others Hids]. rewrite Hids in Hnodup.
    by apply NoDup_app in Hnodup as (? & _ & _). }
  destruct (sections_partition usage filtered Hfiltered) as (H1 & H2 & H3 & H4).
  done.
Qed.

Lemma usage_of_other_repo (usage : gmap string Z) (repoId now : Z) (repo : GiteaRepo) :
  repo_id repo <> repoId ->
  usageOf (<[pretty repoId := now]> usage) repo = usageOf usage repo.
Proof.
  intros Hid. unfold usageOf. apply lookup_insert_ne. intros Heq. apply Hid.
  symmetry. by apply (inj pretty).
Qed.

(** X24.  A repository that is opened is recorded with the reading of the
    clock, and when that reading is later than every use recorded before, it
    is the first of the recent section from then on. *)
Theorem opened_repository_comes_first (usage : gmap string Z) (repo : GiteaRepo)
    (filtered : list GiteaRepo) (a : App RepoView) :
  let now := clock (ticks (app_net a)) in
  repo ∈ filtered ->
  (0 < now)%Z ->
  (forall key used, usage !! key = Some used -> (used < now)%Z) ->
  exists next a' first rest,
    handleRecordUsage usage (repo_id repo) a = (Returned next, a')
    /\ storage a' !! USAGE_KEY = Some (stringify_usage next)
    /\ usageOf next repo = Some now
    /\ recentRepos next filtered = first :: rest
    /\ repo_id first = repo_id repo.
Proof.
  intros now Hrepo Hnow Hearlier.
  set (next := <[pretty (repo_id repo) := now]> usage).
  assert (Hused : usageOf next repo = Some now) by apply lookup_insert_eq.
  assert (Hin : repo ∈ reposWithUsage next filtered).
  { rewrite reposWithUsage_perm. apply list_elem_of_In, filter_In.
    split; [by apply list_elem_of_In|]. rewrite Hused. cbn.
    apply negb_true_iff, Z.eqb_neq. lia. }
  pose proof (reposWithUsage_sorted next filtered) as Hsorted.
  destruct (reposWithUsage next filtered) as [|first rest] eqn:E;
    [by apply not_elem_of_nil in Hin|].
  exists next, (snd (handleRecordUsage usage (repo_id repo) a)), first, (take 3 rest).
  split; [reflexivity|]. split; [apply lookup_insert_eq|]. split; [exact Hused|].
  split; [unfold recentRepos; by rewrite E|].
  apply elem_of_cons in Hin as [->|Hin]; [done|].
  apply StronglySorted_inv in Hsorted as [_ Hfirst].
  rewrite Forall_forall in Hfirst. specialize (Hfirst repo Hin).
  unfold lastUsed in Hfirst. rewrite Hused in Hfirst. cbn [default] in Hfirst.
  destruct (decide (repo_id first = repo_id repo)) as [|Hother]; [done|].
  unfold next in Hfirst.
  rewrite (usage_of_other_repo usage (repo_id repo) now first Hother) in Hfirst.
  unfold usageOf in Hfirst. destruct (usage !! pretty (repo_id first)) as [used|] eqn:Eu.
  - specialize (Hearlier _ _ Eu). cbn in Hfirst. lia.
  - cbn in Hfirst. lia.
Qed.

(** ** The repository command: its cache *)

Lemma repo_cache_keys_differ : CACHE_KEY <> CACHE_TIME_KEY.
Proof. discriminate. Qed.

(** X25.  What [saveCachedRepos] stores, [loadCachedRepos] gives back, with
    the reading of the clock taken at the save as its timestamp, provided
    that parsing undoes serialisation on that list and on that reading. *)
Theorem repos_cache_round_trip (rs : list GiteaRepo) (a : App RepoView) :
  let now := clock (ticks (app_net a)) in
  Js.truthy (stringify_repos rs) = true ->
  parse_repos (stringify_repos rs) = Some rs ->
  Number_of_string (pretty now) = Some now ->
  exists a1,
    saveCachedRepos rs a = (Returned tt, a1)
    /\ fst (loadCachedRepos a1) = Returned (Some rs, Some now).
Proof.
  intros now Htruthy Hparse Hnumber. eexists. split; [reflexivity|].
  unfold loadCachedRepos, bind, getItem. cbn.
  rewrite lookup_insert_ne by (apply not_eq_sym, repo_cache_keys_differ).
  rewrite !lookup_insert_eq. fold now.
  by rewrite Htruthy, truthy_pretty, Hparse, Hnumber.
Qed.

(** X26.  Clearing the cache of the repository command removes its two
    entries and fetches the list again.  When the fetch returns, the list is
    shown and stored with the reading of the clock; when it throws, the
    cache stays empty, the list shown before stays on display and the
    message of the error is shown.  The cache is not read. *)
Theorem handleClearCache_refetches (fuel : nat) (baseUrl : string)
    (accessToken : option string) (cacheTtlMinutes : Z) (a : App RepoView)
    (r : Outcome (list GiteaRepo)) (w1 : Net) :
  Js.truthy baseUrl = true ->
  fetchAllRepos fuel baseUrl accessToken (app_net a) = (r, w1) ->
  let a' := snd (handleClearCache fuel (Some baseUrl) accessToken cacheTtlMinutes a) in
  storage_reads a' = storage_reads a
  /\ match r with
     | Returned fetched =>
         rv_repos (view a') = fetched
         /\ storage a' !! CACHE_KEY = Some (stringify_repos fetched)
         /\ storage a' !! CACHE_TIME_KEY = Some (pretty (clock (ticks w1)))
         /\ rv_isLoading (view a') = false
     | Thrown e =>
         storage a' !! CACHE_KEY = None
         /\ storage a' !! CACHE_TIME_KEY = None
         /\ rv_repos (view a') = rv_repos (view a)
         /\ rv_errorMessage (view a') = Some (error_message (exn_error e))
         /\ rv_isLoading (view a') = false
     | OutOfFuel =>
         storage a' !! CACHE_KEY = None /\ storage a' !! CACHE_TIME_KEY = None
     end.
Proof.
  intros Hb Hfetch a'.
  set (a0 := mkApp (app_net a) (delete CACHE_TIME_KEY (delete CACHE_KEY (storage a)))
               (storage_reads a) (mkRepoView (rv_repos (view a)) true None)
               (toasts a ++ [{| toast_title := "Cache cleared"; toast_message := "" |}])).
  assert (Hrun : handleClearCache fuel (Some baseUrl) accessToken cacheTtlMinutes a
                 = try_finally
                     (try_catch
                        (fetched <- app_call (fetchAllRepos fuel baseUrl accessToken) ;;
                         setRepos fetched ;;;
                         saveCachedRepos fetched)
                        (fun error =>
                           let message := error_message (exn_error error) in
                           rv_setErrorMessage (Some message) ;;;
                           showToast "Gitea error" message))
                     (fun a => mkApp (app_net a) (storage a) (storage_reads a)
                                 (rv_with_isLoading false (view a)) (toasts a))
                     a0).
  { unfold handleClearCache, clearCache, refreshRepos. rewrite Hb. reflexivity. }
  pose proof (app_call_run (V := RepoView) (fetchAllRepos fuel baseUrl accessToken)
                a0 r w1 Hfetch) as Hcall.
  subst a'. rewrite Hrun. unfold try_finally, try_catch.
  destruct r as [fetched|e|].
  - rewrite (bind_returned _ _ _ _ _ Hcall). cbn.
    rewrite lookup_insert_ne by (apply not_eq_sym, repo_cache_keys_differ).
    by rewrite !lookup_insert_eq.
  - rewrite (bind_thrown _ _ _ _ _ Hcall). cbn.
    rewrite lookup_delete_ne by (apply not_eq_sym, repo_cache_keys_differ).
    by rewrite !lookup_delete_eq.
  - rewrite (bind_out_of_fuel _ _ _ _ Hcall). cbn.
    rewrite lookup_delete_ne by (apply not_eq_sym, repo_cache_keys_differ).
    by rewrite !lookup_delete_eq.
Qed.

End FurtherRepoDisplay.

(** ** Owner and name of a repository *)

Lemma split_nonempty (sep : ascii) (s : string) : Js.split sep s <> [].
Proof.
  destruct s as [|c rest]; [done|]. cbn [Js.split].
  destruct (Ascii.eqb c sep); [done|]. by destruct (Js.split sep rest).
Qed.

Lemma join_cons (sep p q : string) (l : list string) :
  Js.join sep (p :: q :: l) = p +:+ sep +:+ Js.join sep (q :: l).
Proof. reflexivity. Qed.

Lemma join_split (s : string) : Js.join "/" (Js.split "/"%char s) = s.
Proof.
  induction s as [|c rest IH]; [reflexivity|]. cbn [Js.split].
  pose proof (split_nonempty "/"%char rest) as Hne.
  destruct (Ascii.eqb c "/") eqn:Ec.
  - apply Ascii.eqb_eq in Ec. subst c.
    destruct (Js.split "/"%char rest) as [|hd tl]; [done|].
    rewrite join_cons, IH. reflexivity.
  - destruct (Js.split "/"%char rest) as [|hd tl]; [done|].
    destruct tl as [|p tl].
    + cbn in *. by rewrite IH.
    + rewrite join_cons in *. by rewrite <- IH.
Qed.

Lemma split_hasSlash (s : string) :
  Forall (fun part => hasSlash part = false) (Js.split "/"%char s).
Proof.
  induction s as [|c rest IH]; [by repeat constructor|]. cbn [Js.split].
  destruct (Ascii.eqb c "/") eqn:Ec; [by constructor|].
  destruct (Js.split "/"%char rest) as [|hd tl]; [by repeat constructor; cbn; rewrite Ec|].
  apply Forall_cons in IH as [Hhd Htl]. constructor; [|exact Htl].
  cbn. by rewrite Ec, Hhd.
Qed.

(** X27.  The owner and the name that the code takes from a full name are
    its first two segments between slashes, both non-empty and free of
    slashes; segments after the second are ignored. *)
Theorem ownerAndName_takes_the_first_two_segments (full owner name : string) :
  ownerAndName full = Some (owner, name) ->
  owner <> "" /\ name <> ""
  /\ hasSlash owner = false /\ hasSlash name = false
  /\ exists more, full = Js.join "/" (owner :: name :: more).
Proof.
  unfold ownerAndName. pose proof (join_split full) as Hjoin.
  pose proof (split_hasSlash full) as Hfree.
  destruct (Js.split "/"%char full) as [|p0 [|p1 more]]; [done..|].
  cbn [lookup list_lookup]. cbn.
  destruct (Js.truthy p0 && Js.truthy p1) eqn:Htruthy; [|done].
  intros [= <- <-]. apply andb_true_iff in Htruthy as [H0 H1].
  apply Forall_cons in Hfree as [Hf0 Hfree]. apply Forall_cons in Hfree as [Hf1 _].
  split; [by destruct p0|]. split; [by destruct p1|].
  split; [exact Hf0|]. split; [exact Hf1|]. by exists more.
Qed.




(** ** The repository command: refreshRepos *)

Section FurtherRepoRefresh.
Context `{P : Platform} `{server : Server}.

Lemma loadCachedRepos_state (a : App RepoView) :
  exists cached,
    loadCachedRepos a = (Returned cached, with_reads [CACHE_KEY; CACHE_TIME_KEY] a).
Proof.
  unfold loadCachedRepos, bind, getItem, with_reads. cbn [storage storage_reads].
  rewrite <- app_assoc. cbn [app].
  destruct (storage a !! CACHE_KEY) as [rawRepos|];
    destruct (storage a !! CACHE_TIME_KEY) as [rawTime|]; try by eexists.
  destruct (negb (Js.truthy rawRepos) || negb (Js.truthy rawTime)); [by eexists|].
  destruct (parse_repos rawRepos); [|by eexists].
  destruct (Number_of_string rawTime); by eexists.
Qed.

Lemma loadCachedRepos_storage (a b : App RepoView) :
  storage b = storage a -> fst (loadCachedRepos b) = fst (loadCachedRepos a).
Proof.
  intros H. unfold loadCachedRepos, bind, getItem. cbn [storage]. rewrite H.
  destruct (storage a !! CACHE_KEY) as [rawRepos|];
    destruct (storage a !! CACHE_TIME_KEY) as [rawTime|]; try reflexivity.
  destruct (negb (Js.truthy rawRepos) || negb (Js.truthy rawTime)); [reflexivity|].
  destruct (parse_repos rawRepos); [|reflexivity].
  destruct (Number_of_string rawTime); reflexivity.
Qed.

Lemma checkFresh_returns {V} (timestamp : option Z) (cacheTtlMinutes : Z) (a : App V) :
  exists fresh a', checkFresh timestamp cacheTtlMinutes a = (Returned fresh, a').
Proof. unfold checkFresh. destruct (Js.truthy_num timestamp); by eexists _, _. Qed.

(** The live part of a refresh of the repositories never throws, and ends
    with the loading flag off. *)
Lemma live_repos_refresh_settles fuel baseUrl accessToken (a : App RepoView) :
  let run := try_finally
               (try_catch
                  (fetched <- app_call (fetchAllRepos fuel baseUrl accessToken) ;;
                   setRepos fetched ;;;
                   saveCachedRepos fetched)
                  (fun error =>
                     let message := error_message (exn_error error) in
                     rv_setErrorMessage (Some message) ;;;
                     showToast "Gitea error" message))
               (fun a => mkApp (app_net a) (storage a) (storage_reads a)
                           (rv_with_isLoading false (view a)) (toasts a)) a in
  fst run = OutOfFuel
  \/ (fst run = Returned tt /\ rv_isLoading (view (snd run)) = false).
Proof.
  unfold try_finally, try_catch.
  destruct (fetchAllRepos fuel baseUrl accessToken (app_net a)) as [r w1] eqn:E.
  pose proof (app_call_run (V := RepoView) _ a r w1 E) as Hcall.
  destruct r as [fetched|e|].
  - rewrite (bind_returned _ _ _ _ _ Hcall). right. done.
  - rewrite (bind_thrown _ _ _ _ _ Hcall). right. done.
  - rewrite (bind_out_of_fuel _ _ _ _ Hcall). left. done.
Qed.

(** X29.  [refreshRepos] never throws, and whenever it ends the loading flag
    is off: with or without a base URL, forced or not, whether the cache is
    fresh or not, and whether the fetch returns or throws. *)
Theorem refreshRepos_never_throws_and_stops_loading (fuel : nat)
    (baseUrl accessToken : option string) (cacheTtlMinutes : Z) (force : bool)
    (a : App RepoView) :
  let run := refreshRepos fuel baseUrl accessToken cacheTtlMinutes force a in
  fst run = OutOfFuel
  \/ (fst run = Returned tt /\ rv_isLoading (view (snd run)) = false).
Proof.
  intros run.
  assert (Hrun : exists r a',
            run = (r, a')
            /\ (r = OutOfFuel \/ (r = Returned tt /\ rv_isLoading (view a') = false))).
  { subst run. unfold refreshRepos.
    destruct baseUrl as [baseUrl|]; [|eexists _, _; split; [reflexivity|by right]].
    destruct (negb (Js.truthy baseUrl));
      [eexists _, _; split; [reflexivity|by right]|].
    unfold bind at 1, rv_setIsLoading at 1, set_view, modify.
    unfold bind at 1, rv_setErrorMessage at 1, set_view, modify.
    unfold bind at 1.
    match goal with
    | |- context [(if negb force then ?m else _) ?a0] =>
        assert (Hstep : exists fresh a1,
                  (if negb force then m else ret false) a0 = (Returned fresh, a1))
    end.
    { destruct force; cbn [negb]; [by eexists _, _|].
      match goal with |- context [bind loadCachedRepos ?k ?a0] =>
        destruct (loadCachedRepos_state a0) as [[cachedRepos timestamp] Hload]
      end.
      rewrite (bind_returned _ _ _ _ _ Hload). cbn [fst snd].
      destruct cachedRepos as [cachedRepos|]; [|by eexists _, _].
      unfold bind, setRepos, set_view, modify. apply checkFresh_returns. }
    destruct Hstep as (fresh & a1 & ->).
    destruct fresh; [eexists _, _; split; [reflexivity|by right]|].
    eexists _, _. split; [apply surjective_pairing|apply live_repos_refresh_settles]. }
  destruct Hrun as (r & a' & -> & Hrun). exact Hrun.
Qed.

(** X30.  A refresh of the repositories that is not forced and finds a fresh
    entry in the cache shows the cached list and issues no request at all;
    the stored entries stay as they are and no toast is shown. *)
Theorem fresh_repos_cache_answers_without_network (fuel : nat) (baseUrl : string)
    (accessToken : option string) (cacheTtlMinutes : Z) (a : App RepoView)
    (rs : list GiteaRepo) (t : Z) :
  Js.truthy baseUrl = true ->
  fst (loadCachedRepos a) = Returned (Some rs, Some t) ->
  isFresh (Some t) (clock (ticks (app_net a))) cacheTtlMinutes = true ->
  exists a',
    refreshRepos fuel (Some baseUrl) accessToken cacheTtlMinutes false a
    = (Returned tt, a')
    /\ requests (app_net a') = requests (app_net a)
    /\ storage a' = storage a
    /\ toasts a' = toasts a
    /\ rv_repos (view a') = rs
    /\ rv_isLoading (view a') = false
    /\ rv_errorMessage (view a') = None.
Proof.
  intros Hb Hcached Hfresh. unfold refreshRepos. rewrite Hb. cbn [negb].
  unfold bind at 1, rv_setIsLoading at 1, set_view, modify.
  unfold bind at 1, rv_setErrorMessage at 1, set_view, modify.
  unfold bind at 1. unfold bind at 1.
  match goal with
  | |- context [loadCachedRepos ?a0] => set (a0' := a0)
  end.
  assert (Hload : fst (loadCachedRepos a0') = Returned (Some rs, Some t)).
  { rewrite <- Hcached. by apply loadCachedRepos_storage. }
  destruct (loadCachedRepos_state a0') as [c Hc].
  rewrite Hc in Hload. cbn [fst] in Hload. injection Hload as ->.
  rewrite Hc. cbn [fst snd].
  assert (Htruthy : Js.truthy_num (Some t) = true).
  { unfold isFresh in Hfresh. by apply andb_true_iff in Hfresh as [? _]. }
  unfold checkFresh. rewrite Htruthy.
  unfold bind, setRepos, set_view, modify. subst a0'.
  cbn -[isFresh]. rewrite Hfresh. cbn.
  eexists. split; [reflexivity|]. cbn. done.
Qed.

End FurtherRepoRefresh.

(** * The further properties on the worked example *)

Lemma buildRepoUrl_joins_with_one_slash_witness :
  exists page rest n m,
    buildRepoUrl "https://git.example" repoApp None = page +:+ slashes n
    /\ "/issues" = slashes m +:+ rest
    /\ endsWithSlash page = false
    /\ startsWithSlash rest = false
    /\ buildRepoUrl "https://git.example" repoApp (Some "/issues")
       = page +:+ "/" +:+ rest.
Proof.
  apply (buildRepoUrl_joins_with_one_slash "https://git.example" repoApp "/issues").
  reflexivity.
Defined.

(** The second case of the unit test "truncates long strings". *)
Lemma truncate_fits_the_limit_witness :
  (Z.of_nat (length (truncate (units "long-text") 5)) <= 5)%Z
  /\ truncate (units "long-text") 5 = units "long" ++ ellipsis.
Proof. apply (truncate_fits_the_limit (units "long-text") 5). lia. Defined.

Lemma fetchAllRepos_without_token_only_searches_witness :
  exists n,
    (n <= 5)%nat
    /\ snd (fetchAllRepos (server := sampleServer) 5 "https://git.example/" None emptyNet)
       = logged (searchRequest "https://git.example/" None <$> seq 1 n) emptyNet
    /\ forall page,
         req_authorization (snd (searchRequest "https://git.example/" None page)) = None.
Proof.
  apply (fetchAllRepos_without_token_only_searches (server := sampleServer)
           5 "https://git.example/" None emptyNet).
  reflexivity.
Defined.

Lemma fetchAllRepos_without_token_ends_witness :
  exists r n,
    fetchAllRepos (server := sampleServer) 5 "https://git.example/" None emptyNet
    = (r, logged (searchRequest "https://git.example/" None <$> seq 1 n) emptyNet)
    /\ r <> OutOfFuel
    /\ (n <= size ({[1%Z; 2%Z]} : gset Z) + 1)%nat.
Proof.
  apply (fetchAllRepos_without_token_ends (server := sampleServer) {[1%Z; 2%Z]} 5
           "https://git.example/" None emptyNet).
  - reflexivity.
  - intros req repo. unfold yield. cbn [srv_search sampleServer answer].
    repeat match goal with
           | |- context [if ?b then _ else _] => destruct b
           end; cbn; set_solver.
  - vm_compute. lia.
Defined.

Lemma fetchAllRepos_search_error_is_raised_witness :
  fetchAllRepos (server := sampleServer) 5 "https://down.example" (Some "tok") emptyNet
  = (Thrown (plain (OtherError "Error" "Gitea API error (500): Internal Server Error")),
     logged [searchRequest "https://down.example" (Some "tok") 1] emptyNet).
Proof.
  apply (fetchAllRepos_search_error_is_raised (server := sampleServer) 4
           "https://down.example" (Some "tok") emptyNet
           {| status := 500; statusText := "Internal Server Error"; text := "";
              json := None |}).
  - vm_compute. reflexivity.
  - reflexivity.
Defined.

Lemma fetchAllRepos_survives_organisation_failures_witness :
  exists r st',
    fetchAllRepos_body (server := sampleServer) 5 "https://git.example/" (Some "tok")
      {| repos := []; seenIds := ∅; repos_net := emptyNet |} = (r, st')
    /\ (r = OutOfFuel \/ exists more, r = Returned (repos sampleListed ++ more)).
Proof.
  apply (fetchAllRepos_survives_organisation_failures (server := sampleServer) 5
           "https://git.example/" "tok"
           {| repos := []; seenIds := ∅; repos_net := emptyNet |}
           sampleSearched sampleListed).
  - reflexivity.
  - vm_compute. reflexivity.
  - vm_compute. reflexivity.
Defined.

Lemma fetchCommitStatus_raises_api_error_witness :
  fetchCommitStatus (server := sampleServer) "https://git.example/" "acme" "app" "zzz"
    None emptyNet
  = (Thrown (plain (GiteaApiError 500 "Gitea API error (500): Internal Server Error"
                      (Some "https://git.example/api/v1/repos/acme/app/commits/zzz/status"))),
     logged [(EpStatus, statusRequest "https://git.example/" None "acme" "app" "zzz")]
       emptyNet).
Proof.
  apply (fetchCommitStatus_raises_api_error (server := sampleServer)
           "https://git.example/" "acme" "app" "zzz" None emptyNet
           {| status := 500; statusText := "Internal Server Error"; text := "";
              json := None |}).
  - vm_compute. reflexivity.
  - reflexivity.
Defined.

Lemma cleared_settings_load_as_absent_witness :
  exists a1 a2,
    clearStoredGiteaSettings cachedApp = (Returned tt, a1)
    /\ loadStoredGiteaSettings a1
       = (Returned {| stored_baseUrl := None; stored_accessToken := None |}, a2)
    /\ storage a1 !! "gitea-pr-inbox-cache:https://git.example/"
       = storage cachedApp !! "gitea-pr-inbox-cache:https://git.example/".
Proof.
  destruct (cleared_settings_load_as_absent cachedApp) as (a1 & a2 & H1 & H2 & H3).
  exists a1, a2. split; [exact H1|]. split; [exact H2|]. by apply H3.
Defined.

Lemma loadCachedInbox_reads_both_or_neither_witness :
  exists cached,
    loadCachedInbox (P := cachingPlatform) "https://git.example/" cachedApp
    = (Returned cached,
       with_reads [prCacheKey (P := cachingPlatform) "https://git.example/";
                   prCacheTimeKey (P := cachingPlatform) "https://git.example/"]
         cachedApp)
    /\ fst (loadCachedInbox (P := cachingPlatform) "https://git.example/"
              (with_reads ["gitea-base-url"] cachedApp))
       = Returned cached.
Proof.
  destruct (loadCachedInbox_reads_both_or_neither (P := cachingPlatform)
              "https://git.example/" cachedApp) as (cached & H1 & _ & H3).
  exists cached. split; [exact H1|]. by apply H3.
Defined.

Lemma inbox_cache_round_trip_witness :
  exists a1,
    saveCachedInbox (P := cachingPlatform) "https://git.example/" samplePayload blankApp
    = (Returned tt, a1)
    /\ fst (loadCachedInbox (P := cachingPlatform) "https://git.example/" a1)
       = Returned {| cached_payload := Some samplePayload;
                     cached_timestamp := Some 1700000000000%Z |}.
Proof.
  apply (inbox_cache_round_trip (P := cachingPlatform) "https://git.example/"
           samplePayload blankApp); vm_compute; reflexivity.
Defined.

Lemma inbox_cache_is_per_base_url_witness :
  fst (loadCachedInbox (P := cachingPlatform) "https://git.example/"
         (snd (saveCachedInbox (P := cachingPlatform) "https://other.example/"
                 samplePayload cachedApp)))
  = fst (loadCachedInbox (P := cachingPlatform) "https://git.example/" cachedApp)
  /\ fst (loadCachedInbox (P := cachingPlatform) "https://git.example/"
            (snd (clearCachedInbox (P := cachingPlatform) "https://other.example/"
                    cachedApp)))
     = fst (loadCachedInbox (P := cachingPlatform) "https://git.example/" cachedApp).
Proof.
  apply (inbox_cache_is_per_base_url (P := cachingPlatform) "https://other.example/"
           "https://git.example/" samplePayload cachedApp).
  simpl. discriminate.
Defined.

Lemma fresh_cache_answers_without_network_witness :
  exists a',
    refreshInbox (P := cachingPlatform) (server := sampleServer) 5
      (Some "https://git.example/") (Some "tok") 60 false cachedApp
    = (Returned tt, a')
    /\ requests (app_net a') = requests (app_net cachedApp)
    /\ storage a' = storage cachedApp
    /\ toasts a' = toasts cachedApp
    /\ createdPulls (view a') = payload_created samplePayload
    /\ reviewRequestedPulls (view a') = payload_reviewRequested samplePayload
    /\ isLoading (view a') = false
    /\ errorMessage (view a') = None.
Proof.
  apply (fresh_cache_answers_without_network (P := cachingPlatform)
           (server := sampleServer) 5 "https://git.example/" "tok" 60 cachedApp
           samplePayload 1700000000005); vm_compute; reflexivity.
Defined.

Lemma empty_cache_refresh_is_a_forced_one_witness :
  let forced := refreshInbox (P := cachingPlatform) (server := sampleServer) 5
                  (Some "https://git.example/") (Some "tok") 60 true blankApp in
  refreshInbox (P := cachingPlatform) (server := sampleServer) 5
    (Some "https://git.example/") (Some "tok") 60 false blankApp
  = (fst forced,
     with_reads [prCacheKey (P := cachingPlatform) "https://git.example/";
                 prCacheTimeKey (P := cachingPlatform) "https://git.example/"]
       (snd forced)).
Proof.
  apply (empty_cache_refresh_is_a_forced_one (P := cachingPlatform)
           (server := sampleServer) 5 "https://git.example/" "tok" 60 blankApp);
    vm_compute; reflexivity.
Defined.

Lemma returned_debug_agrees_with_result_witness :
  exists result,
    sampleOutcome = Returned result
    /\ createdCount (debug result) = Some (length (created result))
    /\ reviewRequestedCount (debug result) = Some (length (reviewRequested result))
    /\ startedAt (debug result) = 1700000000000%Z
    /\ finishedAt (debug result) <> None
    /\ ((usedGlobalEndpoints (debug result) = Some true
         /\ fallbackUsed (debug result) = Some false
         /\ errors (debug result) = [])
        \/ (usedGlobalEndpoints (debug result) = Some false
            /\ fallbackUsed (debug result) = Some true
            /\ dbg_currentUser (debug result) <> None
            /\ repoCount (debug result) <> None
            /\ dbg_perRepoFailures (debug result) <> None)).
Proof.
  assert (Hfetch : fetchPullRequestInbox (P := samplePlatform) (server := sampleServer)
                     5 "https://git.example/" "tok" emptyNet
                   = (sampleOutcome, sampleNet)) by (vm_compute; reflexivity).
  unfold sampleOutcome in *. eexists. split; [reflexivity|].
  exact (returned_debug_agrees_with_result (P := samplePlatform)
           (server := sampleServer) 5 "https://git.example/" "tok" emptyNet sampleNet
           _ Hfetch).
Defined.

Lemma recent_and_other_repos_partition_witness :
  let filtered := filteredRepos (R := sampleRuntime) "  ACME " sampleRepos in
  recentRepos sampleUsage filtered
    ++ otherRepos (R := sampleRuntime) sampleUsage filtered ≡ₚ filtered
  /\ filtered ⊆+ sampleRepos
  /\ (length (recentRepos sampleUsage filtered) <= 4)%nat
  /\ Forall (fun repo => Js.truthy_num (usageOf sampleUsage repo) = true)
       (recentRepos sampleUsage filtered)
  /\ forall recent other,
       recent ∈ recentRepos sampleUsage filtered ->
       other ∈ otherRepos (R := sampleRuntime) sampleUsage filtered ->
       Js.truthy_num (usageOf sampleUsage other) = true ->
       (lastUsed sampleUsage other <= lastUsed sampleUsage recent)%Z.
Proof.
  apply (recent_and_other_repos_partition (R := sampleRuntime) sampleUsage "  ACME "
           sampleRepos).
  apply (bool_decide_unpack _). vm_compute. exact I.
Defined.

Lemma opened_repository_comes_first_witness :
  exists next a' first rest,
    handleRecordUsage (P := samplePlatform) (R := sampleRuntime) sampleUsage
      (repo_id repoLib) repoCommandApp = (Returned next, a')
    /\ storage a' !! USAGE_KEY = Some (stringify_usage (Runtime := sampleRuntime) next)
    /\ usageOf next repoLib = Some 1700000000000%Z
    /\ recentRepos next sampleRepos = first :: rest
    /\ repo_id first = repo_id repoLib.
Proof.
  apply (opened_repository_comes_first (P := samplePlatform) (R := sampleRuntime)
           sampleUsage repoLib sampleRepos repoCommandApp).
  - unfold sampleRepos. set_solver.
  - vm_compute. reflexivity.
  - intros key used Hused. unfold sampleUsage in Hused.
    apply lookup_insert_Some in Hused as [[_ <-]|[_ Hused]]; [vm_compute; reflexivity|].
    apply lookup_singleton_Some in Hused as [_ <-]. vm_compute. reflexivity.
Defined.

Lemma repos_cache_round_trip_witness :
  exists a1,
    saveCachedRepos (P := cachingPlatform) [repoApp; repoLib] repoCommandApp
    = (Returned tt, a1)
    /\ fst (loadCachedRepos (P := cachingPlatform) a1)
       = Returned (Some [repoApp; repoLib], Some 1700000000000%Z).
Proof.
  apply (repos_cache_round_trip (P := cachingPlatform) [repoApp; repoLib]
           repoCommandApp); vm_compute; reflexivity.
Defined.

Lemma handleClearCache_refetches_witness :
  let a' := snd (handleClearCache (P := samplePlatform) (server := sampleServer) 5
                   (Some "https://git.example/") (Some "tok") 60 repoCommandApp) in
  storage_reads a' = storage_reads repoCommandApp
  /\ rv_repos (view a') = sampleRepos
  /\ storage a' !! CACHE_KEY = Some (stringify_repos (Platform := samplePlatform) sampleRepos)
  /\ storage a' !! CACHE_TIME_KEY
     = Some (pretty (clock (Platform := samplePlatform) (ticks sampleDiscovery)))
  /\ rv_isLoading (view a') = false.
Proof.
  assert (Hrun : fetchAllRepos (server := sampleServer) 5 "https://git.example/"
                   (Some "tok") (app_net repoCommandApp)
                 = (Returned sampleRepos, sampleDiscovery))
    by (vm_compute; reflexivity).
  exact (handleClearCache_refetches (P := samplePlatform) (server := sampleServer) 5
           "https://git.example/" (Some "tok") 60 repoCommandApp
           (Returned sampleRepos) sampleDiscovery eq_refl Hrun).
Defined.

Lemma ownerAndName_takes_the_first_two_segments_witness :
  "tools" <> "" /\ "cli" <> ""
  /\ hasSlash "tools" = false /\ hasSlash "cli" = false
  /\ exists more, "tools/cli/wiki" = Js.join "/" ("tools" :: "cli" :: more).
Proof.
  apply (ownerAndName_takes_the_first_two_segments "tools/cli/wiki" "tools" "cli").
  reflexivity.
Defined.


Lemma fresh_repos_cache_answers_without_network_witness :
  exists a',
    refreshRepos (P := cachingPlatform) (server := sampleServer) 5
      (Some "https://git.example/") (Some "tok") 60 false cachedRepoApp
    = (Returned tt, a')
    /\ requests (app_net a') = requests (app_net cachedRepoApp)
    /\ storage a' = storage cachedRepoApp
    /\ toasts a' = toasts cachedRepoApp
    /\ rv_repos (view a') = [repoApp; repoLib]
    /\ rv_isLoading (view a') = false
    /\ rv_errorMessage (view a') = None.
Proof.
  apply (fresh_repos_cache_answers_without_network (P := cachingPlatform)
           (server := sampleServer) 5 "https://git.example/" (Some "tok") 60
           cachedRepoApp [repoApp; repoLib] 1700000000005); vm_compute; reflexivity.
Defined.
